(** * NativeTasks: the circular image buffer and the FastImage pixel kernels

    A shallow embedding of

    - [Sources/NativeTasks/NativeTasks/CircularImageBuffer.h]
      (class template [CircularImageBuffer<SampleType>]),
    - [Sources/NativeTasks/NativeTasks/FastImage.cpp]
      ([copy2vuyToLuma], [copyLumaToColor], [copyColorToLuma],
      [resampleNearestNeighborLuma], [resampleNearestNeighborColor],
      [resampleLerpFastLuma], [rotate180]), and
    - [VideoParameters::setRotation] of
      [Sources/NativeTasks/NativeTasks/VideoParameters.cpp],

    followed by the properties of the specification that concern them and
    by further properties of the same code: the buffer as a bounded queue,
    its statistics and its mutex; what the copy kernels need and write; the
    resampling kernels at whole scale factors.

    Machine integers are mathematical integers ([Z]) with the wrap-around of
    the C++ type written out at every operation.  Sample arrays are lists,
    indexed by stdpp's lookup and insert; in the kernels an access outside an
    array, like a division by zero, is undefined behaviour in the source and
    [None] here. *)

From Stdlib Require Import ZArith Lia List.
From stdpp Require Import base numbers option list.

Local Open Scope Z_scope.

(* ===================================================================== *)
(** ** Machine integers *)
(* ===================================================================== *)

Module MachineInt.

(** [uint32_t] / [unsigned int]: arithmetic is modulo 2^32. *)
Definition wrap_u32 (z : Z) : Z := z mod 2 ^ 32.

(** [int]: 32 bits, two's complement.  Converting an out-of-range value
    to [int] (and, as on the targets of this code, signed arithmetic that
    leaves the range) keeps the low 32 bits. *)
Definition wrap_i32 (z : Z) : Z := (z + 2 ^ 31) mod 2 ^ 32 - 2 ^ 31.

Definition INT_MAX : Z := 2 ^ 31 - 1.
Definition INT_MIN : Z := - 2 ^ 31.
Definition UINT32_MAX : Z := 2 ^ 32 - 1.

End MachineInt.
Import MachineInt.

(* ===================================================================== *)
(** ** CircularImageBuffer.h *)
(* ===================================================================== *)

Module CIB.
Section Buffer.

(** The template parameter. *)
Context {SampleType : Type}.

(** A frame as the caller passes it ([SampleType *image]) and as a slot
    stores it: an array of samples. *)
Local Abbreviation Image := (list SampleType) (only parsing).

(** The data members.  [mCircularBuffer] is the vector of slots; a slot is
    represented by its contents and identified by its index in the vector.
    [mMutex] is the static mutex, abstracted to the number of [lock()]
    calls that no [unlock()] has matched yet (blocking is not modelled). *)
Record CircularImageBuffer : Type := mkBuffer {
  mWidth : Z;               (* unsigned int *)
  mHeight : Z;              (* unsigned int *)
  mStatFramesAdded : Z;     (* unsigned int *)
  mStatFramesRead : Z;      (* unsigned int *)
  mStatFramesSkipped : Z;   (* unsigned int *)
  mCircularBuffer : list Image;
  mCount : Z;               (* int *)
  mNextAddIndex : Z;        (* int *)
  mNextGetIndex : Z;        (* int; -1 when there is no image *)
  mMutex : nat
}.

Implicit Type b : CircularImageBuffer.

(** *** Field updates *)

Definition with_slots (s : list Image) b : CircularImageBuffer :=
  mkBuffer (mWidth b) (mHeight b) (mStatFramesAdded b) (mStatFramesRead b)
    (mStatFramesSkipped b) s (mCount b) (mNextAddIndex b) (mNextGetIndex b)
    (mMutex b).

Definition with_count (c : Z) b : CircularImageBuffer :=
  mkBuffer (mWidth b) (mHeight b) (mStatFramesAdded b) (mStatFramesRead b)
    (mStatFramesSkipped b) (mCircularBuffer b) c (mNextAddIndex b)
    (mNextGetIndex b) (mMutex b).

Definition with_nextAdd (i : Z) b : CircularImageBuffer :=
  mkBuffer (mWidth b) (mHeight b) (mStatFramesAdded b) (mStatFramesRead b)
    (mStatFramesSkipped b) (mCircularBuffer b) (mCount b) i
    (mNextGetIndex b) (mMutex b).

Definition with_nextGet (i : Z) b : CircularImageBuffer :=
  mkBuffer (mWidth b) (mHeight b) (mStatFramesAdded b) (mStatFramesRead b)
    (mStatFramesSkipped b) (mCircularBuffer b) (mCount b) (mNextAddIndex b)
    i (mMutex b).

Definition with_added (n : Z) b : CircularImageBuffer :=
  mkBuffer (mWidth b) (mHeight b) n (mStatFramesRead b)
    (mStatFramesSkipped b) (mCircularBuffer b) (mCount b) (mNextAddIndex b)
    (mNextGetIndex b) (mMutex b).

Definition with_read (n : Z) b : CircularImageBuffer :=
  mkBuffer (mWidth b) (mHeight b) (mStatFramesAdded b) n
    (mStatFramesSkipped b) (mCircularBuffer b) (mCount b) (mNextAddIndex b)
    (mNextGetIndex b) (mMutex b).

Definition with_skipped (n : Z) b : CircularImageBuffer :=
  mkBuffer (mWidth b) (mHeight b) (mStatFramesAdded b) (mStatFramesRead b)
    n (mCircularBuffer b) (mCount b) (mNextAddIndex b)
    (mNextGetIndex b) (mMutex b).

Definition with_mutex (m : nat) b : CircularImageBuffer :=
  mkBuffer (mWidth b) (mHeight b) (mStatFramesAdded b) (mStatFramesRead b)
    (mStatFramesSkipped b) (mCircularBuffer b) (mCount b) (mNextAddIndex b)
    (mNextGetIndex b) m.

(** *** Properties (the const accessors) *)

Definition statFramesAdded b : Z := mStatFramesAdded b.
Definition statFramesRead b : Z := mStatFramesRead b.
Definition statFramesSkipped b : Z := mStatFramesSkipped b.
Definition count b : Z := mCount b.

(** [static_cast<int>(mCircularBuffer.capacity())].  The vector is reserved
    once, for exactly the slots pushed by the constructor, and never grows:
    its capacity is its number of slots. *)
Definition capacity b : Z := wrap_i32 (Z.of_nat (length (mCircularBuffer b))).

Definition width b : Z := mWidth b.
Definition height b : Z := mHeight b.
Definition isEmpty b : bool := mCount b =? 0.
Definition isFull b : bool := mCount b =? capacity b.

(** [Mutex::lock] and [Mutex::unlock] on the static mutex (one that was
    created successfully: [isValid()] holds). *)
Definition lock b : CircularImageBuffer := with_mutex (S (mMutex b)) b.
Definition unlock b : CircularImageBuffer := with_mutex (Nat.pred (mMutex b)) b.

(** *** reset, resetStats *)

Definition reset b : CircularImageBuffer :=
  unlock (with_nextGet (-1) (with_nextAdd 0 (with_count 0 (lock b)))).

Definition resetStats b : CircularImageBuffer :=
  unlock (with_skipped 0 (with_read 0 (with_added 0 (lock b)))).

(** *** Construction

    [new SampleType[width * height]] leaves the samples of a fresh slot
    indeterminate: [garbage i] stands for whatever slot [i] holds.  The
    scalar members are indeterminate too until [reset()] and
    [resetStats()] assign them; [m] is the state of the static mutex. *)
Definition construct (width height : Z) (capacity : nat)
    (garbage : nat -> Image) (m : nat) : CircularImageBuffer :=
  resetStats (reset
    (mkBuffer width height 0 0 0 (garbage <$> seq 0 capacity) 0 0 0 m)).

(** *** add

    [memcpy(mCircularBuffer[mNextAddIndex], image,
            width() * height() * sizeof(SampleType))]:
    the slot receives the first [width() * height()] samples of [image]
    (an [unsigned int] product).  The caller owes an [image] of at least
    that many samples, and the index is that of an existing slot; outside
    of that the source is undefined and the model leaves the slots alone. *)
Definition frameSamples b : nat := Z.to_nat (wrap_u32 (width b * height b)).

Definition memcpy_slot (image : Image) b : CircularImageBuffer :=
  let i := mNextAddIndex b in
  if (0 <=? i) && (i <? Z.of_nat (length (mCircularBuffer b))) then
    with_slots
      (<[Z.to_nat i := take (frameSamples b) image]> (mCircularBuffer b)) b
  else b.

(** The [assert]s are compiled out ([NDEBUG]); [add_asserts] below states
    them.  Note the [return] of the zero-capacity guard, which leaves the
    function between [mMutex.lock()] and [mMutex.unlock()]. *)
Definition add (image : Image) b : CircularImageBuffer :=
  let b := lock b in
  if capacity b =? 0 then b
  else
    let b := memcpy_slot image b in
    let b := with_added (wrap_u32 (mStatFramesAdded b + 1)) b in
    let b :=
      if isFull b then
        let b := with_nextAdd
                   (Z.rem (wrap_i32 (mNextAddIndex b + 1)) (capacity b)) b in
        let b := with_nextGet
                   (Z.rem (wrap_i32 (mNextGetIndex b + 1)) (capacity b)) b in
        with_skipped (wrap_u32 (mStatFramesSkipped b + 1)) b
      else
        let b := if isEmpty b then with_nextGet (mNextAddIndex b) b else b in
        let b := with_count (wrap_i32 (mCount b + 1)) b in
        with_nextAdd
          (Z.rem (wrap_i32 (mNextAddIndex b + 1)) (capacity b)) b
    in
    unlock b.

(** The assertions at the head of [add] (lines 137 to 160). *)
Definition add_asserts b : bool :=
  (0 <? capacity b) &&
  (if isEmpty b then
     (count b =? 0) && (mNextAddIndex b =? 0) && (mNextGetIndex b =? -1)
     && negb (isFull b)
   else
     Bool.eqb (isFull b) (mNextAddIndex b =? mNextGetIndex b)
     && (0 <? count b) && (count b <=? capacity b)
     && (0 <=? mNextAddIndex b) && (mNextAddIndex b <? capacity b)
     && (0 <=? mNextGetIndex b) && (mNextGetIndex b <? capacity b)).

(** *** get, peek

    The returned [SampleType *] is [mCircularBuffer[mNextGetIndex]], the
    pointer held by the vector at that index: it is represented by the
    index itself, [None] being [nullptr]. *)
Definition get b : option Z * CircularImageBuffer :=
  if isEmpty b then (None, b)
  else
    let image := Some (mNextGetIndex b) in
    let b := with_read (wrap_u32 (mStatFramesRead b + 1)) b in
    let b := with_count (wrap_i32 (mCount b - 1)) b in
    let b :=
      if isEmpty b then reset b
      else with_nextGet
             (Z.rem (wrap_i32 (mNextGetIndex b + 1)) (capacity b)) b
    in
    (image, b).

Definition peek b : option Z :=
  if isEmpty b then None else Some (mNextGetIndex b).

(** What a returned pointer points to: the samples of that slot. *)
Definition deref b (p : option Z) : option Image :=
  match p with
  | Some i => if 0 <=? i then mCircularBuffer b !! Z.to_nat i else None
  | None => None
  end.

(** *** The class invariant

    What the assertions of [add] and [get] expect of the members: the
    occupancy is within the capacity, an empty buffer is in the reset state,
    and in a buffer that holds images the two cursors are slot indices that
    lie [mCount] slots apart around the ring. *)
Definition wf b : Prop :=
  0 <= capacity b /\
  0 <= mCount b <= capacity b /\
  (mCount b = 0 -> mNextAddIndex b = 0 /\ mNextGetIndex b = -1) /\
  (0 < mCount b ->
     0 <= mNextGetIndex b < capacity b /\
     0 <= mNextAddIndex b < capacity b /\
     mNextAddIndex b = (mNextGetIndex b + mCount b) mod capacity b).

(** *** Sequences of public operations *)

Inductive Op : Type :=
| OpAdd (image : Image)
| OpGet
| OpPeek
| OpReset
| OpResetStats
| OpLock
| OpUnlock
| OpAccessor.   (* any of the const properties: they return a member *)

Definition step b (o : Op) : CircularImageBuffer :=
  match o with
  | OpAdd image => add image b
  | OpGet => snd (get b)
  | OpPeek => b
  | OpReset => reset b
  | OpResetStats => resetStats b
  | OpLock => lock b
  | OpUnlock => unlock b
  | OpAccessor => b
  end.

Definition run (ops : list Op) b : CircularImageBuffer := foldl step b ops.

(** [n] successive calls of [get()], each result read through the pointer
    as soon as it is returned. *)
Fixpoint gets (n : nat) b : list (option Image) * CircularImageBuffer :=
  match n with
  | O => ([], b)
  | S n' =>
      let '(p, b1) := get b in
      let '(rest, b2) := gets n' b1 in
      (deref b1 p :: rest, b2)
  end.

(** The slots that [k] successive reads visit from read cursor [g] in a ring
    of [cap] slots, in that order. *)
Definition ring_read (slots : list Image) (cap g : Z) (k : nat)
    : list (option Image) :=
  (fun j => slots !! Z.to_nat ((g + Z.of_nat j) mod cap)) <$> seq 0 k.

(** *** The buffer as a queue

    The images that the buffer holds, oldest first: the slots from the read
    cursor on, [mCount] of them around the ring. *)
Definition contents b : list (option Image) :=
  ring_read (mCircularBuffer b) (capacity b) (mNextGetIndex b)
    (Z.to_nat (mCount b)).

(** A queue of at most [cap] images that drops its oldest image to make
    room: what a sequence of operations does to the queue. *)
Definition queue_step (cap : Z) (samples : nat) (q : list (option Image))
    (o : Op) : list (option Image) :=
  match o with
  | OpAdd image =>
      if cap =? 0 then q
      else (if Z.of_nat (length q) =? cap then drop 1 q else q)
           ++ [Some (take samples image)]
  | OpGet => drop 1 q
  | OpReset => []
  | OpPeek | OpResetStats | OpLock | OpUnlock | OpAccessor => q
  end.

(** The three statistics account for every image: those added are those
    read, those skipped and those still in the buffer ([unsigned int]
    arithmetic). *)
Definition stats_balanced b : Prop :=
  mStatFramesAdded b
  = wrap_u32 (mStatFramesRead b + mStatFramesSkipped b + mCount b).

Definition resets (o : Op) : bool :=
  match o with OpReset | OpResetStats => true | _ => false end.

Definition locks (o : Op) : bool :=
  match o with OpLock | OpUnlock => true | _ => false end.

End Buffer.
Arguments CircularImageBuffer : clear implicits.
Arguments Op : clear implicits.
End CIB.

(* ===================================================================== *)
(** ** FastImage.cpp *)
(* ===================================================================== *)

Module FastImage.

(** [LumaSample] is [uint8_t], [ColorSample] is [uint32_t]; a
    [NativeLumaBuffer] or [NativeColorBuffer] is a pointer to the first
    sample of an array, here the list of the samples of that array. *)
Definition LumaSample : Type := Z.
Definition ColorSample : Type := Z.

Definition wrap_u8 (z : Z) : Z := z mod 2 ^ 8.

(** [buf[i]] as an rvalue and [buf[i] = v]: defined inside the array only. *)
Definition load {A} (buf : list A) (i : Z) : option A :=
  if 0 <=? i then buf !! Z.to_nat i else None.

Definition store {A} (buf : list A) (i : Z) (v : A) : option (list A) :=
  if (0 <=? i) && (i <? Z.of_nat (length buf))
  then Some (<[Z.to_nat i := v]> buf) else None.

(** [for (i = first; i < first + n; ++i) body], the body acting on the
    state [s]; [n] is the number of iterations, known on entry. *)
Fixpoint for_loop {S} (n : nat) (i : Z) (body : Z -> S -> option S) (s : S)
    : option S :=
  match n with
  | O => Some s
  | S n' => s' ← body i s; for_loop n' (i + 1) body s'
  end.

(** [for (int i = 0, a = 0; i < n; i += 1, a += step) body]: the loop
    header of the resampling kernels, with its fixed-point accumulator [a]
    (an [int]).  [i] has passed the test [i < n], so [i + 1] is in range. *)
Fixpoint for_accum {S} (n : nat) (i a step : Z)
    (body : Z -> Z -> S -> option S) (s : S) : option S :=
  match n with
  | O => Some s
  | S n' =>
      s' ← body i a s;
      for_accum n' (i + 1) (wrap_i32 (a + step)) step body s'
  end.

(** The number of iterations of [for (int i = 0; i < static_cast<int>(n); ...)]
    for an [uint32_t n]. *)
Definition trip_count (n : Z) : nat := Z.to_nat (wrap_i32 n).

Definition kFixedShift : Z := 16.

(** [int fx = (srcDim << kFixedShift) / dstDim]: a shift and a division of
    [uint32_t], converted to [int]. *)
Definition fxDelta (srcDim dstDim : Z) : Z :=
  wrap_i32 (wrap_u32 (Z.shiftl srcDim kFixedShift) / dstDim).

(** [int r = a * u] for an [int a] and an [uint32_t u]: [a] is converted to
    [uint32_t], the product is taken modulo 2^32 and converted to [int]. *)
Definition mul_int_u32 (a u : Z) : Z := wrap_i32 (wrap_u32 (wrap_u32 a * u)).

(** *** resampleNearestNeighborLuma, resampleNearestNeighborColor

    The two functions have the same text up to the sample type. *)

Definition nnSrcOffset (srcWidth ySrc xSrc : Z) : Z :=
  let ySrcOffset := mul_int_u32 (Z.shiftr ySrc kFixedShift) srcWidth in
  let xSrcOffset := Z.shiftr xSrc kFixedShift in
  wrap_i32 (ySrcOffset + xSrcOffset).

Definition dstOffset (dstWidth yDst xDst : Z) : Z :=
  let yDstOffset := mul_int_u32 yDst dstWidth in
  let xDstOffset := xDst in
  wrap_i32 (yDstOffset + xDstOffset).

Definition resampleNearestNeighbor {A} (src : list A) (srcWidth srcHeight : Z)
    (dst : list A) (dstWidth dstHeight : Z) : option (list A) :=
  if (dstWidth =? 0) || (dstHeight =? 0) then None (* division by zero *)
  else
    let fxDxSrc := fxDelta srcWidth dstWidth in
    let fxDySrc := fxDelta srcHeight dstHeight in
    for_accum (trip_count dstHeight) 0 0 fxDySrc (fun yDst ySrc dst =>
      for_accum (trip_count dstWidth) 0 0 fxDxSrc (fun xDst xSrc dst =>
        v ← load src (nnSrcOffset srcWidth ySrc xSrc);
        store dst (dstOffset dstWidth yDst xDst) v) dst) dst.

Definition resampleNearestNeighborLuma :
    list LumaSample -> Z -> Z -> list LumaSample -> Z -> Z ->
    option (list LumaSample) :=
  resampleNearestNeighbor.

Definition resampleNearestNeighborColor :
    list ColorSample -> Z -> Z -> list ColorSample -> Z -> Z ->
    option (list ColorSample) :=
  resampleNearestNeighbor.

(** The value of a fixed-point accumulator on entry to iteration [k]. *)
Definition accum (step : Z) (k : nat) : Z :=
  Nat.iter k (fun a => wrap_i32 (a + step)) 0.

(** The source index that the nearest-neighbour kernels read for the
    destination pixel [(xDst, yDst)]. *)
Definition nnSrcIndex (srcWidth srcHeight dstWidth dstHeight : Z)
    (xDst yDst : nat) : Z :=
  nnSrcOffset srcWidth
    (accum (fxDelta srcHeight dstHeight) yDst)
    (accum (fxDelta srcWidth dstWidth) xDst).

(** *** resampleLerpFastLuma *)

(** [int tot = (y1Src - y0Src) * (x1Src - x0Src)] for the destination pixel
    reached with accumulators [ySrc] and [xSrc]. *)
Definition lerpTot (dxSrc dySrc ySrc xSrc : Z) : Z :=
  let y0Src := Z.shiftr ySrc kFixedShift in
  let y1Src := Z.shiftr (wrap_i32 (ySrc + dySrc)) kFixedShift in
  let x0Src := Z.shiftr xSrc kFixedShift in
  let x1Src := Z.shiftr (wrap_i32 (xSrc + dxSrc)) kFixedShift in
  wrap_i32 (wrap_i32 (y1Src - y0Src) * wrap_i32 (x1Src - x0Src)).

Definition resampleLerpFastLuma (src : list LumaSample) (srcWidth srcHeight : Z)
    (dst : list LumaSample) (dstWidth dstHeight : Z)
    : option (list LumaSample) :=
  if (dstWidth =? 0) || (dstHeight =? 0) then None (* division by zero *)
  else
    let dxSrc := fxDelta srcWidth dstWidth in
    let dySrc := fxDelta srcHeight dstHeight in
    for_accum (trip_count dstHeight) 0 0 dySrc (fun yDst ySrc dst =>
      let y0Src := Z.shiftr ySrc kFixedShift in
      let y1Src := Z.shiftr (wrap_i32 (ySrc + dySrc)) kFixedShift in
      for_accum (trip_count dstWidth) 0 0 dxSrc (fun xDst xSrc dst =>
        let x0Src := Z.shiftr xSrc kFixedShift in
        let x1Src := Z.shiftr (wrap_i32 (xSrc + dxSrc)) kFixedShift in
        pix ← for_loop (Z.to_nat (y1Src - y0Src)) y0Src (fun y pix =>
                 let ySrcOffset := mul_int_u32 y srcWidth in
                 for_loop (Z.to_nat (x1Src - x0Src)) x0Src (fun x pix =>
                   v ← load src (wrap_i32 (ySrcOffset + x));
                   Some (wrap_i32 (pix + v))) pix) 0;
        let tot := lerpTot dxSrc dySrc ySrc xSrc in
        if tot =? 0 then None (* division by zero *)
        else store dst (dstOffset dstWidth yDst xDst)
                   (wrap_u8 (Z.quot pix tot))) dst) dst.

(** The sum that [resampleLerpFastLuma] accumulates in [pix] over the source
    rectangle of columns [x0Src .. x1Src - 1] and rows [y0Src .. y1Src - 1]:
    its two inner loops, on their own. *)
Definition boxSum (src : list LumaSample) (srcWidth x0Src x1Src y0Src y1Src : Z)
    : option Z :=
  for_loop (Z.to_nat (y1Src - y0Src)) y0Src (fun y pix =>
    let ySrcOffset := mul_int_u32 y srcWidth in
    for_loop (Z.to_nat (x1Src - x0Src)) x0Src (fun x pix =>
      v ← load src (wrap_i32 (ySrcOffset + x));
      Some (wrap_i32 (pix + v))) pix) 0.

(** The rectangle area that [resampleLerpFastLuma] divides by at the
    destination pixel [(xDst, yDst)]. *)
Definition lerpArea (srcWidth srcHeight dstWidth dstHeight : Z)
    (xDst yDst : nat) : Z :=
  lerpTot (fxDelta srcWidth dstWidth) (fxDelta srcHeight dstHeight)
    (accum (fxDelta srcHeight dstHeight) yDst)
    (accum (fxDelta srcWidth dstWidth) xDst).

(** *** rotate180

    All index arithmetic is on [uint32_t]; [topLine] and [botLine] are
    pointers into [buffer], represented by their offsets. *)

Definition rotate180_swap (width topLine botLine x : Z)
    (buffer : list LumaSample) : option (list LumaSample) :=
  let xr := wrap_u32 (wrap_u32 (width - x) - 1) in
  ltmp ← load buffer (topLine + x);
  rtmp ← load buffer (topLine + xr);
  v ← load buffer (botLine + xr);
  buffer ← store buffer (topLine + x) v;
  v ← load buffer (botLine + x);
  buffer ← store buffer (topLine + xr) v;
  buffer ← store buffer (botLine + x) rtmp;
  store buffer (botLine + xr) ltmp.

Definition rotate180 (buffer : list LumaSample) (width height : Z)
    : option (list LumaSample) :=
  let halfHeight := height / 2 in
  let halfWidth := width / 2 in
  for_loop (Z.to_nat halfHeight) 0 (fun y buffer =>
    let topLine := wrap_u32 (width * y) in
    let botLine := wrap_u32 (width * wrap_u32 (wrap_u32 (height - y) - 1)) in
    for_loop (Z.to_nat halfWidth) 0 (rotate180_swap width topLine botLine)
      buffer) buffer.

(** The pixels that [rotate180] has moved after [k] iterations of its outer
    loop: those of the first and last [k] rows that lie in the first or last
    [width / 2] columns; on return, [k] is [height / 2]. *)
Definition rot180_rows (height k y : Z) : Prop := y < k \/ height - k <= y.
Definition rot180_cols (width x : Z) : Prop :=
  x < width / 2 \/ width - width / 2 <= x.
Definition rot180_moved (width height x y : Z) : Prop :=
  rot180_rows height (height / 2) y /\ rot180_cols width x.

(** A state [b] of the buffer described pixel by pixel with respect to the
    original [buf]: the pixels for which [moved] holds have the sample of
    the opposite pixel, [(width - 1 - x, height - 1 - y)], the others have
    their own. *)
Definition rot180_state (buf : list LumaSample) (width height : Z)
    (moved : Z -> Z -> Prop) (b : list LumaSample) : Prop :=
  length b = length buf /\
  forall x y, 0 <= x < width -> 0 <= y < height ->
    (moved x y ->
       load b (width * y + x)
       = load buf (width * (height - 1 - y) + (width - 1 - x))) /\
    (~ moved x y -> load b (width * y + x) = load buf (width * y + x)).

(** The image turned by 180 degrees, for comparison: the pixel [(x, y)] of
    the result is the pixel [(width - 1 - x, height - 1 - y)] of the
    original, that is, the sample list reversed. *)
Definition turned180 (buffer : list LumaSample) : list LumaSample :=
  reverse buffer.

(** *** copy2vuyToLuma, copyLumaToColor, copyColorToLuma

    [uint32_t count = width * height], then one sample per iteration of
    [for (uint32_t i = 0; i < count; ++i)]. *)

Definition copy2vuyToLuma (src dst : list LumaSample) (width height : Z)
    : option (list LumaSample) :=
  let count := wrap_u32 (width * height) in
  for_loop (Z.to_nat count) 0 (fun i dst =>
    v ← load src (wrap_u32 (wrap_u32 (i * 2) + 1));
    store dst i v) dst.

(** [pix | (pix << 8) | (pix << 16)] for [uint32_t pix = uint32_t(src[i])]. *)
Definition lumaToColorPixel (sample : LumaSample) : ColorSample :=
  let pix := wrap_u32 sample in
  Z.lor (Z.lor pix (wrap_u32 (Z.shiftl pix 8))) (wrap_u32 (Z.shiftl pix 16)).

Definition copyLumaToColor (src : list LumaSample) (dst : list ColorSample)
    (width height : Z) : option (list ColorSample) :=
  let count := wrap_u32 (width * height) in
  for_loop (Z.to_nat count) 0 (fun i dst =>
    v ← load src i;
    store dst i (lumaToColorPixel v)) dst.

(** [uint8_t(std::max((pix>>16)&0xff, std::max((pix>>8)&0xff, pix&0xff)))]. *)
Definition colorToLumaPixel (pix : ColorSample) : LumaSample :=
  wrap_u8 (Z.max (Z.land (Z.shiftr pix 16) 255)
             (Z.max (Z.land (Z.shiftr pix 8) 255) (Z.land pix 255))).

Definition copyColorToLuma (src : list ColorSample) (dst : list LumaSample)
    (width height : Z) : option (list LumaSample) :=
  let count := wrap_u32 (width * height) in
  for_loop (Z.to_nat count) 0 (fun i dst =>
    pix ← load src i;
    store dst i (colorToLumaPixel pix)) dst.

(** The samples of an array of [uint8_t]. *)
Definition is_luma (buf : list LumaSample) : Prop :=
  Forall (fun v => 0 <= v <= 255) buf.

(** Where the sample came from that one iteration of the inner loop of
    [rotate180], at column [x], leaves at offset [i] of the buffer: the
    four assignments of the iteration read backwards. *)
Definition swap_origin (width topLine botLine x i : Z) : Z :=
  let xr := width - 1 - x in
  if Z.eqb i (botLine + xr) then topLine + x
  else if Z.eqb i (botLine + x) then topLine + xr
  else if Z.eqb i (topLine + xr) then botLine + x
  else if Z.eqb i (topLine + x) then botLine + xr
  else i.

End FastImage.

(* ===================================================================== *)
(** ** VideoParameters.cpp *)
(* ===================================================================== *)

Module VideoParameters.
Section Driver.

(** The camera driver is outside the program: [mmal_status log port value]
    stands for the status that [mmal_port_parameter_set_int32] returns for
    output port [port] and [value] after the calls recorded in [log]. *)
Variable mmal_status : list (Z * Z) -> Z -> Z -> Z.

Definition mmal_port_parameter_set_int32 (port value : Z) (log : list (Z * Z))
    : Z * list (Z * Z) :=
  (mmal_status log port value, log ++ [(port, value)]).

(** [int my_rotation = ((rotation % 360) / 90) * 90]: the remainder and the
    quotient of [int], both truncating towards zero.  [camera] is a camera
    component with its three output ports (the function does not test it);
    a port is named by its index in [camera->output]. *)
Definition setRotation (rotation : Z) (log : list (Z * Z)) : Z * list (Z * Z) :=
  let my_rotation := wrap_i32 (Z.quot (Z.rem rotation 360) 90 * 90) in
  let '(ret, log) := mmal_port_parameter_set_int32 0 my_rotation log in
  let '(_, log) := mmal_port_parameter_set_int32 1 my_rotation log in
  let '(_, log) := mmal_port_parameter_set_int32 2 my_rotation log in
  (ret, log).

End Driver.
End VideoParameters.

(* ===================================================================== *)
(** ** Facts about machine integers *)
(* ===================================================================== *)

Lemma wrap_u32_small z : 0 <= z <= UINT32_MAX -> wrap_u32 z = z.
Proof. unfold wrap_u32, UINT32_MAX. intros H. apply Z.mod_small. lia. Qed.

Lemma wrap_i32_small z : INT_MIN <= z <= INT_MAX -> wrap_i32 z = z.
Proof.
  unfold wrap_i32, INT_MIN, INT_MAX. intros H.
  rewrite Z.mod_small by lia. lia.
Qed.

Lemma wrap_i32_range z : INT_MIN <= wrap_i32 z <= INT_MAX.
Proof.
  unfold wrap_i32, INT_MIN, INT_MAX.
  pose proof (Z.mod_pos_bound (z + 2 ^ 31) (2 ^ 32) ltac:(lia)). lia.
Qed.

(** For a non-negative value, the conversion to [int] never increases it. *)
Lemma wrap_i32_le z : 0 <= z -> wrap_i32 z <= z.
Proof.
  unfold wrap_i32. intros H.
  pose proof (Z.mod_le (z + 2 ^ 31) (2 ^ 32) ltac:(lia) ltac:(lia)). lia.
Qed.

(* ===================================================================== *)
(** ** Properties of the circular image buffer *)
(* ===================================================================== *)

Section BufferFacts.
Import CIB.
Context {SampleType : Type}.
Implicit Type b : CircularImageBuffer SampleType.

Lemma capacity_le_slots b : 0 < capacity b -> capacity b <= Z.of_nat (length (mCircularBuffer b)).
Proof. intros _. apply wrap_i32_le. lia. Qed.

Lemma capacity_int b : capacity b <= INT_MAX.
Proof. apply wrap_i32_range. Qed.

Lemma wf_reset b : 0 <= capacity b -> wf (reset b).
Proof.
  intros Hc. destruct b. unfold wf, reset, capacity in *. cbn in *.
  repeat split; try lia.
Qed.

Lemma wf_resetStats b : wf b -> wf (resetStats b).
Proof. destruct b. unfold wf, resetStats, capacity. cbn. tauto. Qed.

Lemma wf_lock b : wf b -> wf (lock b).
Proof. destruct b. unfold wf, lock, capacity. cbn. tauto. Qed.

Lemma wf_unlock b : wf b -> wf (unlock b).
Proof. destruct b. unfold wf, unlock, capacity. cbn. tauto. Qed.

Lemma rem_succ_range i c : 0 <= i < c -> c <= INT_MAX ->
  Z.rem (wrap_i32 (i + 1)) c = (i + 1) mod c /\ 0 <= (i + 1) mod c < c.
Proof.
  intros Hi Hc. unfold INT_MAX in Hc.
  rewrite wrap_i32_small by (unfold INT_MIN, INT_MAX; lia).
  rewrite Z.rem_mod_nonneg by lia. split; [done|].
  apply Z.mod_pos_bound. lia.
Qed.

Lemma ring_step na ng cnt cap : 0 < cap ->
  na = (ng + cnt) mod cap -> (na + 1) mod cap = (ng + (cnt + 1)) mod cap.
Proof.
  intros Hc ->. rewrite Z.add_mod_idemp_l by lia. f_equal. lia.
Qed.

Lemma ring_full_step na ng cnt cap : 0 < cap -> cnt = cap ->
  na = (ng + cnt) mod cap ->
  (na + 1) mod cap = ((ng + 1) mod cap + cnt) mod cap.
Proof.
  intros Hc -> ->. rewrite !Z.add_mod_idemp_l by lia.
  replace (ng + cap + 1) with (ng + 1 + cap) by lia. done.
Qed.

Lemma wf_add image b : wf b -> wf (add image b).
Proof.
  intros (Hc & Hn & He & Hne).
  pose proof (capacity_int b) as Hmax.
  destruct b as [w h sa sr ss slots cnt na ng m].
  unfold add, memcpy_slot, isFull, isEmpty, lock, unlock, wf, capacity in *.
  cbn in *.
  set (cap := wrap_i32 (Z.of_nat (length slots))) in *.
  destruct (Z.eqb_spec cap 0) as [E0|N0]; cbn.
  { fold cap. repeat split; try lia; intros; try (apply He; lia); apply Hne; lia. }
  assert (Hlen : forall v, wrap_i32 (Z.of_nat (length (<[Z.to_nat na := v]> slots))) = cap).
  { intros v. by rewrite length_insert. }
  destruct ((0 <=? na) && (na <? Z.of_nat (length slots))); cbn;
    rewrite ?Hlen; fold cap.
  all: destruct (Z.eqb_spec cnt cap) as [Ef|Nf]; cbn; rewrite ?Hlen; fold cap.
  all: try (destruct (Z.eqb_spec cnt 0) as [Ee|Nee]; cbn; rewrite ?Hlen; fold cap).
  all: try (destruct (He Ee) as [-> ->]).
  all: try (destruct (Hne ltac:(lia)) as (Hg & Ha & Hr)).
  all: try (destruct (rem_succ_range na cap ltac:(lia) Hmax) as [-> ?]).
  all: try (destruct (rem_succ_range ng cap ltac:(lia) Hmax) as [-> ?]).
  all: try (destruct (rem_succ_range 0 cap ltac:(lia) Hmax) as [-> ?]).
  all: rewrite ?wrap_i32_small by (unfold INT_MIN, INT_MAX in *; lia).
  all: repeat split; try lia.
  - eapply ring_full_step; eauto; lia.
  - subst cnt. done.
  - eapply ring_step; eauto; lia.
  - eapply ring_full_step; eauto; lia.
  - subst cnt. done.
  - eapply ring_step; eauto; lia.
Qed.

Lemma ring_get_step na ng cnt cap : 0 < cap ->
  na = (ng + cnt) mod cap -> na = ((ng + 1) mod cap + (cnt - 1)) mod cap.
Proof.
  intros Hc ->. rewrite Z.add_mod_idemp_l by lia. f_equal. lia.
Qed.

Lemma wf_get b : wf b -> wf (snd (get b)).
Proof.
  intros (Hc & Hn & He & Hne).
  pose proof (capacity_int b) as Hmax.
  destruct b as [w h sa sr ss slots cnt na ng m].
  unfold get, isEmpty, reset, lock, unlock, wf, capacity in *. cbn in *.
  set (cap := wrap_i32 (Z.of_nat (length slots))) in *.
  destruct (Z.eqb_spec cnt 0) as [Ee|Nee]; cbn; fold cap.
  { repeat split; try lia; intros; try (apply He; lia); apply Hne; lia. }
  destruct (Hne ltac:(lia)) as (Hg & Ha & Hr).
  rewrite (wrap_i32_small (cnt - 1)) by (unfold INT_MIN, INT_MAX in *; lia).
  destruct (Z.eqb_spec (cnt - 1) 0) as [E1|N1]; cbn; fold cap.
  { repeat split; lia. }
  destruct (rem_succ_range ng cap ltac:(lia) Hmax) as [-> ?].
  repeat split; try lia.
  eapply ring_get_step; eauto; lia.
Qed.

Lemma wf_step b o : wf b -> wf (step b o).
Proof.
  intros H. destruct o; cbn; auto using wf_add, wf_get, wf_resetStats, wf_lock, wf_unlock.
  apply wf_reset, H.
Qed.

Lemma wf_run ops b : wf b -> wf (run ops b).
Proof.
  revert b. induction ops as [|o ops IH]; intros b H; cbn; [done|].
  apply IH, wf_step, H.
Qed.

Lemma wf_construct w h n g m :
  0 <= capacity (construct (SampleType:=SampleType) w h n g m) ->
  wf (construct w h n g m).
Proof. intros Hc. apply wf_resetStats, wf_reset, Hc. Qed.

(** In a buffer that satisfies the invariant and has a capacity, none of the
    assertions at the head of [add] fires. *)
Lemma add_asserts_hold b : wf b -> 0 < capacity b -> add_asserts b = true.
Proof.
  intros (Hc & Hn & He & Hne) Hpos.
  unfold add_asserts, isEmpty, isFull, count.
  destruct (Z.eqb_spec (mCount b) 0) as [E|N].
  - destruct (He E) as [-> ->]. rewrite E. cbn.
    destruct (capacity b); [lia | done | lia].
  - destruct (Hne ltac:(lia)) as (Hg & Ha & Hr).
    assert (Hiff : (mCount b =? capacity b) = (mNextAddIndex b =? mNextGetIndex b)).
    { destruct (Z.eqb_spec (mCount b) (capacity b)) as [E1|N1];
      destruct (Z.eqb_spec (mNextAddIndex b) (mNextGetIndex b)) as [E2|N2]; try done.
      - exfalso. apply N2. rewrite Hr, E1.
        replace (mNextGetIndex b + capacity b) with (mNextGetIndex b + 1 * capacity b) by lia.
        rewrite Z.mod_add by lia. apply Z.mod_small. lia.
      - exfalso. rewrite E2 in Hr.
        assert (Hlt : mNextGetIndex b + mCount b < mNextGetIndex b + capacity b) by lia.
        destruct (Z.lt_ge_cases (mNextGetIndex b + mCount b) (capacity b)) as [Hs|Hb].
        + rewrite Z.mod_small in Hr by lia. lia.
        + replace (mNextGetIndex b + mCount b)
            with ((mNextGetIndex b + mCount b - capacity b) + 1 * capacity b) in Hr by lia.
          rewrite Z.mod_add in Hr by lia. rewrite Z.mod_small in Hr by lia. lia. }
    rewrite Hiff.
    destruct (mNextAddIndex b =? mNextGetIndex b); cbn.
    all: repeat (apply andb_true_intro; split); lia.
Qed.

(** *** What one call of add and of get does in a well-formed buffer *)

Lemma frameSamples_add image b : frameSamples (add image b) = frameSamples b.
Proof.
  unfold frameSamples, width, height, add, memcpy_slot.
  destruct (capacity (lock b) =? 0); [done|].
  repeat (match goal with |- context [if ?c then _ else _] => destruct c end; cbn);
    done.
Qed.

Lemma add_not_full image b :
  wf b -> mCount b < capacity b ->
  let b' := add image b in
  mCircularBuffer b' =
    <[Z.to_nat (mNextAddIndex b) := take (frameSamples b) image]> (mCircularBuffer b) /\
  mCount b' = mCount b + 1 /\
  mNextAddIndex b' = (mNextAddIndex b + 1) mod capacity b /\
  mNextGetIndex b' = (if mCount b =? 0 then mNextAddIndex b else mNextGetIndex b) /\
  mStatFramesSkipped b' = mStatFramesSkipped b.
Proof.
  intros (Hc & Hn & He & Hne) Hlt.
  pose proof (capacity_int b) as Hmax.
  pose proof (capacity_le_slots b ltac:(lia)) as Hslots.
  assert (Hna : 0 <= mNextAddIndex b < capacity b).
  { destruct (Z.eq_dec (mCount b) 0) as [E|N].
    - destruct (He E) as [-> _]. lia.
    - apply Hne. lia. }
  destruct b as [w h sa sr ss slots cnt na ng m].
  unfold add, memcpy_slot, isFull, isEmpty, lock, unlock, frameSamples, capacity in *.
  cbn in *.
  set (cap := wrap_i32 (Z.of_nat (length slots))) in *.
  destruct (Z.eqb_spec cap 0) as [E0|N0]; [lia|].
  destruct (Z.leb_spec 0 na); [|lia].
  destruct (Z.ltb_spec na (Z.of_nat (length slots))); [|lia].
  cbn. rewrite length_insert. fold cap.
  destruct (Z.eqb_spec cnt cap) as [Ef|Nf]; [lia|].
  destruct (rem_succ_range na cap ltac:(lia) Hmax) as [Hrem _].
  destruct (Z.eqb_spec cnt 0) as [Ee|Nee]; cbn; rewrite length_insert; fold cap.
  all: rewrite Hrem.
  all: rewrite wrap_i32_small by (unfold INT_MIN, INT_MAX in *; lia).
  all: done.
Qed.

Lemma add_full image b :
  wf b -> 0 < capacity b -> mCount b = capacity b ->
  let b' := add image b in
  mCircularBuffer b' =
    <[Z.to_nat (mNextAddIndex b) := take (frameSamples b) image]> (mCircularBuffer b) /\
  mCount b' = mCount b /\
  mNextAddIndex b' = (mNextAddIndex b + 1) mod capacity b /\
  mNextGetIndex b' = (mNextGetIndex b + 1) mod capacity b /\
  mStatFramesSkipped b' = wrap_u32 (mStatFramesSkipped b + 1).
Proof.
  intros (Hc & Hn & He & Hne) Hpos Hfull.
  pose proof (capacity_int b) as Hmax.
  pose proof (capacity_le_slots b ltac:(lia)) as Hslots.
  destruct (Hne ltac:(lia)) as (Hg & Ha & _).
  destruct b as [w h sa sr ss slots cnt na ng m].
  unfold add, memcpy_slot, isFull, isEmpty, lock, unlock, frameSamples, capacity in *.
  cbn in *.
  set (cap := wrap_i32 (Z.of_nat (length slots))) in *.
  destruct (Z.eqb_spec cap 0) as [E0|N0]; [lia|].
  destruct (Z.leb_spec 0 na); [|lia].
  destruct (Z.ltb_spec na (Z.of_nat (length slots))); [|lia].
  cbn. rewrite length_insert. fold cap.
  destruct (Z.eqb_spec cnt cap) as [Ef|Nf]; [|lia].
  cbn. rewrite ?length_insert. fold cap.
  destruct (rem_succ_range na cap ltac:(lia) Hmax) as [-> _].
  destruct (rem_succ_range ng cap ltac:(lia) Hmax) as [-> _].
  done.
Qed.

Lemma get_slots b : mCircularBuffer (snd (get b)) = mCircularBuffer b.
Proof.
  unfold get. destruct (isEmpty b); [done|]. cbn.
  by destruct (isEmpty _).
Qed.

Lemma get_empty b : mCount b = 0 -> get b = (None, b).
Proof. intros E. unfold get, isEmpty. by rewrite E. Qed.

Lemma get_nonempty b :
  wf b -> 0 < mCount b ->
  let '(p, b') := get b in
  p = Some (mNextGetIndex b) /\
  mCircularBuffer b' = mCircularBuffer b /\
  mCount b' = mCount b - 1 /\
  (1 < mCount b -> mNextGetIndex b' = (mNextGetIndex b + 1) mod capacity b).
Proof.
  intros (Hc & Hn & He & Hne) Hpos.
  pose proof (capacity_int b) as Hmax.
  destruct (Hne Hpos) as (Hg & Ha & _).
  destruct b as [w h sa sr ss slots cnt na ng m].
  unfold get, isEmpty, reset, lock, unlock, capacity in *. cbn in *.
  set (cap := wrap_i32 (Z.of_nat (length slots))) in *.
  destruct (Z.eqb_spec cnt 0) as [Ee|Nee]; [lia|].
  rewrite (wrap_i32_small (cnt - 1)) by (unfold INT_MIN, INT_MAX in *; lia).
  destruct (rem_succ_range ng cap ltac:(lia) Hmax) as [Hrem _].
  destruct (Z.eqb_spec (cnt - 1) 0) as [E1|N1]; cbn; fold cap.
  - repeat split; lia.
  - rewrite Hrem. done.
Qed.

(** *** Successive gets walk the ring *)

Lemma ring_read_S (slots : list (list SampleType)) cap g k : 0 < cap -> 0 <= g < cap ->
  ring_read slots cap g (S k) =
  slots !! Z.to_nat g :: ring_read slots cap ((g + 1) mod cap) k.
Proof.
  intros Hc Hg. unfold ring_read. cbn [seq fmap list_fmap]. f_equal.
  - rewrite Z.add_0_r, Z.mod_small by lia. done.
  - rewrite <- fmap_S_seq, <- list_fmap_compose. apply list_fmap_ext.
    intros _ j _. cbn. rewrite Z.add_mod_idemp_l by lia. do 3 f_equal. lia.
Qed.

Lemma capacity_get b : capacity (snd (get b)) = capacity b.
Proof. unfold capacity. by rewrite get_slots. Qed.

Lemma gets_spec n : forall b, wf b ->
  fst (gets n b) =
  take n (ring_read (mCircularBuffer b) (capacity b) (mNextGetIndex b)
            (Z.to_nat (mCount b)))
  ++ replicate (n - Z.to_nat (mCount b)) None.
Proof.
  induction n as [|n IH]; intros b Hwf; [done|].
  cbn [gets].
  destruct (Z.eq_dec (mCount b) 0) as [E|N].
  - rewrite (get_empty b E). specialize (IH b Hwf).
    destruct (gets n b) as [rest b2]. cbn [fst] in *. rewrite IH, E.
    change (Z.to_nat 0) with 0%nat. unfold ring_read. cbn [seq fmap list_fmap].
    rewrite !take_nil, !Nat.sub_0_r. done.
  - pose proof Hwf as (Hc & Hn & He & Hne).
    destruct (Hne ltac:(lia)) as (Hg & Ha & _).
    pose proof (get_nonempty b Hwf ltac:(lia)) as Hget.
    pose proof (wf_get b Hwf) as Hwf1.
    pose proof (capacity_get b) as Hcap.
    destruct (get b) as [p b1]. cbn [snd] in *.
    destruct Hget as (-> & Hs & Hcnt & Hng).
    specialize (IH b1 Hwf1).
    destruct (gets n b1) as [rest b2]. cbn [fst] in *.
    rewrite IH, Hs, Hcap, Hcnt.
    replace (Z.to_nat (mCount b)) with (S (Z.to_nat (mCount b - 1))) by lia.
    rewrite ring_read_S by lia. cbn [take Nat.sub app].
    unfold deref. destruct (Z.leb_spec 0 (mNextGetIndex b)); [|lia].
    rewrite Hs. f_equal. f_equal.
    destruct (Z.to_nat (mCount b - 1)) as [|k] eqn:Ek; [done|].
    rewrite Hng by lia. done.
Qed.

(** *** Filling a buffer, and the add that evicts *)

Lemma run_adds_filling (fs : list (list SampleType)) :
  forall (pre rest : list (list SampleType)) b,
  wf b ->
  Z.of_nat (length pre + length fs) <= capacity b ->
  mCircularBuffer b = pre ++ rest ->
  mCount b = Z.of_nat (length pre) ->
  (0 < mCount b -> mNextGetIndex b = 0) ->
  mStatFramesSkipped b = 0 ->
  (length fs <= length rest)%nat ->
  Forall (fun F => length F = frameSamples b) fs ->
  let b' := run (OpAdd <$> fs) b in
  wf b' /\
  capacity b' = capacity b /\
  mCircularBuffer b' = pre ++ fs ++ drop (length fs) rest /\
  mCount b' = Z.of_nat (length pre + length fs) /\
  (0 < mCount b' -> mNextGetIndex b' = 0) /\
  mStatFramesSkipped b' = 0 /\
  frameSamples b' = frameSamples b.
Proof.
  induction fs as [|F fs IH]; intros pre rest b Hwf Hcap Hs Hcnt Hg Hsk Hlen Hfs.
  { cbn. rewrite Nat.add_0_r. done. }
  destruct rest as [|r rest]; [cbn in Hlen; lia|].
  apply Forall_cons in Hfs as [HF Hfs].
  assert (Hlt : mCount b < capacity b).
  { rewrite Hcnt. cbn [length] in Hcap. lia. }
  pose proof Hwf as (Hc & Hn & He & Hne).
  assert (Hna : mNextAddIndex b = Z.of_nat (length pre)).
  { destruct (Z.eq_dec (mCount b) 0) as [E|N].
    - destruct (He E) as [-> _]. lia.
    - destruct (Hne ltac:(lia)) as (_ & _ & ->).
      rewrite Hg by lia. rewrite Z.add_0_l, Z.mod_small by lia. done. }
  destruct (add_not_full F b Hwf Hlt) as (Hs1 & Hcnt1 & _ & Hg1 & Hsk1).
  assert (Hs1' : mCircularBuffer (add F b) = (pre ++ [F]) ++ rest).
  { rewrite Hs1, Hs, Hna, Nat2Z.id, <- HF, take_ge by lia.
    replace (length pre) with (length pre + 0)%nat at 1 by lia.
    rewrite insert_app_r. cbn. by rewrite <- app_assoc. }
  assert (Hcap1 : capacity (add F b) = capacity b).
  { unfold capacity. rewrite Hs1', Hs, !length_app. cbn.
    do 2 f_equal. lia. }
  cbn [fmap list_fmap run foldl step].
  destruct (IH (pre ++ [F]) rest (add F b)) as (W & C & S' & N' & G' & K' & Fs').
  - by apply wf_add.
  - rewrite Hcap1, length_app. cbn [length] in *. lia.
  - done.
  - rewrite Hcnt1, Hcnt, length_app. cbn. lia.
  - intros _. rewrite Hg1.
    destruct (Z.eqb_spec (mCount b) 0) as [E|N]; [lia|]. apply Hg. lia.
  - congruence.
  - cbn in Hlen. lia.
  - by rewrite frameSamples_add.
  - unfold run in *.
    refine (conj W (conj _ (conj _ (conj _ (conj G' (conj K' _)))))).
    + congruence.
    + rewrite S', <- app_assoc. done.
    + rewrite N', length_app. cbn. f_equal. lia.
    + by rewrite Fs', frameSamples_add.
Qed.

Lemma ring_read_rotate (x : list SampleType) (mid : list (list SampleType)) :
  let c := Z.of_nat (S (length mid)) in
  ring_read (x :: mid) c (1 mod c) (S (length mid)) = Some <$> (mid ++ [x]).
Proof.
  intros c. apply list_eq. intros i. unfold ring_read.
  rewrite !list_lookup_fmap.
  destruct (decide (i < S (length mid))%nat) as [Hi|Hi].
  2: { rewrite lookup_seq_ge by lia. rewrite lookup_ge_None_2; [done|].
       rewrite length_app. cbn. lia. }
  rewrite lookup_seq_lt by lia. cbn [fmap option_fmap option_map Nat.add].
  rewrite Z.add_mod_idemp_l by lia.
  destruct (decide (i < length mid)%nat) as [Hm|Hm].
  - rewrite Z.mod_small by lia.
    replace (Z.to_nat (1 + Z.of_nat i)) with (S i) by lia.
    change ((x :: mid) !! S i) with (mid !! i).
    rewrite lookup_app_l by done.
    destruct (lookup_lt_is_Some_2 mid i Hm) as [y ->]. done.
  - assert (i = length mid) as -> by lia.
    replace (1 + Z.of_nat (length mid)) with c by lia.
    rewrite Z.mod_same by lia. cbn.
    rewrite list_lookup_middle by done. done.
Qed.

Lemma ring_read_app (l extra : list (list SampleType)) g k :
  l <> [] ->
  ring_read (l ++ extra) (Z.of_nat (length l)) g k
  = ring_read l (Z.of_nat (length l)) g k.
Proof.
  intros Hl. unfold ring_read. apply list_fmap_ext. intros _ j _.
  assert (0 < Z.of_nat (length l)) by (destruct l; [done|cbn; lia]).
  pose proof (Z.mod_pos_bound (g + Z.of_nat j) (Z.of_nat (length l)) ltac:(lia)).
  apply lookup_app_l. lia.
Qed.

(** C3.  On a fresh buffer whose [capacity()] is [c > 0], [c + 1] adds of
    frames [F1 .. F(c+1)] (each of [width * height] samples) leave
    [count = c] and [framesSkipped = 1]; the next [c + 1] gets return
    [F2, ..., F(c+1)] in that order and then [nullptr]; more generally any
    number [k] of gets returns a prefix of that sequence followed by
    [nullptr]s, so that [F1], when the frames are distinct, is never
    returned. *)
Theorem add_beyond_capacity w h (n : nat) g m (frames : list (list SampleType)) :
  let b0 := construct w h n g m in
  let c := capacity b0 in
  0 < c ->
  Z.of_nat (length frames) = c + 1 ->
  Forall (fun F => length F = Z.to_nat (wrap_u32 (w * h))) frames ->
  let b := run (OpAdd <$> frames) b0 in
  count b = c /\
  statFramesSkipped b = 1 /\
  fst (gets (length frames) b) = (Some <$> drop 1 frames) ++ [None] /\
  (forall k, fst (gets k b) =
             take k (Some <$> drop 1 frames) ++ replicate (k - Z.to_nat c) None) /\
  (NoDup frames -> forall k, head frames ∉ fst (gets k b)).
Proof.
  intros b0 c Hc Hlen Hfr b.
  destruct frames as [|Flast fs _] using rev_ind; [cbn in Hlen; lia|].
  rewrite length_app in Hlen. cbn in Hlen.
  assert (Hfs : Z.of_nat (length fs) = c) by lia. clear Hlen.
  apply Forall_app in Hfr as [Hfr HFl]. apply Forall_inv in HFl.
  pose proof (capacity_le_slots b0 Hc) as Hslots0. fold c in Hslots0.
  assert (W0 : wf b0) by (apply wf_construct; fold b0 c; lia).
  destruct (run_adds_filling fs [] (mCircularBuffer b0) b0)
    as (W1 & C1 & S1 & N1 & G1 & K1 & F1); try done.
  { fold c. cbn [length]. lia. }
  { lia. }
  set (b1 := run (OpAdd <$> fs) b0) in *.
  assert (Hb : b = add Flast b1).
  { unfold b, b1, run. by rewrite fmap_app, foldl_app. }
  fold c in C1. cbn [app] in S1.
  cbn [length Nat.add] in N1. rewrite Hfs in N1.
  pose proof W1 as (_ & _ & _ & Hne1).
  destruct (Hne1 ltac:(lia)) as (_ & _ & Hna1).
  rewrite G1, N1, C1, Z.add_0_l, Z.mod_same in Hna1 by lia.
  destruct (add_full Flast b1 W1 ltac:(lia) ltac:(lia))
    as (S2 & N2 & _ & G2 & K2).
  rewrite <- Hb in S2, N2, G2, K2.
  assert (W2 : wf b) by (rewrite Hb; by apply wf_add).
  assert (C2 : capacity b = c).
  { rewrite <- C1. unfold capacity. by rewrite S2, length_insert. }
  rewrite Hna1, S1, F1 in S2. change (Z.to_nat 0) with 0%nat in S2.
  replace (frameSamples b0) with (Z.to_nat (wrap_u32 (w * h))) in S2 by done.
  rewrite <- HFl, take_ge in S2 by lia.
  destruct fs as [|Ffirst mid]; [cbn in Hfs; lia|]. cbn [length] in Hfs.
  cbn [insert list_insert app] in S2.
  rewrite G1, C1 in G2 by lia. rewrite N1 in N2.
  rewrite K1 in K2. change (wrap_u32 (0 + 1)) with 1 in K2.
  assert (Hgets : forall k, fst (gets k b) =
            take k (Some <$> drop 1 ((Ffirst :: mid) ++ [Flast]))
            ++ replicate (k - Z.to_nat c) None).
  { intros k. rewrite (gets_spec k b W2), S2, C2, G2, N2.
    cbn [app drop]. rewrite drop_0.
    rewrite <- Hfs, Nat2Z.id. change (0 + 1) with 1.
    pose proof (ring_read_app (Flast :: mid)
                  (drop (length (Ffirst :: mid)) (mCircularBuffer b0))
                  (1 mod Z.of_nat (S (length mid))) (S (length mid))
                  ltac:(done)) as E.
    cbn [length app] in E. cbn [length]. rewrite E.
    rewrite (ring_read_rotate Flast mid). done. }
  unfold count, statFramesSkipped.
  split; [done|]. split; [done|]. split; [|split; [exact Hgets|]].
  - rewrite Hgets. rewrite take_ge.
    + rewrite length_app. cbn [length].
      by replace (S (length mid) + 1 - Z.to_nat c)%nat with 1%nat by lia.
    + rewrite length_fmap, length_drop, !length_app. cbn. lia.
  - intros Hnd k Hin. rewrite Hgets in Hin. cbn in Hin, Hnd.
    rewrite drop_0 in Hin.
    apply NoDup_cons in Hnd as [Hnotin _].
    apply elem_of_app in Hin as [Hin|Hin].
    + apply elem_of_take in Hin as (i & Hi & _).
      rewrite list_lookup_fmap in Hi.
      destruct ((mid ++ [Flast]) !! i) as [y|] eqn:Ey; [|done].
      cbn in Hi. injection Hi as ->.
      apply Hnotin. by eapply list_elem_of_lookup_2.
    + by apply elem_of_replicate in Hin as [? _].
Qed.

(** *** The empty state and the cursors *)

(** C1 (as amended).  In every state that a constructed buffer reaches by its
    public operations, the buffer is empty exactly when [mNextGetIndex] is
    the sentinel -1, and an empty buffer has [mNextAddIndex = 0].  (The
    converse of the second part is not an invariant: the write cursor is
    also 0 each time it wraps around.) *)
Theorem empty_iff_sentinel w h n g m (ops : list (Op SampleType)) :
  0 <= capacity (construct w h n g m) ->
  let b := run ops (construct w h n g m) in
  (count b = 0 <-> mNextGetIndex b = -1) /\
  (count b = 0 -> mNextAddIndex b = 0).
Proof.
  intros Hc b.
  destruct (wf_run ops _ (wf_construct w h n g m Hc)) as (H0 & Hn & He & Hne).
  fold b in H0, Hn, He, Hne. unfold count. split; [split|].
  - intros E. by apply He.
  - intros E. destruct (Z.eq_dec (mCount b) 0) as [|N]; [done|].
    destruct (Hne ltac:(lia)) as (Hg & _). lia.
  - intros E. by apply He.
Qed.

(** *** add on a buffer without capacity *)

(** C4.  With [capacity() == 0] (and the assertions compiled out), [add]
    changes neither the occupancy, the cursors, the slots nor the
    statistics, but it returns through the guard of line 140 with the mutex
    that it locked on entry still locked. *)
Theorem add_zero_capacity_keeps_lock image b :
  capacity b = 0 ->
  let b' := add image b in
  count b' = count b /\ mNextAddIndex b' = mNextAddIndex b /\
  mNextGetIndex b' = mNextGetIndex b /\
  mCircularBuffer b' = mCircularBuffer b /\
  statFramesAdded b' = statFramesAdded b /\
  statFramesRead b' = statFramesRead b /\
  statFramesSkipped b' = statFramesSkipped b /\
  mMutex b' = S (mMutex b).
Proof.
  intros Hc. unfold add.
  replace (capacity (lock b)) with (capacity b) by done.
  rewrite Hc. cbn. done.
Qed.

(** Every other path through [add] reaches [mMutex.unlock()]. *)
Lemma add_releases_lock image b :
  capacity b <> 0 -> mMutex (add image b) = mMutex b.
Proof.
  intros Hc. unfold add.
  replace (capacity (lock b)) with (capacity b) by done.
  destruct (Z.eqb_spec (capacity b) 0) as [|_]; [done|].
  cbv zeta. unfold memcpy_slot.
  destruct (_ && _); destruct (isFull _); cbn; try destruct (isEmpty _); done.
Qed.

(** X8.  Between construction and any sequence of public operations, a buffer
    with a capacity passes the assertions of [add]: the build with
    assertions behaves like the one without. *)
Lemma add_asserts_reachable w h n g m (ops : list (Op SampleType)) :
  0 < capacity (construct w h n g m) ->
  add_asserts (run ops (construct w h n g m)) = true.
Proof.
  intros Hc.
  assert (W : wf (run ops (construct w h n g m))).
  { apply wf_run, wf_construct. lia. }
  apply add_asserts_hold; [done|].
  assert (Hcap : forall ops' b, capacity (run ops' b) = capacity b).
  { clear. induction ops' as [|o ops' IH]; intros b; [done|].
    cbn. unfold run in IH. rewrite IH.
    destruct o; cbn; try done.
    - unfold capacity, add, memcpy_slot.
      destruct (_ =? 0); [done|]. cbv zeta.
      destruct (_ && _); destruct (isFull _); cbn;
        try destruct (isEmpty _); cbn; by rewrite ?length_insert.
    - apply capacity_get. }
  by rewrite Hcap.
Qed.

(** *** peek and get *)

(** C8.  [peek] is a const method: a second [peek] finds the state of the
    first and returns the same slot (or [nullptr] again).  On a buffer that
    holds images, [get] returns the slot that [peek] returned, with the same
    contents, and leaves [count] smaller by exactly one. *)
Theorem peek_peek_get b :
  (peek (step b OpPeek) = peek b /\ step b OpPeek = b) /\
  (isEmpty b = false -> INT_MIN < count b <= INT_MAX ->
   is_Some (peek b) /\
   fst (get b) = peek b /\
   deref (snd (get b)) (fst (get b)) = deref b (peek b) /\
   count (snd (get b)) = count b - 1).
Proof.
  split; [done|]. intros Hne Hr.
  repeat split.
  - unfold peek. rewrite Hne. by eexists.
  - unfold get, peek. by rewrite Hne.
  - unfold deref. rewrite get_slots. unfold get, peek. by rewrite Hne.
  - unfold get. rewrite Hne. cbn.
    unfold count in *.
    assert (Hw : wrap_i32 (mCount b - 1) = mCount b - 1).
    { apply wrap_i32_small. unfold INT_MIN, INT_MAX in *. lia. }
    unfold isEmpty. cbn. rewrite Hw.
    destruct (Z.eqb_spec (mCount b - 1) 0) as [E|N]; cbn; lia.
Qed.

(** *** reset and resetStats *)

(** C9.  [reset] puts the buffer in the empty state whatever it held and
    keeps the three statistics; [resetStats] zeroes the three statistics and
    keeps the occupancy, the cursors and the slots. *)
Theorem reset_and_resetStats_frame b :
  (count (reset b) = 0 /\ mNextAddIndex (reset b) = 0 /\
   mNextGetIndex (reset b) = -1 /\
   statFramesAdded (reset b) = statFramesAdded b /\
   statFramesRead (reset b) = statFramesRead b /\
   statFramesSkipped (reset b) = statFramesSkipped b) /\
  (statFramesAdded (resetStats b) = 0 /\
   statFramesRead (resetStats b) = 0 /\
   statFramesSkipped (resetStats b) = 0 /\
   count (resetStats b) = count b /\
   mNextAddIndex (resetStats b) = mNextAddIndex b /\
   mNextGetIndex (resetStats b) = mNextGetIndex b /\
   mCircularBuffer (resetStats b) = mCircularBuffer b).
Proof. by destruct b. Qed.

End BufferFacts.

(** C1 as stated fails: two [add]s on a buffer of capacity 2 bring the write
    cursor back to 0 while the buffer is full. *)
Lemma nextAdd_zero_when_full :
  let b := CIB.run [CIB.OpAdd [1]; CIB.OpAdd [2]]
             (CIB.construct 1 1 2 (fun _ => [0]) 0) in
  CIB.mNextAddIndex b = 0 /\ CIB.count b = 2 /\ CIB.mNextGetIndex b = 0 /\
  ~ ((CIB.count b = 0 <-> CIB.mNextGetIndex b = -1) /\
     (CIB.mNextGetIndex b = -1 <-> CIB.mNextAddIndex b = 0)).
Proof.
  vm_compute. repeat split; try done. intros [_ [_ H]]. by specialize (H eq_refl).
Qed.

Lemma empty_iff_sentinel_witness :
  0 <= CIB.capacity (CIB.construct 1 1 2 (fun _ => [0]) 0) /\
  let b := CIB.run [CIB.OpAdd [1]; CIB.OpGet; CIB.OpPeek]
             (CIB.construct 1 1 2 (fun _ => [0]) 0) in
  (CIB.count b = 0 <-> CIB.mNextGetIndex b = -1) /\
  (CIB.count b = 0 -> CIB.mNextAddIndex b = 0).
Proof.
  assert (Hc : 0 <= CIB.capacity (CIB.construct 1 1 2 (fun _ => [0]) 0))
    by (vm_compute; congruence).
  split; [exact Hc|].
  exact (empty_iff_sentinel 1 1 2%nat (fun _ => [0]) 0%nat
           [CIB.OpAdd [1]; CIB.OpGet; CIB.OpPeek] Hc).
Defined.

Lemma add_zero_capacity_keeps_lock_witness :
  let b := CIB.construct 1 1 0 (fun _ => [0]) 0 in
  CIB.capacity b = 0 /\ CIB.mMutex (CIB.add [7] b) = 1%nat.
Proof.
  split; [reflexivity|].
  apply (add_zero_capacity_keeps_lock [7] (CIB.construct 1 1 0 (fun _ => [0]) 0)).
  reflexivity.
Defined.

Lemma peek_peek_get_witness :
  let b := CIB.add [7] (CIB.construct 1 1 2 (fun _ => [0]) 0) in
  CIB.isEmpty b = false /\ INT_MIN < CIB.count b <= INT_MAX /\
  fst (CIB.get b) = CIB.peek b /\
  CIB.count (snd (CIB.get b)) = CIB.count b - 1.
Proof.
  set (b := CIB.add [7] (CIB.construct 1 1 2 (fun _ => [0]) 0)).
  assert (Hne : CIB.isEmpty b = false) by reflexivity.
  assert (Hr : INT_MIN < CIB.count b <= INT_MAX) by (vm_compute; split; congruence).
  split; [exact Hne|]. split; [exact Hr|].
  destruct (peek_peek_get b) as [_ H].
  destruct (H Hne Hr) as (_ & H1 & _ & H2).
  split; [exact H1 | exact H2].
Defined.

Lemma add_beyond_capacity_witness :
  let b := CIB.run (CIB.OpAdd <$> [[1]; [2]; [3]])
             (CIB.construct 1 1 2 (fun _ => [0]) 0) in
  CIB.count b = 2 /\ CIB.statFramesSkipped b = 1 /\
  fst (CIB.gets 3 b) = [Some [2]; Some [3]; None].
Proof.
  destruct (add_beyond_capacity 1 1 2%nat (fun _ => [0]) 0%nat [[1]; [2]; [3]])
    as (H1 & H2 & H3 & _).
  - reflexivity.
  - reflexivity.
  - repeat constructor.
  - split; [exact H1|]. split; [exact H2|exact H3].
Defined.

(* ===================================================================== *)
(** ** The circular image buffer as a queue *)
(* ===================================================================== *)

Section BufferQueue.
Import CIB.
Context {SampleType : Type}.
Implicit Type b : CircularImageBuffer SampleType.

(** Two positions less than a full turn apart are different slots. *)
Lemma ring_distinct g c j k :
  0 < c -> 0 <= j < k -> k < j + c -> (g + j) mod c <> (g + k) mod c.
Proof.
  intros Hc Hj Hk E.
  assert (H0 : ((g + k) - (g + j)) mod c = 0).
  { rewrite Zminus_mod, E, Z.sub_diag. apply Z.mod_0_l. lia. }
  replace (g + k - (g + j)) with (k - j) in H0 by lia.
  rewrite Z.mod_small in H0 by lia. lia.
Qed.

Lemma ring_wrap g c : 0 < c -> 0 <= g < c -> (g + c) mod c = g.
Proof.
  intros Hc Hg. replace (g + c) with (g + 1 * c) by lia.
  rewrite Z.mod_add by lia. apply Z.mod_small. lia.
Qed.

(** In a buffer that holds images, the cursors meet exactly when it is
    full. *)
Lemma full_iff_cursors_meet b :
  wf b -> 0 < mCount b ->
  mCount b = capacity b <-> mNextAddIndex b = mNextGetIndex b.
Proof.
  intros (Hc & Hn & He & Hne) Hpos.
  destruct (Hne Hpos) as (Hg & Ha & Hr). split.
  - intros E. rewrite Hr, E. apply ring_wrap; lia.
  - intros E. destruct (Z.eq_dec (mCount b) (capacity b)) as [|N]; [done|].
    exfalso. apply (ring_distinct (mNextGetIndex b) (capacity b) 0 (mCount b)); try lia.
    rewrite <- Hr, E, Z.add_0_r. apply Z.mod_small. lia.
Qed.

(** *** The buffer as a queue *)

Lemma length_contents b : length (contents b) = Z.to_nat (mCount b).
Proof. unfold contents, ring_read. by rewrite length_fmap, length_seq. Qed.

Lemma contents_lookup b (j : nat) :
  (j < Z.to_nat (mCount b))%nat ->
  contents b !! j
  = Some (mCircularBuffer b !! Z.to_nat ((mNextGetIndex b + Z.of_nat j) mod capacity b)).
Proof.
  intros Hj. unfold contents, ring_read.
  rewrite list_lookup_fmap, lookup_seq_lt by done. done.
Qed.

Lemma capacity_add image b : capacity (add image b) = capacity b.
Proof.
  unfold capacity, add, memcpy_slot.
  destruct (_ =? 0); [done|].
  repeat (match goal with |- context [if ?c then _ else _] => destruct c end; cbn);
    rewrite ?length_insert; done.
Qed.

Lemma capacity_step b o : capacity (step b o) = capacity b.
Proof.
  destruct o; cbn; auto using capacity_add, capacity_get.
Qed.

Lemma capacity_run ops b : capacity (run ops b) = capacity b.
Proof.
  revert b. induction ops as [|o ops IH]; intros b; [done|].
  cbn. unfold run in IH. rewrite IH. apply capacity_step.
Qed.

Lemma frameSamples_step b o : frameSamples (step b o) = frameSamples b.
Proof.
  destruct o; cbn; auto using frameSamples_add.
  unfold get. destruct (isEmpty b); [done|]. cbn. by destruct (isEmpty _).
Qed.

Lemma frameSamples_run ops b : frameSamples (run ops b) = frameSamples b.
Proof.
  revert b. induction ops as [|o ops IH]; intros b; [done|].
  cbn. unfold run in IH. rewrite IH. apply frameSamples_step.
Qed.

(** An [add] that finds the buffer full writes over the oldest image. *)
Lemma contents_add_full image b :
  wf b -> 0 < capacity b -> mCount b = capacity b ->
  contents (add image b)
  = drop 1 (contents b) ++ [Some (take (frameSamples b) image)].
Proof.
  intros Hwf Hpos Ef.
  pose proof Hwf as (Hc & Hn & He & Hne).
  pose proof (capacity_le_slots b Hpos) as Hslots.
  pose proof (capacity_add image b) as Hcap.
  destruct (add_full image b Hwf Hpos Ef) as (Hs & Hcnt & _ & Hg' & _).
  destruct (Hne ltac:(lia)) as (Hg & Ha & Hr).
  assert (Ea : mNextAddIndex b = mNextGetIndex b).
  { by apply full_iff_cursors_meet; [|lia|]. }
  apply list_eq. intros j.
  destruct (decide (j < Z.to_nat (mCount b))%nat) as [Hj|Hj].
  2: { rewrite !lookup_ge_None_2; [done| |].
       - rewrite length_app, length_drop, length_contents. cbn. lia.
       - rewrite length_contents, Hcnt. lia. }
  rewrite contents_lookup by (rewrite Hcnt; lia).
  rewrite Hcap, Hg', Hs, Ea, Z.add_mod_idemp_l by lia.
  destruct (decide (S j < Z.to_nat (mCount b))%nat) as [Hj1|Hj1].
  - rewrite lookup_app_l by (rewrite length_drop, length_contents; lia).
    rewrite lookup_drop, contents_lookup by lia.
    rewrite list_lookup_insert_ne.
    + replace (Z.of_nat (1 + j)) with (1 + Z.of_nat j) by lia.
      by rewrite Z.add_assoc.
    + intros E. apply Z2Nat.inj in E; try lia.
      2: { apply Z.mod_pos_bound. lia. }
      apply (ring_distinct (mNextGetIndex b) (capacity b) 0 (1 + Z.of_nat j)); try lia.
      rewrite Z.add_0_r, Z.mod_small by lia.
      rewrite E. f_equal. lia.
  - assert (Ej : Z.of_nat j = capacity b - 1) by lia.
    replace (mNextGetIndex b + 1 + Z.of_nat j) with (mNextGetIndex b + capacity b) by lia.
    rewrite ring_wrap by lia.
    rewrite list_lookup_insert_eq by lia.
    rewrite lookup_app_r by (rewrite length_drop, length_contents; lia).
    rewrite length_drop, length_contents.
    replace (j - (Z.to_nat (mCount b) - 1))%nat with 0%nat by lia. done.
Qed.

(** An [add] that finds room writes behind the newest image. *)
Lemma contents_add_room image b :
  wf b -> mCount b < capacity b ->
  contents (add image b)
  = contents b ++ [Some (take (frameSamples b) image)].
Proof.
  intros Hwf Nf.
  pose proof Hwf as (Hc & Hn & He & Hne).
  pose proof (capacity_le_slots b ltac:(lia)) as Hslots.
  pose proof (capacity_add image b) as Hcap.
  destruct (add_not_full image b Hwf Nf) as (Hs & Hcnt & _ & Hg' & _).
  apply list_eq. intros j.
  destruct (decide (j < Z.to_nat (mCount b) + 1)%nat) as [Hj|Hj].
  2: { rewrite !lookup_ge_None_2; [done| |].
       - rewrite length_app, length_contents. cbn. lia.
       - rewrite length_contents, Hcnt. lia. }
  rewrite contents_lookup by (rewrite Hcnt; lia).
  rewrite Hcap, Hg', Hs.
  destruct (Z.eqb_spec (mCount b) 0) as [Ee|Nee].
  - destruct (He Ee) as [Ea Eg].
    assert (j = 0%nat) as -> by lia.
    rewrite Ea, Z.add_0_l. change (Z.of_nat 0) with 0.
    rewrite Z.mod_0_l by lia.
    rewrite list_lookup_insert_eq by (change (Z.to_nat 0) with 0%nat; lia).
    rewrite lookup_app_r by (rewrite length_contents; lia).
    rewrite length_contents, Ee. done.
  - destruct (Hne ltac:(lia)) as (Hg & Ha & Hr).
    destruct (decide (j < Z.to_nat (mCount b))%nat) as [Hj1|Hj1].
    + rewrite lookup_app_l by (rewrite length_contents; lia).
      rewrite contents_lookup by lia.
      rewrite list_lookup_insert_ne; [done|].
      intros E. apply Z2Nat.inj in E; try lia.
      2: { apply Z.mod_pos_bound. lia. }
      apply (ring_distinct (mNextGetIndex b) (capacity b) (Z.of_nat j) (mCount b)); lia.
    + assert (Ej : Z.of_nat j = mCount b) by lia.
      rewrite Ej, <- Hr.
      rewrite list_lookup_insert_eq by lia.
      rewrite lookup_app_r by (rewrite length_contents; lia).
      rewrite length_contents.
      replace (j - Z.to_nat (mCount b))%nat with 0%nat by lia. done.
Qed.

(** X1.  In a well-formed buffer with a capacity, [add] appends the first
    [width * height] samples of the image at the back of the queue of held
    images; when the buffer is full it first drops the oldest image, and
    otherwise it keeps them all.  The queue never holds more than
    [capacity()] images. *)
Theorem add_enqueues image b :
  wf b -> 0 < capacity b ->
  contents (add image b)
  = (if isFull b then drop 1 (contents b) else contents b)
    ++ [Some (take (frameSamples b) image)] /\
  Z.of_nat (length (contents (add image b))) <= capacity b.
Proof.
  intros Hwf Hpos. pose proof Hwf as (_ & Hn & _).
  pose proof (wf_add image b Hwf) as (_ & Hn' & _).
  rewrite capacity_add in Hn'.
  split.
  - unfold isFull. destruct (Z.eqb_spec (mCount b) (capacity b)) as [Ef|Nf].
    + by apply contents_add_full.
    + apply contents_add_room; [done|lia].
  - rewrite length_contents. lia.
Qed.

Lemma contents_empty b : mCount b = 0 -> contents b = [].
Proof. intros E. unfold contents. by rewrite E. Qed.

(** The oldest image is the one under the read cursor. *)
Lemma contents_head b :
  wf b -> 0 < mCount b ->
  contents b
  = mCircularBuffer b !! Z.to_nat (mNextGetIndex b)
    :: ring_read (mCircularBuffer b) (capacity b)
         ((mNextGetIndex b + 1) mod capacity b) (Z.to_nat (mCount b - 1)).
Proof.
  intros (Hc & Hn & He & Hne) Hpos.
  destruct (Hne Hpos) as (Hg & Ha & _).
  unfold contents.
  replace (Z.to_nat (mCount b)) with (S (Z.to_nat (mCount b - 1))) by lia.
  apply ring_read_S; lia.
Qed.

(** [get] takes the oldest image off the queue. *)
Lemma contents_get b : wf b -> contents (snd (get b)) = drop 1 (contents b).
Proof.
  intros Hwf. pose proof Hwf as (Hc & Hn & He & Hne).
  destruct (Z.eq_dec (mCount b) 0) as [E|N].
  - rewrite (get_empty b E). cbn [snd]. by rewrite (contents_empty b E).
  - rewrite (contents_head b Hwf) by lia. cbn [drop].
    pose proof (get_nonempty b Hwf ltac:(lia)) as Hget.
    pose proof (capacity_get b) as Hcap.
    destruct (get b) as [p b1]. cbn [fst snd] in *.
    destruct Hget as (_ & Hs & Hcnt & Hng).
    unfold contents. rewrite Hs, Hcap, Hcnt.
    destruct (Z.to_nat (mCount b - 1)) as [|k] eqn:Ek; [done|].
    rewrite Hng by lia. done.
Qed.

(** X2.  In a well-formed buffer [get] returns what [peek] returns and takes
    the oldest image off the queue: on an empty buffer it returns [nullptr]
    and changes nothing; otherwise the returned pointer is not null and,
    read after the call, gives the image that was the oldest.  The other
    images keep their order. *)
Theorem get_dequeues b :
  wf b ->
  fst (get b) = peek b /\
  contents (snd (get b)) = drop 1 (contents b) /\
  match contents b with
  | [] => fst (get b) = None /\ snd (get b) = b
  | oldest :: _ => is_Some (fst (get b)) /\ deref (snd (get b)) (fst (get b)) = oldest
  end.
Proof.
  intros Hwf. pose proof Hwf as (Hc & Hn & He & Hne).
  split; [|split; [by apply contents_get|]].
  - unfold get, peek. by destruct (isEmpty b).
  - destruct (Z.eq_dec (mCount b) 0) as [E|N].
    + rewrite (get_empty b E), (contents_empty b E). cbn [fst snd]. done.
    + destruct (Hne ltac:(lia)) as (Hg & Ha & _).
      rewrite (contents_head b Hwf) by lia.
      pose proof (get_nonempty b Hwf ltac:(lia)) as Hget.
      destruct (get b) as [p b1]. cbn [fst snd] in *.
      destruct Hget as (-> & Hs & _). split; [by eexists|].
      unfold deref. destruct (Z.leb_spec 0 (mNextGetIndex b)); [|lia].
      by rewrite Hs.
Qed.

(** Every public operation acts on the held images as the bounded queue
    does. *)
Lemma contents_step b o :
  wf b ->
  contents (step b o) = queue_step (capacity b) (frameSamples b) (contents b) o.
Proof.
  intros Hwf. pose proof Hwf as (Hc & Hn & _).
  destruct o as [image| | | | | | |]; cbn [step queue_step]; try done.
  - destruct (Z.eqb_spec (capacity b) 0) as [E0|N0].
    + unfold add. replace (capacity (lock b)) with (capacity b) by done.
      by rewrite E0.
    + rewrite length_contents, Z2Nat.id by lia.
      destruct (Z.eqb_spec (mCount b) (capacity b)) as [Ef|Nf].
      * apply contents_add_full; (done || lia).
      * apply contents_add_room; (done || lia).
  - by apply contents_get.
Qed.

(** X3.  The buffer refines a bounded drop-oldest queue: after any sequence
    of public operations on a well-formed buffer, the held images, oldest
    first, are those of the queue of [capacity()] places on which the same
    operations were run ([add] enqueues, dropping the oldest image of a full
    queue; [get] dequeues; [reset] empties; the others change nothing; with
    no capacity [add] does nothing). *)
Theorem run_refines_queue ops b :
  wf b ->
  contents (run ops b)
  = foldl (queue_step (capacity b) (frameSamples b)) (contents b) ops.
Proof.
  revert b. induction ops as [|o ops IH]; intros b Hwf; [done|].
  cbn [run foldl]. unfold run in IH.
  rewrite IH by (by apply wf_step).
  by rewrite capacity_step, frameSamples_step, contents_step.
Qed.

(** *** The statistics *)

Lemma wrap_u32_add_l a c : wrap_u32 (wrap_u32 a + c) = wrap_u32 (a + c).
Proof. unfold wrap_u32. by rewrite Z.add_mod_idemp_l. Qed.

Lemma balanced_add image b : wf b -> stats_balanced b -> stats_balanced (add image b).
Proof.
  intros (Hc & Hn & He & Hne) Hb.
  pose proof (capacity_int b) as Hmax.
  destruct b as [w h sa sr ss slots cnt na ng m].
  unfold stats_balanced, add, memcpy_slot, isFull, isEmpty, lock, unlock, wf, capacity in *.
  cbn in *.
  set (cap := wrap_i32 (Z.of_nat (length slots))) in *.
  destruct (Z.eqb_spec cap 0) as [E0|N0]; cbn; [done|].
  assert (Hlen : forall v, wrap_i32 (Z.of_nat (length (<[Z.to_nat na := v]> slots))) = cap).
  { intros v. by rewrite length_insert. }
  destruct ((0 <=? na) && (na <? Z.of_nat (length slots))); cbn;
    rewrite ?Hlen; fold cap.
  all: destruct (Z.eqb_spec cnt cap) as [Ef|Nf]; cbn; rewrite ?Hlen; fold cap.
  all: try (destruct (Z.eqb_spec cnt 0) as [Ee|Nee]; cbn; rewrite ?Hlen; fold cap).
  all: rewrite ?wrap_i32_small by (unfold INT_MIN, INT_MAX in *; lia).
  all: rewrite Hb, wrap_u32_add_l.
  all: try (f_equal; lia).
  all: replace (sr + wrap_u32 (ss + 1) + cnt) with (wrap_u32 (ss + 1) + (sr + cnt)) by lia.
  all: rewrite wrap_u32_add_l; f_equal; lia.
Qed.

Lemma balanced_get b : wf b -> stats_balanced b -> stats_balanced (snd (get b)).
Proof.
  intros (Hc & Hn & He & Hne) Hb.
  pose proof (capacity_int b) as Hmax.
  destruct b as [w h sa sr ss slots cnt na ng m].
  unfold stats_balanced, get, isEmpty, reset, lock, unlock, wf, capacity in *. cbn in *.
  set (cap := wrap_i32 (Z.of_nat (length slots))) in *.
  destruct (Z.eqb_spec cnt 0) as [Ee|Nee]; cbn; [done|].
  rewrite (wrap_i32_small (cnt - 1)) by (unfold INT_MIN, INT_MAX in *; lia).
  destruct (Z.eqb_spec (cnt - 1) 0) as [E1|N1]; cbn; rewrite Hb.
  - replace (wrap_u32 (sr + 1) + ss + 0) with (wrap_u32 (sr + 1) + ss) by lia.
    rewrite wrap_u32_add_l. f_equal. lia.
  - replace (wrap_u32 (sr + 1) + ss + (cnt - 1))
      with (wrap_u32 (sr + 1) + (ss + (cnt - 1))) by lia.
    rewrite wrap_u32_add_l. f_equal. lia.
Qed.

(** X4.  Between construction and any sequence of operations that calls
    neither [reset] nor [resetStats], every added image is accounted for:
    [framesAdded = framesRead + framesSkipped + count], in the arithmetic of
    [unsigned int]. *)
Theorem statistics_account_for_frames w h n g m (ops : list (Op SampleType)) :
  0 <= capacity (construct w h n g m) ->
  Forall (fun o => resets o = false) ops ->
  stats_balanced (run ops (construct w h n g m)).
Proof.
  intros Hc Hops.
  assert (H : forall b, wf b -> stats_balanced b -> stats_balanced (run ops b)).
  { clear Hc. induction Hops as [|o ops Ho _ IH]; intros b Hwf Hb; [done|].
    cbn [run foldl]. apply IH; [by apply wf_step|].
    destruct o; cbn [step]; try done.
    - by apply balanced_add.
    - by apply balanced_get. }
  apply H; [by apply wf_construct | done].
Qed.

(** *** The mutex *)

Lemma mutex_get b : mMutex (snd (get b)) = mMutex b.
Proof.
  unfold get. destruct (isEmpty b); [done|]. cbn. by destruct (isEmpty _).
Qed.

(** X5.  On a buffer with a capacity, every sequence of operations other
    than the caller's own [lock] and [unlock] leaves the mutex as it found
    it: each of [add], [get], [peek], [reset], [resetStats] and the
    accessors releases every lock that it takes. *)
Theorem lock_balance ops b :
  capacity b <> 0 ->
  Forall (fun o => locks o = false) ops ->
  mMutex (run ops b) = mMutex b.
Proof.
  intros Hc Hops. revert b Hc.
  induction Hops as [|o ops Ho _ IH]; intros b Hc; [done|].
  cbn [run foldl]. unfold run in IH.
  rewrite IH by (by rewrite capacity_step).
  destruct o; cbn [step]; try done.
  - by apply add_releases_lock.
  - apply mutex_get.
Qed.

(** *** The slot that get returns and the next add *)

Lemma get_nextAdd b :
  wf b -> 0 < mCount b ->
  mNextAddIndex (snd (get b)) = if mCount b =? 1 then 0 else mNextAddIndex b.
Proof.
  intros (Hc & Hn & He & Hne) Hpos.
  pose proof (capacity_int b) as Hmax.
  destruct b as [w h sa sr ss slots cnt na ng m].
  unfold get, isEmpty, reset, lock, unlock, capacity in *. cbn in *.
  destruct (Z.eqb_spec cnt 0) as [Ee|Nee]; [lia|].
  rewrite (wrap_i32_small (cnt - 1)) by (unfold INT_MIN, INT_MAX in *; lia).
  destruct (Z.eqb_spec (cnt - 1) 0) as [E1|N1];
    destruct (Z.eqb_spec cnt 1); cbn; try lia; done.
Qed.

(** X6.  The slot whose pointer [get] returns is the very slot that the
    next [add] overwrites exactly when the buffer was full, or held a single
    image in slot 0 (the [reset] of an emptied buffer sends the write cursor
    back to slot 0).  In every other case the returned slot still holds its
    image after the next [add]. *)
Theorem get_slot_reuse image b :
  wf b -> 0 < mCount b ->
  deref (add image (snd (get b))) (fst (get b))
  = if (mCount b =? capacity b) || ((mCount b =? 1) && (mNextGetIndex b =? 0))
    then Some (take (frameSamples b) image)
    else deref b (fst (get b)).
Proof.
  intros Hwf Hpos. pose proof Hwf as (Hc & Hn & He & Hne).
  destruct (Hne Hpos) as (Hg & Ha & Hr).
  pose proof (capacity_le_slots b ltac:(lia)) as Hslots.
  pose proof (get_nonempty b Hwf Hpos) as Hget.
  pose proof (get_nextAdd b Hwf Hpos) as Hna.
  pose proof (wf_get b Hwf) as Hwf1.
  pose proof (capacity_get b) as Hcap.
  pose proof (frameSamples_step b OpGet) as Hfs. cbn [step] in Hfs.
  destruct (get b) as [p b1]. cbn [fst snd] in *.
  destruct Hget as (-> & Hs & Hcnt & _).
  destruct (add_not_full image b1 Hwf1 ltac:(lia)) as (Hs' & _).
  unfold deref. destruct (Z.leb_spec 0 (mNextGetIndex b)); [|lia].
  rewrite Hs', Hs, Hfs, Hna.
  destruct (Z.eqb_spec (mCount b) 1) as [E1|N1].
  - destruct (Z.eqb_spec (mNextGetIndex b) 0) as [E0|N0].
    + rewrite E0, orb_true_r. apply list_lookup_insert_eq.
      change (Z.to_nat 0) with 0%nat. lia.
    + destruct (Z.eqb_spec (mCount b) (capacity b)); [lia|]. cbn.
      apply list_lookup_insert_ne. change (Z.to_nat 0) with 0%nat. lia.
  - rewrite orb_false_r.
    pose proof (full_iff_cursors_meet b Hwf Hpos) as Hiff.
    destruct (Z.eqb_spec (mCount b) (capacity b)) as [Ef|Nf].
    + rewrite (proj1 Hiff Ef). apply list_lookup_insert_eq. lia.
    + apply list_lookup_insert_ne. intros E. apply Z2Nat.inj in E; lia.
Qed.

(** X7.  Between construction and any sequence of public operations:
    [capacity()] never changes; [0 <= count() <= capacity()]; the buffer is
    both empty and full exactly when it has no capacity; and while it holds
    images both cursors are slot indices, which coincide exactly when the
    buffer is full. *)
Theorem reachable_invariants w h n g m (ops : list (Op SampleType)) :
  0 <= capacity (construct w h n g m) ->
  let b := run ops (construct w h n g m) in
  capacity b = capacity (construct w h n g m) /\
  0 <= count b <= capacity b /\
  (isEmpty b && isFull b = true <-> capacity b = 0) /\
  (isEmpty b = false ->
     0 <= mNextGetIndex b < capacity b /\
     0 <= mNextAddIndex b < capacity b /\
     (isFull b = true <-> mNextAddIndex b = mNextGetIndex b)).
Proof.
  intros Hc b.
  assert (Hwf : wf b) by (by apply wf_run, wf_construct).
  pose proof Hwf as (_ & Hn & He & Hne).
  split; [apply capacity_run|]. split; [done|].
  unfold isEmpty, isFull, count. split.
  - destruct (Z.eqb_spec (mCount b) 0); destruct (Z.eqb_spec (mCount b) (capacity b));
      cbn; split; (done || lia).
  - destruct (Z.eqb_spec (mCount b) 0) as [|N]; [done|]. intros _.
    destruct (Hne ltac:(lia)) as (Hg & Ha & _).
    split; [done|]. split; [done|].
    rewrite <- (full_iff_cursors_meet b Hwf) by lia.
    destruct (Z.eqb_spec (mCount b) (capacity b)); split; (done || lia).
Qed.

End BufferQueue.

Lemma add_enqueues_witness :
  let b := CIB.add [1] (CIB.construct 1 1 2 (fun _ => [0]) 0) in
  CIB.contents (CIB.add [2] b) = [Some [1]; Some [2]].
Proof.
  intros b.
  assert (Hwf : CIB.wf b).
  { apply wf_add, wf_construct. vm_compute. congruence. }
  assert (Hpos : 0 < CIB.capacity b) by reflexivity.
  rewrite (proj1 (add_enqueues [2] b Hwf Hpos)). vm_compute. reflexivity.
Defined.

Lemma get_dequeues_witness :
  let b := CIB.add [1] (CIB.construct 1 1 2 (fun _ => [0]) 0) in
  fst (CIB.get b) = CIB.peek b /\
  CIB.contents (snd (CIB.get b)) = drop 1 (CIB.contents b).
Proof.
  intros b.
  assert (Hwf : CIB.wf b).
  { apply wf_add, wf_construct. vm_compute. congruence. }
  destruct (get_dequeues b Hwf) as (H1 & H2 & _).
  split; [exact H1 | exact H2].
Defined.

Lemma run_refines_queue_witness :
  CIB.contents
    (CIB.run [CIB.OpAdd [1]; CIB.OpAdd [2]; CIB.OpAdd [3]; CIB.OpGet]
       (CIB.construct 1 1 2 (fun _ => [0]) 0))
  = [Some [3]].
Proof.
  assert (Hwf : CIB.wf (CIB.construct 1 1 2 (fun _ => [0]) 0)).
  { apply wf_construct. vm_compute. congruence. }
  exact (run_refines_queue
           [CIB.OpAdd [1]; CIB.OpAdd [2]; CIB.OpAdd [3]; CIB.OpGet]
           (CIB.construct 1 1 2 (fun _ => [0]) 0) Hwf).
Defined.

Lemma statistics_account_for_frames_witness :
  CIB.stats_balanced
    (CIB.run [CIB.OpAdd [1]; CIB.OpAdd [2]; CIB.OpAdd [3]; CIB.OpGet]
       (CIB.construct 1 1 2 (fun _ => [0]) 0)).
Proof.
  apply (statistics_account_for_frames 1 1 2%nat (fun _ => [0]) 0%nat
           [CIB.OpAdd [1]; CIB.OpAdd [2]; CIB.OpAdd [3]; CIB.OpGet]).
  - vm_compute. congruence.
  - repeat (apply Forall_cons_2; [reflexivity|]). apply Forall_nil_2.
Defined.

Lemma lock_balance_witness :
  CIB.mMutex
    (CIB.run [CIB.OpAdd [1]; CIB.OpGet; CIB.OpReset; CIB.OpResetStats]
       (CIB.construct 1 1 2 (fun _ => [0]) 0))
  = 0%nat.
Proof.
  apply (lock_balance [CIB.OpAdd [1]; CIB.OpGet; CIB.OpReset; CIB.OpResetStats]
           (CIB.construct 1 1 2 (fun _ => [0]) 0)).
  - vm_compute. congruence.
  - repeat (apply Forall_cons_2; [reflexivity|]). apply Forall_nil_2.
Defined.

Lemma get_slot_reuse_witness :
  let b := CIB.run [CIB.OpAdd [1]; CIB.OpAdd [2]]
             (CIB.construct 1 1 2 (fun _ => [0]) 0) in
  CIB.deref b (fst (CIB.get b)) = Some [1] /\
  CIB.deref (CIB.add [9] (snd (CIB.get b))) (fst (CIB.get b)) = Some [9].
Proof.
  intros b.
  assert (Hwf : CIB.wf b).
  { apply wf_run, wf_construct. vm_compute. congruence. }
  assert (Hpos : 0 < CIB.mCount b) by reflexivity.
  split; [reflexivity|].
  exact (get_slot_reuse [9] b Hwf Hpos).
Defined.

Lemma reachable_invariants_witness :
  let b := CIB.run [CIB.OpAdd [1]; CIB.OpAdd [2]; CIB.OpAdd [3]; CIB.OpGet]
             (CIB.construct 1 1 2 (fun _ => [0]) 0) in
  0 <= CIB.count b <= CIB.capacity b.
Proof.
  assert (Hc : 0 <= CIB.capacity (CIB.construct 1 1 2 (fun _ => [0]) 0))
    by (vm_compute; congruence).
  destruct (reachable_invariants 1 1 2%nat (fun _ => [0]) 0%nat
              [CIB.OpAdd [1]; CIB.OpAdd [2]; CIB.OpAdd [3]; CIB.OpGet] Hc)
    as (_ & H & _).
  exact H.
Defined.

Lemma add_asserts_reachable_witness :
  CIB.add_asserts
    (CIB.run [CIB.OpAdd [1]; CIB.OpAdd [2]; CIB.OpAdd [3]; CIB.OpGet]
       (CIB.construct 1 1 2 (fun _ => [0]) 0))
  = true.
Proof.
  apply (add_asserts_reachable 1 1 2%nat (fun _ => [0]) 0%nat
           [CIB.OpAdd [1]; CIB.OpAdd [2]; CIB.OpAdd [3]; CIB.OpGet]).
  reflexivity.
Defined.

(* ===================================================================== *)
(** ** Properties of the pixel kernels *)
(* ===================================================================== *)

(** *** Arrays and counted loops *)

Section Arrays.
Import FastImage.
Context {A : Type}.
Implicit Types (buf : list A) (i j : Z).

Lemma load_Some buf i : 0 <= i < Z.of_nat (length buf) -> is_Some (load buf i).
Proof.
  intros H. unfold load. destruct (Z.leb_spec 0 i); [|lia].
  apply lookup_lt_is_Some_2. lia.
Qed.

Lemma load_Some_inv buf i : is_Some (load buf i) -> 0 <= i < Z.of_nat (length buf).
Proof.
  unfold load. destruct (Z.leb_spec 0 i); intros Hs.
  - apply lookup_lt_is_Some_1 in Hs. lia.
  - by destruct Hs.
Qed.

Lemma store_Some buf i v :
  0 <= i < Z.of_nat (length buf) -> store buf i v = Some (<[Z.to_nat i := v]> buf).
Proof.
  intros H. unfold store.
  destruct (Z.leb_spec 0 i); [|lia].
  destruct (Z.ltb_spec i (Z.of_nat (length buf))); [done|lia].
Qed.

Lemma load_insert buf i j v :
  0 <= i < Z.of_nat (length buf) ->
  load (<[Z.to_nat i := v]> buf) j = if j =? i then Some v else load buf j.
Proof.
  intros H. unfold load.
  destruct (Z.eqb_spec j i) as [->|N].
  - destruct (Z.leb_spec 0 i); [|lia]. apply list_lookup_insert_eq. lia.
  - destruct (Z.leb_spec 0 j); [|done].
    apply list_lookup_insert_ne. lia.
Qed.

Lemma load_ext buf1 buf2 : (forall i, load buf1 i = load buf2 i) -> buf1 = buf2.
Proof.
  intros H. apply list_eq. intros n. specialize (H (Z.of_nat n)).
  unfold load in H. destruct (Z.leb_spec 0 (Z.of_nat n)); [|lia].
  by rewrite Nat2Z.id in H.
Qed.

End Arrays.

Section Loops.
Import FastImage.
Context {S : Type}.

(** A loop invariant [Inv k s], "[k] iterations are done", carried through
    [for_accum]: every iteration is defined and the final state satisfies
    the invariant at the iteration count. *)
Lemma for_accum_inv (Inv : nat -> S -> Prop) n step
    (body : Z -> Z -> S -> option S) (s0 : S) :
  Inv 0%nat s0 ->
  (forall k s, (k < n)%nat -> Inv k s ->
     exists s', body (Z.of_nat k) (accum step k) s = Some s' /\ Inv (Datatypes.S k) s') ->
  exists s', for_accum n 0 0 step body s0 = Some s' /\ Inv n s'.
Proof.
  intros H0 Hstep.
  assert (G : forall m k s, (k + m = n)%nat -> Inv k s ->
            exists s', for_accum m (Z.of_nat k) (accum step k) step body s = Some s'
                       /\ Inv n s').
  { induction m as [|m IH]; intros k s Hk Hi.
    - exists s. replace n with k by lia. done.
    - destruct (Hstep k s ltac:(lia) Hi) as (s1 & Hb & Hi1).
      cbn [for_accum]. rewrite Hb. cbn.
      replace (Z.of_nat k + 1) with (Z.of_nat (Datatypes.S k)) by lia.
      apply (IH (Datatypes.S k) s1); [lia|done]. }
  apply (G n 0%nat s0); [lia|done].
Qed.

Lemma for_loop_inv (Inv : nat -> S -> Prop) n first
    (body : Z -> S -> option S) (s0 : S) :
  Inv 0%nat s0 ->
  (forall k s, (k < n)%nat -> Inv k s ->
     exists s', body (first + Z.of_nat k) s = Some s' /\ Inv (Datatypes.S k) s') ->
  exists s', for_loop n first body s0 = Some s' /\ Inv n s'.
Proof.
  intros H0 Hstep.
  assert (G : forall m k s, (k + m = n)%nat -> Inv k s ->
            exists s', for_loop m (first + Z.of_nat k) body s = Some s' /\ Inv n s').
  { induction m as [|m IH]; intros k s Hk Hi.
    - exists s. replace n with k by lia. done.
    - destruct (Hstep k s ltac:(lia) Hi) as (s1 & Hb & Hi1).
      cbn [for_loop]. rewrite Hb. cbn.
      replace (first + Z.of_nat k + 1) with (first + Z.of_nat (Datatypes.S k)) by lia.
      apply (IH (Datatypes.S k) s1); [lia|done]. }
  specialize (G n 0%nat s0). rewrite Z.add_0_r in G. apply G; [lia|done].
Qed.

(** An iteration that is undefined whatever the state makes the loop
    undefined. *)
Lemma for_accum_None n step (body : Z -> Z -> S -> option S) (s0 : S) k :
  (k < n)%nat ->
  (forall s, body (Z.of_nat k) (accum step k) s = None) ->
  for_accum n 0 0 step body s0 = None.
Proof.
  intros Hk Hnone.
  assert (G : forall m j s, (j + m = n)%nat -> (j <= k)%nat ->
            for_accum m (Z.of_nat j) (accum step j) step body s = None).
  { induction m as [|m IH]; intros j s Hj Hle; [lia|].
    cbn [for_accum].
    destruct (decide (j = k)) as [->|Hne].
    - by rewrite Hnone.
    - destruct (body (Z.of_nat j) (accum step j) s) as [s1|]; [|done]. cbn.
      replace (Z.of_nat j + 1) with (Z.of_nat (Datatypes.S j)) by lia.
      apply (IH (Datatypes.S j) s1); lia. }
  apply (G n 0%nat s0); lia.
Qed.

End Loops.

Section FixedPoint.
Import FastImage.

Lemma wrap_i32_add_l a b : wrap_i32 (wrap_i32 a + b) = wrap_i32 (a + b).
Proof.
  unfold wrap_i32.
  replace ((a + 2 ^ 31) mod 2 ^ 32 - 2 ^ 31 + b + 2 ^ 31)
    with ((a + 2 ^ 31) mod 2 ^ 32 + b) by lia.
  rewrite Z.add_mod_idemp_l by lia. do 2 f_equal. lia.
Qed.

(** The accumulator is the iteration number times the step, as an [int]. *)
Lemma accum_wrap step k : accum step k = wrap_i32 (Z.of_nat k * step).
Proof.
  induction k as [|k IH].
  - done.
  - change (accum step (S k)) with (wrap_i32 (accum step k + step)).
    rewrite IH, wrap_i32_add_l. f_equal. lia.
Qed.

Lemma accum_small step k :
  0 <= Z.of_nat k * step <= INT_MAX -> accum step k = Z.of_nat k * step.
Proof.
  intros H. rewrite accum_wrap. apply wrap_i32_small. unfold INT_MIN. lia.
Qed.

(** The step of a dimension that fits the 16.16 fixed-point format. *)
Lemma fxDelta_small srcDim dstDim :
  0 <= srcDim <= 32767 -> 1 <= dstDim ->
  fxDelta srcDim dstDim = srcDim * 65536 / dstDim /\
  0 <= fxDelta srcDim dstDim /\
  fxDelta srcDim dstDim * dstDim <= srcDim * 65536.
Proof.
  intros Hs Hd. unfold fxDelta, kFixedShift.
  rewrite Z.shiftl_mul_pow2 by lia. change (2 ^ 16) with 65536.
  rewrite wrap_u32_small by (unfold UINT32_MAX; lia).
  assert (0 <= srcDim * 65536 / dstDim <= srcDim * 65536).
  { split; [apply Z.div_pos; lia|]. apply Z.div_le_upper_bound; nia. }
  rewrite wrap_i32_small by (unfold INT_MIN, INT_MAX; lia).
  split; [done|]. split; [lia|].
  pose proof (Z.mul_div_le (srcDim * 65536) dstDim ltac:(lia)). lia.
Qed.

Lemma shiftr16 a : Z.shiftr a kFixedShift = a / 65536.
Proof. unfold kFixedShift. by rewrite Z.shiftr_div_pow2 by lia. Qed.

Lemma trip_count_lt dstDim k :
  1 <= dstDim <= UINT32_MAX -> (k < trip_count dstDim)%nat ->
  wrap_i32 dstDim = dstDim /\ Z.of_nat k < dstDim /\ dstDim <= INT_MAX.
Proof.
  unfold trip_count, UINT32_MAX, INT_MAX. intros Hd Hk.
  destruct (Z.le_gt_cases dstDim (2 ^ 31 - 1)) as [Hs|Hb].
  - rewrite wrap_i32_small in * by (unfold INT_MIN, INT_MAX; lia). lia.
  - exfalso. unfold wrap_i32 in Hk.
    replace (dstDim + 2 ^ 31) with (dstDim - 2 ^ 31 + 1 * 2 ^ 32) in Hk by lia.
    rewrite Z.mod_add, Z.mod_small in Hk by lia. lia.
Qed.

(** The source coordinate of destination coordinate [k], along one axis. *)
Lemma coord_bounds srcDim dstDim k :
  1 <= srcDim <= 32767 -> 1 <= dstDim -> Z.of_nat k < dstDim ->
  let a := accum (fxDelta srcDim dstDim) k in
  a = Z.of_nat k * fxDelta srcDim dstDim /\
  0 <= a < srcDim * 65536 /\
  0 <= Z.shiftr a kFixedShift < srcDim.
Proof.
  intros Hs Hd Hk a.
  destruct (fxDelta_small srcDim dstDim ltac:(lia) Hd) as (_ & H0 & Hle).
  set (fx := fxDelta srcDim dstDim) in *.
  assert (Hb : 0 <= Z.of_nat k * fx < srcDim * 65536) by nia.
  assert (Ha : a = Z.of_nat k * fx).
  { apply accum_small. unfold INT_MAX. lia. }
  rewrite shiftr16, Ha. split; [done|]. split; [done|]. split.
  - apply Z.div_pos; lia.
  - apply Z.div_lt_upper_bound; lia.
Qed.

(** Whatever the dimensions, a sampled coordinate stays below the source
    dimension: beyond the 16.16 format it can only be negative. *)
Lemma coord_upper_bound srcDim dstDim k :
  1 <= srcDim <= UINT32_MAX -> 1 <= dstDim <= UINT32_MAX ->
  (k < trip_count dstDim)%nat ->
  Z.shiftr (accum (fxDelta srcDim dstDim) k) kFixedShift < srcDim.
Proof.
  intros Hs Hd Hk.
  destruct (trip_count_lt dstDim k Hd Hk) as (_ & Hk' & _).
  destruct (Z.le_gt_cases srcDim 32767) as [Hsmall|Hbig].
  - apply (coord_bounds srcDim dstDim k); lia.
  - rewrite shiftr16, accum_wrap.
    pose proof (wrap_i32_range (Z.of_nat k * fxDelta srcDim dstDim)) as Hr.
    unfold INT_MIN, INT_MAX in Hr.
    apply Z.div_lt_upper_bound; lia.
Qed.

(** The source span of destination coordinate [k], along one axis, when
    scaling down: it is not empty and lies inside the source. *)
Lemma span_bounds srcDim dstDim k :
  1 <= dstDim <= srcDim -> srcDim <= 32767 -> Z.of_nat k < dstDim ->
  let d := fxDelta srcDim dstDim in
  let a := accum d k in
  0 <= Z.shiftr a kFixedShift /\
  Z.shiftr a kFixedShift < Z.shiftr (wrap_i32 (a + d)) kFixedShift /\
  Z.shiftr (wrap_i32 (a + d)) kFixedShift <= srcDim.
Proof.
  intros Hd Hs Hk d a.
  destruct (fxDelta_small srcDim dstDim ltac:(lia) ltac:(lia)) as (E & H0 & Hle).
  destruct (coord_bounds srcDim dstDim k ltac:(lia) ltac:(lia) Hk)
    as (Ha & Hb & Hr).
  fold d in E, H0, Hle, Ha, Hb, Hr. fold a in Ha, Hb, Hr.
  assert (Hd1 : 65536 <= d).
  { rewrite E. apply Z.div_le_lower_bound; nia. }
  assert (Hsum : a + d <= srcDim * 65536) by nia.
  rewrite wrap_i32_small by (unfold INT_MIN, INT_MAX; lia).
  rewrite !shiftr16 in *.
  assert (H1 : a / 65536 + 1 <= (a + d) / 65536).
  { replace (a / 65536 + 1) with ((a + 1 * 65536) / 65536)
      by (rewrite Z.div_add by lia; done).
    apply Z.div_le_mono; lia. }
  assert (H2 : (a + d) / 65536 <= srcDim).
  { apply Z.div_le_upper_bound; lia. }
  lia.
Qed.

(** The area of the source rectangle of a destination pixel. *)
Lemma lerpTot_positive srcWidth srcHeight dstWidth dstHeight (xDst yDst : nat) :
  1 <= dstWidth <= srcWidth -> srcWidth <= 32767 ->
  1 <= dstHeight <= srcHeight -> srcHeight <= 32767 ->
  Z.of_nat xDst < dstWidth -> Z.of_nat yDst < dstHeight ->
  1 <= lerpTot (fxDelta srcWidth dstWidth) (fxDelta srcHeight dstHeight)
         (accum (fxDelta srcHeight dstHeight) yDst)
         (accum (fxDelta srcWidth dstWidth) xDst).
Proof.
  intros Hw Hsw Hh Hsh Hx Hy. unfold lerpTot.
  pose proof (span_bounds srcWidth dstWidth xDst Hw Hsw Hx) as Hxs.
  pose proof (span_bounds srcHeight dstHeight yDst Hh Hsh Hy) as Hys.
  cbv zeta in *.
  set (x0 := Z.shiftr (accum _ xDst) _) in *.
  set (x1 := Z.shiftr (wrap_i32 (accum _ xDst + _)) _) in *.
  set (y0 := Z.shiftr (accum _ yDst) _) in *.
  set (y1 := Z.shiftr (wrap_i32 (accum _ yDst + _)) _) in *.
  rewrite (wrap_i32_small (x1 - x0)), (wrap_i32_small (y1 - y0))
    by (unfold INT_MIN, INT_MAX; lia).
  assert (1 <= (y1 - y0) * (x1 - x0) <= 32767 * 32767) by nia.
  rewrite wrap_i32_small by (unfold INT_MIN, INT_MAX; lia). lia.
Qed.

End FixedPoint.

(** *** What the nearest-neighbour kernel computes *)

Section NearestNeighbour.
Import FastImage.
Context {A : Type}.

Lemma dstOffset_small dstWidth dstHeight x y :
  1 <= dstWidth -> dstWidth * dstHeight <= INT_MAX ->
  0 <= x < dstWidth -> 0 <= y < dstHeight ->
  dstOffset dstWidth y x = y * dstWidth + x /\
  0 <= y * dstWidth + x < dstWidth * dstHeight.
Proof.
  intros Hw Hmax Hx Hy. unfold dstOffset, mul_int_u32, INT_MAX in *.
  assert (0 <= y * dstWidth /\ y * dstWidth + x < dstWidth * dstHeight) by nia.
  rewrite (wrap_u32_small y) by (unfold UINT32_MAX; nia).
  rewrite wrap_u32_small by (unfold UINT32_MAX; lia).
  rewrite (wrap_i32_small (y * dstWidth)) by (unfold INT_MIN, INT_MAX; lia).
  rewrite wrap_i32_small by (unfold INT_MIN, INT_MAX; lia). lia.
Qed.

(** Provided the destination has room for [dstWidth * dstHeight] samples
    (a count that fits an [int]) and every source index is inside [src],
    the kernel returns, having written to each destination pixel the source
    sample at [nnSrcIndex] and nothing outside the destination image. *)
Lemma resampleNearestNeighbor_spec (src dst : list A)
    srcWidth srcHeight dstWidth dstHeight :
  1 <= dstWidth -> 1 <= dstHeight ->
  dstWidth * dstHeight <= INT_MAX ->
  dstWidth * dstHeight <= Z.of_nat (length dst) ->
  (forall x y : nat, Z.of_nat x < dstWidth -> Z.of_nat y < dstHeight ->
     is_Some (load src (nnSrcIndex srcWidth srcHeight dstWidth dstHeight x y))) ->
  exists dst',
    resampleNearestNeighbor src srcWidth srcHeight dst dstWidth dstHeight
      = Some dst' /\
    length dst' = length dst /\
    (forall x y : nat, Z.of_nat x < dstWidth -> Z.of_nat y < dstHeight ->
       load dst' (Z.of_nat y * dstWidth + Z.of_nat x) =
       load src (nnSrcIndex srcWidth srcHeight dstWidth dstHeight x y)) /\
    (forall j, ~ (0 <= j < dstWidth * dstHeight) -> load dst' j = load dst j).
Proof.
  intros Hw Hh Hmax Hroom Hsrc.
  assert (HwM : dstWidth <= INT_MAX) by (unfold INT_MAX in *; nia).
  assert (HhM : dstHeight <= INT_MAX) by (unfold INT_MAX in *; nia).
  unfold resampleNearestNeighbor.
  destruct (Z.eqb_spec dstWidth 0); [lia|].
  destruct (Z.eqb_spec dstHeight 0); [lia|]. cbn [orb].
  unfold trip_count.
  rewrite !wrap_i32_small by (unfold INT_MIN, INT_MAX in *; lia).
  set (fx := fxDelta srcWidth dstWidth).
  set (fy := fxDelta srcHeight dstHeight).
  set (sidx := nnSrcIndex srcWidth srcHeight dstWidth dstHeight) in *.
  pose (InvO := fun (k : nat) (d : list A) =>
    length d = length dst /\
    (forall x y : nat, Z.of_nat x < dstWidth -> (y < k)%nat ->
       load d (Z.of_nat y * dstWidth + Z.of_nat x) = load src (sidx x y)) /\
    (forall j, ~ (0 <= j < Z.of_nat k * dstWidth) -> load d j = load dst j)).
  destruct (for_accum_inv InvO (Z.to_nat dstHeight) fy
    (fun yDst ySrc dst0 =>
       for_accum (Z.to_nat dstWidth) 0 0 fx
         (fun xDst xSrc dst1 =>
            v ← load src (nnSrcOffset srcWidth ySrc xSrc);
            store dst1 (dstOffset dstWidth yDst xDst) v) dst0) dst)
    as (dst' & Hrun & Hlen & Hpix & Hout).
  - split; [done|]. split; [intros; lia|done].
  - intros k d Hk (Hlen & Hpix & Hout).
    pose (InvI := fun (kx : nat) (d' : list A) =>
      length d' = length dst /\
      (forall x : nat, (x < kx)%nat ->
         load d' (Z.of_nat k * dstWidth + Z.of_nat x) = load src (sidx x k)) /\
      (forall j, ~ (Z.of_nat k * dstWidth <= j < Z.of_nat k * dstWidth + Z.of_nat kx) ->
         load d' j = load d j)).
    destruct (for_accum_inv InvI (Z.to_nat dstWidth) fx
      (fun xDst xSrc dst1 =>
         v ← load src (nnSrcOffset srcWidth (accum fy k) xSrc);
         store dst1 (dstOffset dstWidth (Z.of_nat k) xDst) v) d)
      as (d' & Hrun' & Hlen' & Hpix' & Hout').
    + split; [done|]. split; [intros; lia|done].
    + intros kx d1 Hkx (Hl1 & Hp1 & Ho1).
      destruct (Hsrc kx k ltac:(lia) ltac:(lia)) as [v Hv].
      change (load src (nnSrcOffset srcWidth (accum fy k) (accum fx kx)) = Some v) in Hv.
      rewrite Hv. cbn.
      destruct (dstOffset_small dstWidth dstHeight (Z.of_nat kx) (Z.of_nat k))
        as [-> Hrange]; try lia.
      rewrite store_Some by lia.
      eexists. split; [done|]. split; [by rewrite length_insert|]. split.
      * intros x Hx. rewrite load_insert by lia.
        destruct (Z.eqb_spec (Z.of_nat k * dstWidth + Z.of_nat x)
                    (Z.of_nat k * dstWidth + Z.of_nat kx)) as [E|N].
        -- assert (x = kx) as -> by lia. done.
        -- apply Hp1. lia.
      * intros j Hj. rewrite load_insert by lia.
        destruct (Z.eqb_spec j (Z.of_nat k * dstWidth + Z.of_nat kx)); [lia|].
        apply Ho1. lia.
    + exists d'. split; [exact Hrun'|]. split; [done|]. split.
      * intros x y Hx Hy. destruct (decide (y = k)) as [->|Hne].
        -- apply Hpix'. lia.
        -- rewrite Hout' by nia. apply Hpix; lia.
      * intros j Hj. rewrite Hout' by nia. apply Hout. nia.
  - exists dst'. split; [exact Hrun|]. split; [done|]. split.
    + intros x y Hx Hy. apply Hpix; lia.
    + intros j Hj. apply Hout. rewrite Z2Nat.id by lia. nia.
Qed.

(** An iteration whose source index is outside [src] is an out-of-bounds
    read: the kernel is undefined. *)
Lemma resampleNearestNeighbor_out_of_bounds (src dst : list A)
    srcWidth srcHeight dstWidth dstHeight (x y : nat) :
  dstWidth <> 0 -> dstHeight <> 0 ->
  (x < trip_count dstWidth)%nat -> (y < trip_count dstHeight)%nat ->
  load src (nnSrcIndex srcWidth srcHeight dstWidth dstHeight x y) = None ->
  resampleNearestNeighbor src srcWidth srcHeight dst dstWidth dstHeight = None.
Proof.
  intros Hw Hh Hx Hy Hnone. unfold resampleNearestNeighbor.
  destruct (Z.eqb_spec dstWidth 0); [done|].
  destruct (Z.eqb_spec dstHeight 0); [done|]. cbn [orb].
  apply (for_accum_None _ _ _ _ y Hy). intros s.
  apply (for_accum_None _ _ _ _ x Hx). intros s'.
  unfold nnSrcIndex in Hnone. by rewrite Hnone.
Qed.

(** Within the 16.16 format the source coordinates are exact. *)
Lemma nnSrcIndex_small srcWidth srcHeight dstWidth dstHeight (xDst yDst : nat) :
  1 <= srcWidth <= 32767 -> 1 <= srcHeight <= 32767 ->
  1 <= dstWidth -> 1 <= dstHeight ->
  Z.of_nat xDst < dstWidth -> Z.of_nat yDst < dstHeight ->
  let row := Z.shiftr (accum (fxDelta srcHeight dstHeight) yDst) kFixedShift in
  let col := Z.shiftr (accum (fxDelta srcWidth dstWidth) xDst) kFixedShift in
  0 <= row < srcHeight /\ 0 <= col < srcWidth /\
  nnSrcIndex srcWidth srcHeight dstWidth dstHeight xDst yDst
    = row * srcWidth + col /\
  0 <= row * srcWidth + col < srcWidth * srcHeight.
Proof.
  intros Hsw Hsh Hdw Hdh Hx Hy row col.
  destruct (coord_bounds srcHeight dstHeight yDst Hsh Hdh Hy) as (_ & _ & Hr).
  destruct (coord_bounds srcWidth dstWidth xDst Hsw Hdw Hx) as (_ & _ & Hc).
  fold row in Hr. fold col in Hc.
  assert (Hb : 0 <= row * srcWidth /\ row * srcWidth + col < srcWidth * srcHeight) by nia.
  assert (Hm : srcWidth * srcHeight <= 32767 * 32767) by nia.
  split; [done|]. split; [done|]. split; [|lia].
  unfold nnSrcIndex, nnSrcOffset, mul_int_u32. fold row col.
  rewrite (wrap_u32_small row) by (unfold UINT32_MAX; lia).
  rewrite wrap_u32_small by (unfold UINT32_MAX; lia).
  rewrite (wrap_i32_small (row * srcWidth)) by (unfold INT_MIN, INT_MAX; lia).
  apply wrap_i32_small. unfold INT_MIN, INT_MAX. lia.
Qed.

(** At identity scale the step is exactly 1.0 and the source index of a
    destination pixel is its own index. *)
Lemma nnSrcIndex_identity W H (x y : nat) :
  1 <= W <= 32767 -> 1 <= H <= 32767 ->
  Z.of_nat x < W -> Z.of_nat y < H ->
  nnSrcIndex W H W H x y = Z.of_nat y * W + Z.of_nat x.
Proof.
  intros HW HH Hx Hy.
  destruct (nnSrcIndex_small W H W H x y) as (_ & _ & -> & _); try lia.
  destruct (coord_bounds W W x HW ltac:(lia) Hx) as (-> & _ & _).
  destruct (coord_bounds H H y HH ltac:(lia) Hy) as (-> & _ & _).
  destruct (fxDelta_small W W ltac:(lia) ltac:(lia)) as (-> & _ & _).
  destruct (fxDelta_small H H ltac:(lia) ltac:(lia)) as (-> & _ & _).
  rewrite !shiftr16.
  assert (EW : W * 65536 / W = 65536) by (rewrite Z.mul_comm; apply Z.div_mul; lia).
  assert (EH : H * 65536 / H = 65536) by (rewrite Z.mul_comm; apply Z.div_mul; lia).
  rewrite EW, EH, !Z.div_mul by lia. done.
Qed.

Lemma resampleNearestNeighbor_identity (src dst : list A) W H :
  1 <= W <= 32767 -> 1 <= H <= 32767 ->
  Z.of_nat (length src) = W * H -> W * H <= Z.of_nat (length dst) ->
  exists dst',
    resampleNearestNeighbor src W H dst W H = Some dst' /\
    length dst' = length dst /\
    (forall i, 0 <= i < W * H -> load dst' i = load src i) /\
    take (Z.to_nat (W * H)) dst' = src.
Proof.
  intros HW HH Hsrc Hroom.
  assert (Hm : W * H <= 32767 * 32767) by nia.
  assert (Hin : forall x y : nat, Z.of_nat x < W -> Z.of_nat y < H ->
            0 <= Z.of_nat y * W + Z.of_nat x < W * H) by (intros; nia).
  destruct (resampleNearestNeighbor_spec src dst W H W H)
    as (dst' & Hrun & Hlen & Hpix & _); try lia.
  { unfold INT_MAX. lia. }
  { intros x y Hx Hy. rewrite nnSrcIndex_identity by lia.
    apply load_Some. specialize (Hin x y Hx Hy). lia. }
  assert (Hpt : forall i, 0 <= i < W * H -> load dst' i = load src i).
  { intros i Hi.
    pose proof (Z.div_mod i W ltac:(lia)) as Hdm.
    pose proof (Z.mod_pos_bound i W ltac:(lia)) as Hmod.
    assert (Hdiv : 0 <= i / W < H).
    { split; [apply Z.div_pos; lia|]. apply Z.div_lt_upper_bound; lia. }
    specialize (Hpix (Z.to_nat (i mod W)) (Z.to_nat (i / W))).
    rewrite nnSrcIndex_identity in Hpix by lia.
    rewrite !Z2Nat.id in Hpix by lia.
    replace (i / W * W + i mod W) with i in Hpix by lia.
    apply Hpix; lia. }
  exists dst'. split; [done|]. split; [done|]. split; [done|].
  apply list_eq. intros n.
  destruct (decide (n < Z.to_nat (W * H))%nat) as [Hn|Hn].
  - rewrite lookup_take_lt by done.
    specialize (Hpt (Z.of_nat n) ltac:(lia)). unfold load in Hpt.
    destruct (Z.leb_spec 0 (Z.of_nat n)); [|lia].
    by rewrite Nat2Z.id in Hpt.
  - rewrite lookup_take_ge by lia. symmetry. apply lookup_ge_None_2. lia.
Qed.

End NearestNeighbour.

(** *** Source reads of the nearest-neighbour kernels *)

(** C10 (as amended).  For a source of at most 32767 by 32767 samples (the
    dimensions whose 16.16 fixed-point coordinates fit an [int]) and any
    destination dimensions, upscaling included, every iteration of
    [resampleNearestNeighborLuma] and [resampleNearestNeighborColor] samples
    a row in [0, srcHeight) and a column in [0, srcWidth), and the index it
    reads is inside the first [srcWidth * srcHeight] samples. *)
Theorem nnSrcIndex_in_bounds srcWidth srcHeight dstWidth dstHeight
    (xDst yDst : nat) :
  1 <= srcWidth <= 32767 -> 1 <= srcHeight <= 32767 ->
  1 <= dstWidth <= UINT32_MAX -> 1 <= dstHeight <= UINT32_MAX ->
  (xDst < FastImage.trip_count dstWidth)%nat ->
  (yDst < FastImage.trip_count dstHeight)%nat ->
  let row := Z.shiftr (FastImage.accum (FastImage.fxDelta srcHeight dstHeight) yDst)
               FastImage.kFixedShift in
  let col := Z.shiftr (FastImage.accum (FastImage.fxDelta srcWidth dstWidth) xDst)
               FastImage.kFixedShift in
  let i := FastImage.nnSrcIndex srcWidth srcHeight dstWidth dstHeight xDst yDst in
  0 <= row < srcHeight /\ 0 <= col < srcWidth /\
  i = row * srcWidth + col /\
  0 <= i < srcWidth * srcHeight /\
  (forall src : list FastImage.LumaSample,
     Z.of_nat (length src) = srcWidth * srcHeight ->
     is_Some (FastImage.load src i)) /\
  (forall src : list FastImage.ColorSample,
     Z.of_nat (length src) = srcWidth * srcHeight ->
     is_Some (FastImage.load src i)).
Proof.
  intros Hsw Hsh Hdw Hdh Hx Hy row col i.
  destruct (trip_count_lt dstWidth xDst Hdw Hx) as (_ & Hx' & _).
  destruct (trip_count_lt dstHeight yDst Hdh Hy) as (_ & Hy' & _).
  destruct (nnSrcIndex_small srcWidth srcHeight dstWidth dstHeight xDst yDst)
    as (Hr & Hc & Hi & Hb); try lia.
  fold row col i in Hr, Hc, Hi, Hb.
  split; [done|]. split; [done|]. split; [done|]. split; [lia|].
  split; intros src Hlen; apply load_Some; lia.
Qed.

(** C10 as stated fails.  Resampling 32769x1 to 32769x1, the accumulator
    reaches 32768 * 65536 = 2^31 at the last column, beyond [INT_MAX]; as an
    [int] it is -2^31 and the column read is -32768, in front of the source
    array, whatever the arrays hold.  And with a source of 131072 by 16385
    samples, the row offset 16384 * 131072 = 2^31 does not fit the [int]
    [ySrcOffset] either. *)
Lemma nnSrcIndex_out_of_bounds_wide_source :
  (Z.to_nat 32768 < FastImage.trip_count 32769)%nat /\
  FastImage.nnSrcIndex 32769 1 32769 1 (Z.to_nat 32768) 0 = -32768 /\
  ~ (0 <= FastImage.nnSrcIndex 32769 1 32769 1 (Z.to_nat 32768) 0 < 32769 * 1) /\
  (forall src dst : list FastImage.LumaSample,
     FastImage.resampleNearestNeighborLuma src 32769 1 dst 32769 1 = None) /\
  (forall src dst : list FastImage.ColorSample,
     FastImage.resampleNearestNeighborColor src 32769 1 dst 32769 1 = None) /\
  FastImage.nnSrcIndex 131072 16385 1 16385 0 (Z.to_nat 16384) = -2147483648.
Proof.
  assert (Ht : (Z.to_nat 32768 < FastImage.trip_count 32769)%nat).
  { unfold FastImage.trip_count.
    change (wrap_i32 32769) with 32769. apply Z2Nat.inj_lt; lia. }
  assert (Hi : FastImage.nnSrcIndex 32769 1 32769 1 (Z.to_nat 32768) 0 = -32768).
  { unfold FastImage.nnSrcIndex. rewrite !accum_wrap.
    rewrite Z2Nat.id by lia. reflexivity. }
  assert (Hnone : forall src dst : list Z,
            FastImage.resampleNearestNeighbor src 32769 1 dst 32769 1 = None).
  { intros src dst.
    apply (resampleNearestNeighbor_out_of_bounds src dst 32769 1 32769 1
             (Z.to_nat 32768) 0%nat); [lia | lia | exact Ht | |].
    - unfold FastImage.trip_count. change (wrap_i32 1) with 1. lia.
    - rewrite Hi. reflexivity. }
  split; [exact Ht|].
  split; [exact Hi|]. split; [rewrite Hi; lia|].
  split; [exact Hnone|]. split; [exact Hnone|].
  unfold FastImage.nnSrcIndex. rewrite !accum_wrap.
  rewrite Z2Nat.id by lia. reflexivity.
Qed.

Lemma nnSrcIndex_in_bounds_witness :
  0 <= FastImage.nnSrcIndex 2 2 4 4 3 3 < 2 * 2.
Proof.
  assert (Ht : (3 < FastImage.trip_count 4)%nat) by (vm_compute; lia).
  assert (Hu : 1 <= 4 <= UINT32_MAX) by (unfold UINT32_MAX; lia).
  destruct (nnSrcIndex_in_bounds 2 2 4 4 3 3 ltac:(lia) ltac:(lia) Hu Hu Ht Ht)
    as (_ & _ & _ & H & _).
  exact H.
Defined.

(** *** Nearest-neighbour resampling at identity scale *)

(** C7 (as amended).  For [1 <= W, H <= 32767], resampling a [W] by [H]
    source to [W] by [H] with [resampleNearestNeighborLuma] or
    [resampleNearestNeighborColor] returns with [dst[i] == src[i]] for every
    [i < W * H]: the first [W * H] samples of the destination are the
    source. *)
Theorem resample_identity W H :
  1 <= W <= 32767 -> 1 <= H <= 32767 ->
  (forall src dst : list FastImage.LumaSample,
     Z.of_nat (length src) = W * H -> W * H <= Z.of_nat (length dst) ->
     exists dst',
       FastImage.resampleNearestNeighborLuma src W H dst W H = Some dst' /\
       length dst' = length dst /\
       (forall i, 0 <= i < W * H -> FastImage.load dst' i = FastImage.load src i) /\
       take (Z.to_nat (W * H)) dst' = src) /\
  (forall src dst : list FastImage.ColorSample,
     Z.of_nat (length src) = W * H -> W * H <= Z.of_nat (length dst) ->
     exists dst',
       FastImage.resampleNearestNeighborColor src W H dst W H = Some dst' /\
       length dst' = length dst /\
       (forall i, 0 <= i < W * H -> FastImage.load dst' i = FastImage.load src i) /\
       take (Z.to_nat (W * H)) dst' = src).
Proof.
  intros HW HH.
  split; intros src dst Hs Hd; by apply resampleNearestNeighbor_identity.
Qed.

(** C7 as stated fails: for a source 65536 samples wide, [srcWidth << 16]
    wraps to 0, the step is 0 and every destination pixel of a row receives
    the first sample of the source row. *)
Lemma resample_identity_fails_wide :
  let src := 1 :: 2 :: replicate (Z.to_nat 65534) 2 in
  let dst := replicate (Z.to_nat 65536) 0 in
  Z.of_nat (length src) = 65536 * 1 /\
  exists dst',
    FastImage.resampleNearestNeighborLuma src 65536 1 dst 65536 1 = Some dst' /\
    FastImage.load dst' 1 = Some 1 /\ FastImage.load src 1 = Some 2 /\
    ~ (forall i, 0 <= i < 65536 * 1 ->
         FastImage.load dst' i = FastImage.load src i).
Proof.
  intros src dst.
  assert (Hls : Z.of_nat (length src) = 65536 * 1).
  { unfold src. rewrite !length_cons, length_replicate. lia. }
  assert (Hld : Z.of_nat (length dst) = 65536).
  { unfold dst. rewrite length_replicate. lia. }
  assert (Hidx : forall x y : nat, Z.of_nat y < 1 ->
            FastImage.nnSrcIndex 65536 1 65536 1 x y = 0).
  { intros x y Hy. assert (y = 0%nat) as -> by lia.
    unfold FastImage.nnSrcIndex.
    change (FastImage.fxDelta 65536 65536) with 0.
    rewrite (accum_wrap 0 x), Z.mul_0_r. reflexivity. }
  split; [exact Hls|].
  destruct (resampleNearestNeighbor_spec src dst 65536 1 65536 1)
    as (dst' & Hrun & _ & Hpix & _); try lia.
  { unfold INT_MAX. lia. }
  { intros x y Hx Hy. rewrite Hidx by lia. by eexists. }
  specialize (Hpix 1%nat 0%nat ltac:(lia) ltac:(lia)).
  rewrite Hidx in Hpix by lia.
  assert (Hp1 : FastImage.load dst' 1 = Some 1) by exact Hpix.
  exists dst'. split; [exact Hrun|]. split; [exact Hp1|].
  split; [reflexivity|].
  intros Hall. specialize (Hall 1 ltac:(lia)).
  discriminate (eq_trans (eq_sym Hp1) Hall).
Qed.

Lemma resample_identity_witness :
  exists dst',
    FastImage.resampleNearestNeighborLuma [1; 2; 3; 4; 5; 6] 3 2
      [0; 0; 0; 0; 0; 0] 3 2 = Some dst' /\
    take 6 dst' = [1; 2; 3; 4; 5; 6].
Proof.
  destruct (resample_identity 3 2 ltac:(lia) ltac:(lia)) as [HL _].
  destruct (HL [1; 2; 3; 4; 5; 6] [0; 0; 0; 0; 0; 0])
    as (dst' & Hrun & _ & _ & Htake).
  - reflexivity.
  - cbn. lia.
  - exists dst'. split; [exact Hrun | exact Htake].
Defined.

(** *** The box-average downsample never divides by zero within 16.16 *)

Section Lerp.
Import FastImage.

Lemma mul_int_u32_small a u :
  0 <= a -> 0 <= u -> a * u <= INT_MAX -> a <= UINT32_MAX ->
  mul_int_u32 a u = a * u.
Proof.
  intros Ha Hu Hm Hau. unfold mul_int_u32.
  rewrite (wrap_u32_small a) by lia.
  rewrite wrap_u32_small by (unfold UINT32_MAX, INT_MAX in *; nia).
  apply wrap_i32_small. unfold INT_MIN, INT_MAX in *. nia.
Qed.

(** The sum over the source rectangle reads inside the source. *)
Lemma lerp_sum_defined (src : list LumaSample) srcWidth srcHeight x0 x1 y0 y1 :
  1 <= srcWidth <= 32767 -> 1 <= srcHeight <= 32767 ->
  Z.of_nat (length src) = srcWidth * srcHeight ->
  0 <= x0 -> x1 <= srcWidth -> 0 <= y0 -> y1 <= srcHeight ->
  exists pix,
    for_loop (Z.to_nat (y1 - y0)) y0 (fun y pix =>
      for_loop (Z.to_nat (x1 - x0)) x0 (fun x pix =>
        v ← load src (wrap_i32 (mul_int_u32 y srcWidth + x));
        Some (wrap_i32 (pix + v))) pix) 0 = Some pix.
Proof.
  intros HW HH Hlen Hx0 Hx1 Hy0 Hy1.
  assert (Hm : srcWidth * srcHeight <= 32767 * 32767) by nia.
  destruct (for_loop_inv (fun _ (_ : Z) => True) (Z.to_nat (y1 - y0)) y0
    (fun y pix =>
      for_loop (Z.to_nat (x1 - x0)) x0 (fun x pix =>
        v ← load src (wrap_i32 (mul_int_u32 y srcWidth + x));
        Some (wrap_i32 (pix + v))) pix) 0) as (pix & Hrun & _); [done| |by eexists].
  intros ky p Hky _.
  set (y := y0 + Z.of_nat ky).
  assert (Hy : 0 <= y < srcHeight) by lia.
  rewrite mul_int_u32_small by (unfold INT_MAX, UINT32_MAX; nia).
  destruct (for_loop_inv (fun _ (_ : Z) => True) (Z.to_nat (x1 - x0)) x0
    (fun x pix =>
        v ← load src (wrap_i32 (y * srcWidth + x));
        Some (wrap_i32 (pix + v))) p) as (p' & Hrun' & _); [done| |by eexists].
  intros kx q Hkx _.
  set (x := x0 + Z.of_nat kx).
  assert (Hx : 0 <= x < srcWidth) by lia.
  rewrite wrap_i32_small by (unfold INT_MIN, INT_MAX; nia).
  destruct (load_Some src (y * srcWidth + x) ltac:(nia)) as [v ->].
  cbn. by eexists.
Qed.

Lemma resampleLerpFastLuma_defined (src dst : list LumaSample)
    srcWidth srcHeight dstWidth dstHeight :
  1 <= dstWidth <= srcWidth -> srcWidth <= 32767 ->
  1 <= dstHeight <= srcHeight -> srcHeight <= 32767 ->
  Z.of_nat (length src) = srcWidth * srcHeight ->
  dstWidth * dstHeight <= Z.of_nat (length dst) ->
  exists dst',
    resampleLerpFastLuma src srcWidth srcHeight dst dstWidth dstHeight = Some dst' /\
    length dst' = length dst.
Proof.
  intros Hw Hsw Hh Hsh Hsrc Hroom.
  assert (Hm : dstWidth * dstHeight <= 32767 * 32767) by nia.
  unfold resampleLerpFastLuma.
  destruct (Z.eqb_spec dstWidth 0); [lia|].
  destruct (Z.eqb_spec dstHeight 0); [lia|]. cbn [orb].
  unfold trip_count.
  rewrite !wrap_i32_small by (unfold INT_MIN, INT_MAX in *; lia).
  set (dx := fxDelta srcWidth dstWidth).
  set (dy := fxDelta srcHeight dstHeight).
  apply (for_accum_inv (fun _ d => length d = length dst)); [done|].
  intros ky d Hky Hd. cbv zeta.
  apply (for_accum_inv (fun _ d' => length d' = length dst)); [done|].
  intros kx d' Hkx Hd'.
  destruct (span_bounds srcWidth dstWidth kx Hw Hsw ltac:(lia)) as (Hx0 & Hx01 & Hx1).
  destruct (span_bounds srcHeight dstHeight ky Hh Hsh ltac:(lia)) as (Hy0 & Hy01 & Hy1).
  fold dx in Hx0, Hx01, Hx1. fold dy in Hy0, Hy01, Hy1.
  destruct (lerp_sum_defined src srcWidth srcHeight
              (Z.shiftr (accum dx kx) kFixedShift)
              (Z.shiftr (wrap_i32 (accum dx kx + dx)) kFixedShift)
              (Z.shiftr (accum dy ky) kFixedShift)
              (Z.shiftr (wrap_i32 (accum dy ky + dy)) kFixedShift))
    as (pix & ->); try lia.
  cbn [mbind option_bind].
  pose proof (lerpTot_positive srcWidth srcHeight dstWidth dstHeight kx ky
                Hw Hsw Hh Hsh ltac:(lia) ltac:(lia)) as Htot.
  fold dx dy in Htot.
  destruct (Z.eqb_spec (lerpTot dx dy (accum dy ky) (accum dx kx)) 0); [lia|].
  destruct (dstOffset_small dstWidth dstHeight (Z.of_nat kx) (Z.of_nat ky))
    as [-> Hrange]; try lia.
  { unfold INT_MAX. lia. }
  unfold LumaSample in *.
  rewrite store_Some by lia.
  eexists. split; [done|]. by rewrite length_insert.
Qed.

End Lerp.


(** C5 (as amended).  When scaling down, with source dimensions of at most
    32767 (those whose 16.16 fixed-point coordinates fit an [int]), the area
    that [resampleLerpFastLuma] divides by is at least 1 for every
    destination pixel; and on a source of [srcWidth * srcHeight] samples and
    a destination with room for the result the kernel returns: it meets no
    division by zero (and no access outside its arrays). *)
Theorem lerpArea_positive srcWidth srcHeight dstWidth dstHeight :
  1 <= dstWidth <= srcWidth -> srcWidth <= 32767 ->
  1 <= dstHeight <= srcHeight -> srcHeight <= 32767 ->
  (forall xDst yDst : nat,
     Z.of_nat xDst < dstWidth -> Z.of_nat yDst < dstHeight ->
     1 <= FastImage.lerpArea srcWidth srcHeight dstWidth dstHeight xDst yDst) /\
  (forall src dst : list FastImage.LumaSample,
     Z.of_nat (length src) = srcWidth * srcHeight ->
     dstWidth * dstHeight <= Z.of_nat (length dst) ->
     is_Some (FastImage.resampleLerpFastLuma src srcWidth srcHeight
                dst dstWidth dstHeight)).
Proof.
  intros Hw Hsw Hh Hsh. split.
  - intros xDst yDst Hx Hy. by apply lerpTot_positive.
  - intros src dst Hsrc Hroom.
    destruct (resampleLerpFastLuma_defined src dst srcWidth srcHeight
                dstWidth dstHeight) as (dst' & -> & _); try done.
Qed.

(** C5 as stated fails: a source of width 65536 makes [srcWidth << 16] wrap
    to 0, the step is 0 and so is the area; the kernel divides by zero. *)
Lemma lerpArea_zero_wide_source :
  FastImage.lerpArea 65536 1 1 1 0 0 = 0 /\
  ~ (1 <= FastImage.lerpArea 65536 1 1 1 0 0) /\
  forall src, FastImage.resampleLerpFastLuma src 65536 1 [0] 1 1 = None.
Proof.
  split; [reflexivity|]. split; [vm_compute; congruence|]. reflexivity.
Qed.

Lemma lerpArea_positive_witness :
  1 <= FastImage.lerpArea 4 4 2 2 1 1.
Proof.
  destruct (lerpArea_positive 4 4 2 2) as [H _]; [lia | lia | lia | lia |].
  apply (H 1%nat 1%nat); lia.
Defined.

(** *** rotate180 *)

Section Rotate.
Import FastImage.

(** One iteration of the inner loop exchanges the four samples at its four
    positions, pairwise and crosswise. *)
Lemma rotate180_swap_spec (buf : list LumaSample) width topLine botLine x xr :
  xr = wrap_u32 (wrap_u32 (width - x) - 1) ->
  0 <= topLine + x < Z.of_nat (length buf) ->
  0 <= topLine + xr < Z.of_nat (length buf) ->
  0 <= botLine + x < Z.of_nat (length buf) ->
  0 <= botLine + xr < Z.of_nat (length buf) ->
  topLine + x <> botLine + x ->
  exists buf',
    rotate180_swap width topLine botLine x buf = Some buf' /\
    length buf' = length buf /\
    forall i, load buf' i =
      if i =? botLine + xr then load buf (topLine + x)
      else if i =? botLine + x then load buf (topLine + xr)
      else if i =? topLine + xr then load buf (botLine + x)
      else if i =? topLine + x then load buf (botLine + xr)
      else load buf i.
Proof.
  intros Exr Ha Hb Hd Hc Hne. unfold rotate180_swap. rewrite <- Exr.
  destruct (load_Some buf _ Ha) as [ltmp El].
  destruct (load_Some buf _ Hb) as [rtmp Er].
  destruct (load_Some buf _ Hc) as [v1 E1].
  destruct (load_Some buf _ Hd) as [v2 E2].
  rewrite El, Er, E1. cbn. rewrite store_Some by done. cbn.
  rewrite load_insert by done.
  destruct (Z.eqb_spec (botLine + x) (topLine + x)); [lia|].
  rewrite E2. cbn.
  rewrite store_Some by (rewrite length_insert; done). cbn.
  rewrite store_Some by (rewrite !length_insert; done). cbn.
  rewrite store_Some by (rewrite !length_insert; done).
  eexists. split; [done|]. split; [by rewrite !length_insert|].
  intros i.
  rewrite load_insert by (rewrite !length_insert; done).
  destruct (i =? botLine + xr); [done|].
  rewrite load_insert by (rewrite !length_insert; done).
  destruct (i =? botLine + x); [done|].
  rewrite load_insert by (rewrite !length_insert; done).
  destruct (i =? topLine + xr); [done|].
  rewrite load_insert by done.
  by destruct (i =? topLine + x).
Qed.

(** Pixel coordinates determine the sample index. *)
Lemma pixel_index_inj W x y x' y' :
  0 <= x < W -> 0 <= x' < W -> W * y + x = W * y' + x' -> x = x' /\ y = y'.
Proof.
  intros Hx Hx' E.
  destruct (Z.lt_trichotomy y y') as [Hlt|[->|Hgt]]; [nia|lia|nia].
Qed.

Section Invariants.
Variables (buf : list LumaSample) (W H : Z).

Local Abbreviation rows := (rot180_rows H) (only parsing).
Local Abbreviation cols := (rot180_cols W) (only parsing).
Local Abbreviation rot_state := (rot180_state buf W H) (only parsing).

Hypothesis HW : 1 <= W.
Hypothesis HH : 1 <= H.
Hypothesis Hfit : W * H <= UINT32_MAX.
Hypothesis Hlen : Z.of_nat (length buf) = W * H.

Lemma rotate180_row (k : nat) (b0 : list LumaSample) :
  Z.of_nat k < H / 2 ->
  rot_state (fun x y => rows (Z.of_nat k) y /\ cols x) b0 ->
  exists b',
    for_loop (Z.to_nat (W / 2)) 0
      (rotate180_swap W (wrap_u32 (W * Z.of_nat k))
         (wrap_u32 (W * wrap_u32 (wrap_u32 (H - Z.of_nat k) - 1)))) b0 = Some b' /\
    rot_state (fun x y => rows (Z.of_nat (S k)) y /\ cols x) b'.
Proof.
  intros Hk Hb0.
  pose proof (Z.div_mod W 2 ltac:(lia)) as HdW.
  pose proof (Z.mod_pos_bound W 2 ltac:(lia)) as HmW.
  pose proof (Z.div_mod H 2 ltac:(lia)) as HdH.
  pose proof (Z.mod_pos_bound H 2 ltac:(lia)) as HmH.
  set (hW := W / 2) in *. set (hH := H / 2) in *.
  set (zk := Z.of_nat k) in *.
  assert (Hk0 : 0 <= zk) by lia.
  unfold UINT32_MAX in Hfit.
  assert (Etop : wrap_u32 (W * zk) = W * zk).
  { apply wrap_u32_small. unfold UINT32_MAX. nia. }
  assert (Ebot : wrap_u32 (W * wrap_u32 (wrap_u32 (H - zk) - 1)) = W * (H - 1 - zk)).
  { rewrite (wrap_u32_small (H - zk)) by (unfold UINT32_MAX; nia).
    rewrite (wrap_u32_small (H - zk - 1)) by (unfold UINT32_MAX; nia).
    rewrite wrap_u32_small by (unfold UINT32_MAX; nia). f_equal. lia. }
  rewrite Etop, Ebot.
  pose (InvI := fun (j : nat) (b : list LumaSample) =>
    rot_state (fun x y => (rows zk y /\ cols x) \/
                          ((y = zk \/ y = H - 1 - zk) /\
                           (x < Z.of_nat j \/ W - Z.of_nat j <= x))) b).
  destruct (for_loop_inv InvI (Z.to_nat hW) 0
              (rotate180_swap W (W * zk) (W * (H - 1 - zk))) b0)
    as (b' & Hrun & Hl' & Hp').
  - destruct Hb0 as [Hl0 Hp0]. split; [done|].
    intros x y Hx Hy. destruct (Hp0 x y Hx Hy) as [Hm Hn].
    split; intros Hc.
    + apply Hm. unfold rot180_rows, rot180_cols in *. lia.
    + apply Hn. unfold rot180_rows, rot180_cols in *. lia.
  - intros j b Hj [Hl Hp]. rewrite Z.add_0_l.
    set (zj := Z.of_nat j) in *.
    assert (Hj' : 0 <= zj < hW) by lia.
    assert (Exr : W - zj - 1 = wrap_u32 (wrap_u32 (W - zj) - 1)).
    { rewrite (wrap_u32_small (W - zj)) by (unfold UINT32_MAX; nia).
      rewrite wrap_u32_small by (unfold UINT32_MAX; nia). done. }
    assert (Hlb : Z.of_nat (length b) = W * H) by lia.
    destruct (rotate180_swap_spec b W (W * zk) (W * (H - 1 - zk)) zj (W - zj - 1))
      as (b1 & Hsw & Hl1 & Hld); try done; try nia.
    exists b1. split; [done|]. split; [lia|].
    intros x y Hx Hy. rewrite Hld.
    destruct (Z.eqb_spec (W * y + x) (W * (H - 1 - zk) + (W - zj - 1))) as [E1|N1].
    { apply pixel_index_inj in E1 as [-> ->]; [|lia|lia].
      destruct (Hp zj zk ltac:(lia) ltac:(lia)) as [_ ->].
      - split; intros Hc; [f_equal; lia|]. exfalso. apply Hc. lia.
      - unfold rot180_rows, rot180_cols. lia. }
    destruct (Z.eqb_spec (W * y + x) (W * (H - 1 - zk) + zj)) as [E2|N2].
    { apply pixel_index_inj in E2 as [-> ->]; [|lia|lia].
      destruct (Hp (W - zj - 1) zk ltac:(lia) ltac:(lia)) as [_ ->].
      - split; intros Hc; [f_equal; lia|]. exfalso. apply Hc. lia.
      - unfold rot180_rows, rot180_cols. lia. }
    destruct (Z.eqb_spec (W * y + x) (W * zk + (W - zj - 1))) as [E3|N3].
    { apply pixel_index_inj in E3 as [-> ->]; [|lia|lia].
      destruct (Hp zj (H - 1 - zk) ltac:(lia) ltac:(lia)) as [_ ->].
      - split; intros Hc; [f_equal; lia|]. exfalso. apply Hc. lia.
      - unfold rot180_rows, rot180_cols. lia. }
    destruct (Z.eqb_spec (W * y + x) (W * zk + zj)) as [E4|N4].
    { apply pixel_index_inj in E4 as [-> ->]; [|lia|lia].
      destruct (Hp (W - zj - 1) (H - 1 - zk) ltac:(lia) ltac:(lia)) as [_ ->].
      - split; intros Hc; [f_equal; lia|]. exfalso. apply Hc. lia.
      - unfold rot180_rows, rot180_cols. lia. }
    destruct (Hp x y Hx Hy) as [Hm Hn].
    assert (Hnot : ~ ((y = zk \/ y = H - 1 - zk) /\ (x = zj \/ x = W - zj - 1))).
    { intros [[->| ->] [->| ->]]; lia. }
    split; intros Hc.
    + apply Hm. unfold rot180_rows, rot180_cols in *. lia.
    + apply Hn. unfold rot180_rows, rot180_cols in *. lia.
  - exists b'. split; [done|]. split; [done|].
    intros x y Hx Hy. destruct (Hp' x y Hx Hy) as [Hm Hn].
    split; intros Hc.
    + apply Hm. unfold rot180_rows, rot180_cols in *. lia.
    + apply Hn. unfold rot180_rows, rot180_cols in *. lia.
Qed.

(** The whole of [rotate180]: it returns, and it has exchanged each moved
    pixel with the opposite one. *)
Lemma rotate180_spec :
  exists buf',
    rotate180 buf W H = Some buf' /\
    rot_state (rot180_moved W H) buf'.
Proof.
  unfold rotate180.
  pose (InvO := fun (k : nat) (b : list LumaSample) =>
    rot_state (fun x y => rows (Z.of_nat k) y /\ cols x) b).
  destruct (for_loop_inv InvO (Z.to_nat (H / 2)) 0
    (fun y buffer =>
       for_loop (Z.to_nat (W / 2)) 0
         (rotate180_swap W (wrap_u32 (W * y))
            (wrap_u32 (W * wrap_u32 (wrap_u32 (H - y) - 1)))) buffer) buf)
    as (b' & Hrun & Hl' & Hp').
  - split; [done|]. intros x y Hx Hy. split; intros Hc; [|done].
    unfold rot180_rows in Hc. lia.
  - intros k b Hk Hb. rewrite Z.add_0_l.
    apply rotate180_row; [|done].
    pose proof (Z.div_pos H 2 ltac:(lia) ltac:(lia)). lia.
  - exists b'. split; [done|]. split; [done|].
    pose proof (Z.div_pos H 2 ltac:(lia) ltac:(lia)).
    intros x y Hx Hy. destruct (Hp' x y Hx Hy) as [Hm Hn].
    rewrite Z2Nat.id in Hm, Hn by lia.
    split; intros Hc.
    + apply Hm. exact Hc.
    + apply Hn. exact Hc.
Qed.

End Invariants.

Lemma sample_index W H i :
  1 <= W -> 0 <= i < W * H ->
  i = W * (i / W) + i mod W /\ 0 <= i mod W < W /\ 0 <= i / W < H.
Proof.
  intros HW Hi.
  pose proof (Z.div_mod i W ltac:(lia)).
  pose proof (Z.mod_pos_bound i W ltac:(lia)).
  split; [done|]. split; [done|]. split.
  - apply Z.div_pos; lia.
  - apply Z.div_lt_upper_bound; lia.
Qed.

Lemma load_outside {A} (b : list A) i :
  ~ (0 <= i < Z.of_nat (length b)) -> load b i = None.
Proof.
  intros Hi. destruct (load b i) eqn:E; [|done].
  exfalso. apply Hi. apply load_Some_inv. by eexists.
Qed.

End Rotate.

(** X19.  With even dimensions every pixel is moved, and the result is the
    image turned by 180 degrees. *)
Lemma rotate180_even (buf : list FastImage.LumaSample) W H :
  1 <= W -> 1 <= H -> W mod 2 = 0 -> H mod 2 = 0 ->
  W * H <= UINT32_MAX -> Z.of_nat (length buf) = W * H ->
  FastImage.rotate180 buf W H = Some (FastImage.turned180 buf).
Proof.
  intros HW HH HeW HeH Hfit Hlen.
  destruct (rotate180_spec buf W H HW HH Hfit Hlen) as (b1 & -> & Hl1 & Hp1).
  f_equal. apply load_ext. intros i.
  unfold FastImage.turned180.
  destruct (Z_lt_dec i 0) as [Hneg|Hpos].
  { rewrite !load_outside by (rewrite ?length_reverse; lia). done. }
  destruct (Z_lt_dec i (W * H)) as [Hin|Hout].
  2: { rewrite !load_outside by (rewrite ?length_reverse; lia). done. }
  destruct (sample_index W H i HW ltac:(lia)) as (Ei & Hx & Hy).
  set (x := i mod W) in *. set (y := i / W) in *.
  pose proof (Z.div_mod W 2 ltac:(lia)) as HdW.
  pose proof (Z.div_mod H 2 ltac:(lia)) as HdH.
  destruct (Hp1 x y Hx Hy) as [Hm _].
  rewrite Ei at 1. rewrite Hm.
  2: { unfold FastImage.rot180_moved, FastImage.rot180_rows,
         FastImage.rot180_cols. lia. }
  unfold FastImage.load.
  destruct (Z.leb_spec 0 (W * (H - 1 - y) + (W - 1 - x))); [|nia].
  destruct (Z.leb_spec 0 i); [|lia].
  rewrite reverse_lookup by lia. f_equal. nia.
Qed.

(** C6 (as amended).  For [width >= 1], [height >= 1] (odd dimensions and
    1x1 included) with [width * height] a sample count that an [uint32_t]
    holds, the range of the function's index arithmetic, and a buffer of
    [width * height] samples, [rotate180] applied twice returns the original
    buffer. *)
Theorem rotate180_involution (buf : list FastImage.LumaSample) W H :
  1 <= W -> 1 <= H -> W * H <= UINT32_MAX ->
  Z.of_nat (length buf) = W * H ->
  (FastImage.rotate180 buf W H ≫= fun buf' => FastImage.rotate180 buf' W H)
  = Some buf.
Proof.
  intros HW HH Hfit Hlen.
  destruct (rotate180_spec buf W H HW HH Hfit Hlen) as (b1 & Hr1 & Hl1 & Hp1).
  destruct (rotate180_spec b1 W H HW HH Hfit ltac:(lia)) as (b2 & Hr2 & Hl2 & Hp2).
  rewrite Hr1. cbn. rewrite Hr2. f_equal.
  apply load_ext. intros i.
  destruct (Z_lt_dec i 0) as [Hneg|Hpos].
  { rewrite !load_outside by lia. done. }
  destruct (Z_lt_dec i (W * H)) as [Hin|Hout].
  2: { rewrite !load_outside by lia. done. }
  destruct (sample_index W H i HW ltac:(lia)) as (Ei & Hx & Hy).
  set (x := i mod W) in *. set (y := i / W) in *. rewrite Ei.
  pose proof (Z.div_mod W 2 ltac:(lia)) as HdW.
  pose proof (Z.mod_pos_bound W 2 ltac:(lia)) as HmW.
  pose proof (Z.div_mod H 2 ltac:(lia)) as HdH.
  pose proof (Z.mod_pos_bound H 2 ltac:(lia)) as HmH.
  destruct (Hp2 x y Hx Hy) as [Hm2 Hn2].
  assert (Hdec : FastImage.rot180_moved W H x y \/ ~ FastImage.rot180_moved W H x y).
  { unfold FastImage.rot180_moved, FastImage.rot180_rows, FastImage.rot180_cols. lia. }
  destruct Hdec as [Hmv|Hnm].
  - rewrite Hm2 by done.
    destruct (Hp1 (W - 1 - x) (H - 1 - y) ltac:(lia) ltac:(lia)) as [Hm1 _].
    rewrite Hm1.
    + f_equal. lia.
    + unfold FastImage.rot180_moved, FastImage.rot180_rows,
        FastImage.rot180_cols in *. lia.
  - rewrite Hn2 by done.
    destruct (Hp1 x y Hx Hy) as [_ Hn1]. by apply Hn1.
Qed.

Lemma rotate180_involution_witness :
  (FastImage.rotate180 [1; 2; 3; 4; 5; 6; 7; 8; 9] 3 3
     ≫= fun buf' => FastImage.rotate180 buf' 3 3)
  = Some [1; 2; 3; 4; 5; 6; 7; 8; 9].
Proof.
  apply (rotate180_involution [1; 2; 3; 4; 5; 6; 7; 8; 9] 3 3);
    [lia | lia | unfold UINT32_MAX; lia | reflexivity].
Defined.

(** *** Beyond the range of the index arithmetic *)

Section RotateWrapped.
Import FastImage.

(** A sample followed through the inner loop: [pos k] is its offset after
    [k] iterations. *)
Lemma swap_loop_track (buf : list LumaSample) W t b (n : nat) (pos : nat -> Z) :
  0 <= t -> 0 <= b -> t <> b -> 1 <= W <= UINT32_MAX ->
  Z.of_nat n <= W / 2 ->
  t + W <= Z.of_nat (length buf) -> b + W <= Z.of_nat (length buf) ->
  (forall k : nat, (k < n)%nat ->
     swap_origin W t b (Z.of_nat k) (pos (S k)) = pos k) ->
  exists buf',
    for_loop n 0 (rotate180_swap W t b) buf = Some buf' /\
    length buf' = length buf /\
    load buf' (pos n) = load buf (pos 0%nat).
Proof.
  intros Ht Hb Htb HW Hn Hlt Hlb Hpos.
  pose proof (Z.div_mod W 2 ltac:(lia)) as HdW.
  pose proof (Z.mod_pos_bound W 2 ltac:(lia)) as HmW.
  apply (for_loop_inv (fun k s =>
    length s = length buf /\ load s (pos k) = load buf (pos 0%nat))); [done|].
  intros k s Hk [Hl Hp]. rewrite Z.add_0_l.
  set (x := Z.of_nat k).
  assert (Hx : 0 <= x < W / 2) by lia.
  assert (Exr : W - 1 - x = wrap_u32 (wrap_u32 (W - x) - 1)).
  { unfold UINT32_MAX in HW.
    rewrite (wrap_u32_small (W - x)) by (unfold UINT32_MAX; lia).
    rewrite wrap_u32_small by (unfold UINT32_MAX; lia). lia. }
  destruct (rotate180_swap_spec s W t b x (W - 1 - x) Exr)
    as (s' & Hrun & Hl' & Hload); try lia.
  exists s'. split; [done|]. split; [lia|].
  rewrite Hload, <- Hp, <- (Hpos k Hk). unfold swap_origin. fold x.
  repeat match goal with
  | |- context [Z.eqb ?a ?c] => destruct (Z.eqb a c)
  end; done.
Qed.

(** Decides which of the four positions of an iteration an offset is. *)
Ltac decide_positions :=
  repeat match goal with
  | |- context [Nat.leb ?a ?c] => destruct (Nat.leb_spec a c)
  | |- context [Nat.eqb ?a ?c] => destruct (Nat.eqb_spec a c)
  end;
  repeat match goal with
  | |- context [Z.eqb ?a ?c] => destruct (Z.eqb_spec a c)
  end; lia.

(** One call on an image of width 2^31 - 1 and height 4: the offset
    [width * 3] of the last row wraps to [width - 2]. *)
Lemma rotate180_wrapped (buf : list LumaSample) W :
  W = 2 ^ 31 - 1 ->
  Z.of_nat (length buf) = W * 4 ->
  exists buf',
    rotate180 buf W 4 = Some buf' /\
    length buf' = length buf /\
    load buf' (2 * W + 2) = load buf 0 /\
    load buf' (2 * W - 3) = load buf (2 * W + 2).
Proof.
  intros HW Hlen.
  assert (Eb0 : wrap_u32 (W * wrap_u32 (wrap_u32 (4 - 0) - 1)) = W - 2)
    by (rewrite HW; reflexivity).
  assert (Et1 : wrap_u32 (W * (0 + 1)) = W) by (rewrite HW; reflexivity).
  assert (Eb1 : wrap_u32 (W * wrap_u32 (wrap_u32 (4 - (0 + 1)) - 1)) = 2 * W)
    by (rewrite HW; reflexivity).
  assert (Et0 : wrap_u32 (W * 0) = 0) by (by rewrite Z.mul_0_r).
  unfold rotate180. change (Z.to_nat (4 / 2)) with 2%nat.
  cbn [for_loop]. rewrite Et0, Eb0, Et1, Eb1.
  set (n := Z.to_nat (W / 2)).
  assert (Hh : W / 2 = 1073741823).
  { rewrite HW. reflexivity. }
  assert (Hn : Z.of_nat n = W / 2).
  { unfold n. apply Z2Nat.id. lia. }
  assert (HW' : W = 2147483647) by (rewrite HW; reflexivity).
  assert (Hn3 : (3 <= n)%nat) by lia.
  (* the first iteration of the outer loop *)
  destruct (swap_loop_track buf W 0 (W - 2) n
              (fun k => if Nat.eqb k 0 then 0 else 2 * W - 3))
    as (s1 & Hs1 & Hl1 & Ha1); try (unfold UINT32_MAX; lia).
  { intros k Hk. unfold swap_origin. cbv zeta.
    change (Nat.eqb (S k) 0) with false. cbv iota. decide_positions. }
  destruct (swap_loop_track buf W 0 (W - 2) n (fun _ => 2 * W + 2))
    as (s1' & Hs1' & _ & Hb1); try (unfold UINT32_MAX; lia).
  { intros k Hk. unfold swap_origin. cbv zeta. decide_positions. }
  rewrite Hs1 in Hs1'. injection Hs1' as <-.
  rewrite Hs1. cbn [mbind option_bind].
  (* the second iteration *)
  destruct (swap_loop_track s1 W W (2 * W) n
              (fun k => if Nat.leb k 2 then 2 * W - 3 else 2 * W + 2))
    as (s2 & Hs2 & Hl2 & Ha2); try (unfold UINT32_MAX; lia).
  { intros k Hk. unfold swap_origin. cbv zeta. decide_positions. }
  destruct (swap_loop_track s1 W W (2 * W) n
              (fun k => if Nat.leb k 2 then 2 * W + 2 else 2 * W - 3))
    as (s2' & Hs2' & _ & Hb2); try (unfold UINT32_MAX; lia).
  { intros k Hk. unfold swap_origin. cbv zeta. decide_positions. }
  rewrite Hs2 in Hs2'. injection Hs2' as <-.
  rewrite Hs2. cbn [mbind option_bind].
  exists s2. split; [done|]. split; [lia|].
  cbv beta in Ha1, Hb1, Ha2, Hb2.
  destruct (Nat.eqb_spec n 0) as [|_]; [lia|].
  destruct (Nat.leb_spec n 2) as [|_]; [lia|].
  change (Nat.leb 0 2) with true in Ha2, Hb2.
  change (Nat.eqb 0 0) with true in Ha1. cbv iota in Ha1, Ha2, Hb2.
  split.
  - by rewrite Ha2, Ha1.
  - by rewrite Hb2, Hb1.
Qed.

(** Two calls bring the first sample to index [2 * width - 3]. *)
Lemma rotate180_twice_wrapped (buf : list LumaSample) W :
  W = 2 ^ 31 - 1 ->
  Z.of_nat (length buf) = W * 4 ->
  exists buf'',
    (rotate180 buf W 4 ≫= fun buf' => rotate180 buf' W 4) = Some buf'' /\
    load buf'' (2 * W - 3) = load buf 0.
Proof.
  intros HW Hlen.
  destruct (rotate180_wrapped buf W HW Hlen) as (b1 & Hr1 & Hl1 & Ha1 & _).
  destruct (rotate180_wrapped b1 W HW ltac:(lia)) as (b2 & Hr2 & _ & _ & Hb2).
  exists b2. rewrite Hr1. cbn [mbind option_bind]. split; [done|].
  by rewrite Hb2, Ha1.
Qed.

(** The buffer [1, 0, 0, ...]. *)
Lemma load_head_replicate (n : nat) i :
  load (1 :: replicate n 0) 0 = Some 1 /\
  (1 <= i <= Z.of_nat n -> load (1 :: replicate n 0) i = Some 0).
Proof.
  split; [done|]. intros Hi. unfold load.
  destruct (Z.leb_spec 0 i); [|lia].
  replace (Z.to_nat i) with (S (Z.to_nat (i - 1))) by lia.
  change ((1 :: replicate n 0) !! S (Z.to_nat (i - 1)))
    with (replicate n 0 !! Z.to_nat (i - 1)).
  apply lookup_replicate_2. lia.
Qed.

End RotateWrapped.

(** C6 as stated fails: on an image of width 2^31 - 1 and height 4, a
    buffer of 8589934588 samples, the offset [width * 3] of the last row
    wraps to [width - 2] in [uint32_t]; the first call leaves the sample of
    offset 0 at offset [2 * width + 2] and the second leaves it at offset
    [2 * width - 3].  With a first sample 1 and all others 0 the buffer is
    not restored. *)
Lemma rotate180_not_involution_wide :
  let W := 2147483647 in
  let H := 4 in
  let buf := 1 :: replicate (Z.to_nat (W * H - 1)) 0 in
  1 <= W /\ 1 <= H /\ Z.of_nat (length buf) = W * H /\
  (FastImage.rotate180 buf W H ≫= fun buf' => FastImage.rotate180 buf' W H)
  <> Some buf.
Proof.
  intros W H buf.
  assert (HW : W = 2147483647) by reflexivity.
  assert (HH : H = 4) by reflexivity.
  assert (Hlen : Z.of_nat (length buf) = W * H).
  { unfold buf. cbn [length]. rewrite length_replicate, Nat2Z.inj_succ.
    rewrite Z2Nat.id by lia. lia. }
  split; [lia|]. split; [lia|]. split; [exact Hlen|].
  destruct (rotate180_twice_wrapped buf W eq_refl Hlen) as (b2 & Hrun & Hload).
  intros E. pose proof (eq_trans (eq_sym Hrun) E) as E2. injection E2 as E3.
  subst b2.
  destruct (load_head_replicate (Z.to_nat (W * H - 1)) (2 * W - 3)) as [H0 H1].
  assert (Hr : 1 <= 2 * W - 3 <= Z.of_nat (Z.to_nat (W * H - 1))).
  { rewrite Z2Nat.id by lia. lia. }
  specialize (H1 Hr).
  pose proof (eq_trans (eq_sym H1) (eq_trans Hload H0)) as Habs.
  discriminate Habs.
Qed.

(** C2.  The loop over the rows stops before the middle row of an image of
    odd height: [rotate180] returns with every sample of row [height / 2]
    where it was, so that row is not reversed and the image is not the one
    turned by 180 degrees. *)
Theorem rotate180_middle_row_untouched (buf : list FastImage.LumaSample) W H :
  1 <= W -> 1 <= H -> H mod 2 = 1 -> W * H <= UINT32_MAX ->
  Z.of_nat (length buf) = W * H ->
  exists buf',
    FastImage.rotate180 buf W H = Some buf' /\
    forall x, 0 <= x < W ->
      FastImage.load buf' (W * (H / 2) + x) = FastImage.load buf (W * (H / 2) + x).
Proof.
  intros HW HH Hodd Hfit Hlen.
  destruct (rotate180_spec buf W H HW HH Hfit Hlen) as (b1 & Hr1 & Hl1 & Hp1).
  exists b1. split; [done|]. intros x Hx.
  pose proof (Z.div_mod H 2 ltac:(lia)) as HdH.
  destruct (Hp1 x (H / 2) Hx ltac:(lia)) as [_ Hn]. apply Hn.
  unfold FastImage.rot180_moved, FastImage.rot180_rows. lia.
Qed.

(** On a 2 by 3 image the middle row [3; 4] stays [3; 4], where the image
    turned by 180 degrees has [4; 3]. *)
Lemma rotate180_middle_row_untouched_witness :
  exists buf',
    FastImage.rotate180 [1; 2; 3; 4; 5; 6] 2 3 = Some buf' /\
    FastImage.load buf' 2 = Some 3 /\ FastImage.load buf' 3 = Some 4 /\
    FastImage.load (FastImage.turned180 [1; 2; 3; 4; 5; 6]) 2 = Some 4.
Proof.
  destruct (rotate180_middle_row_untouched [1; 2; 3; 4; 5; 6] 2 3)
    as (buf' & Hrun & Hrow);
    [lia | lia | reflexivity | unfold UINT32_MAX; lia | reflexivity |].
  exists buf'. split; [exact Hrun|].
  split; [exact (Hrow 0 ltac:(lia))|].
  split; [exact (Hrow 1 ltac:(lia))|reflexivity].
Defined.

Example rotate180_2x3 :
  FastImage.rotate180 [1; 2; 3; 4; 5; 6] 2 3 = Some [6; 5; 3; 4; 2; 1] /\
  FastImage.turned180 [1; 2; 3; 4; 5; 6] = [6; 5; 4; 3; 2; 1].
Proof. split; reflexivity. Qed.

(** *** The kernels on small images *)

Example resampleNearestNeighbor_upscale :
  FastImage.resampleNearestNeighborLuma [1; 2; 3; 4] 2 2 (replicate 16 0) 4 4
  = Some [1; 1; 2; 2; 1; 1; 2; 2; 3; 3; 4; 4; 3; 3; 4; 4].
Proof. reflexivity. Qed.

Example resampleLerpFastLuma_uniform :
  FastImage.resampleLerpFastLuma [7; 7; 7; 7] 2 2 [0] 1 1 = Some [7].
Proof. reflexivity. Qed.

Example resampleLerpFastLuma_checkerboard :
  FastImage.resampleLerpFastLuma [0; 255; 0; 255] 2 2 [0] 1 1 = Some [127].
Proof. reflexivity. Qed.

(** Upscaling, the source rectangle of a pixel can be empty. *)
Example resampleLerpFastLuma_upscale :
  FastImage.resampleLerpFastLuma [1; 2; 3; 4] 2 2 (replicate 16 0) 4 4 = None /\
  FastImage.lerpArea 2 2 4 4 0 0 = 0.
Proof. split; reflexivity. Qed.

Example rotate180_3x3 :
  FastImage.rotate180 [1; 2; 3; 4; 5; 6; 7; 8; 9] 3 3
  = Some [9; 2; 7; 4; 5; 6; 3; 8; 1].
Proof. reflexivity. Qed.

Example rotate180_4x2 :
  FastImage.rotate180 [1; 2; 3; 4; 5; 6; 7; 8] 4 2
  = Some (FastImage.turned180 [1; 2; 3; 4; 5; 6; 7; 8]).
Proof. reflexivity. Qed.

(* ===================================================================== *)
(** ** More on the pixel kernels and on the camera parameters *)
(* ===================================================================== *)

Section CopyLoops.
Import FastImage.
Context {A B : Type}.

(** *** Loops that fill [dst] sample by sample from [src]

    [for (i = 0; i < n; ++i) dst[i] = g(src[idx(i)])], when it stays inside
    both arrays. *)
Lemma copy_loop_spec (src : list A) (dst : list B) (idx : Z -> Z) (g : A -> B) n :
  Z.of_nat n <= Z.of_nat (length dst) ->
  (forall k : nat, (k < n)%nat -> 0 <= idx (Z.of_nat k) < Z.of_nat (length src)) ->
  exists dst',
    for_loop n 0 (fun i dst => v ← load src (idx i); store dst i (g v)) dst
      = Some dst' /\
    length dst' = length dst /\
    forall i, 0 <= i ->
      load dst' i = if i <? Z.of_nat n then g <$> load src (idx i) else load dst i.
Proof.
  intros Hroom Hidx.
  apply (for_loop_inv (fun k d =>
    length d = length dst /\
    forall i, 0 <= i ->
      load d i = if i <? Z.of_nat k then g <$> load src (idx i) else load dst i)).
  { split; [done|]. intros i Hi. destruct (Z.ltb_spec i (Z.of_nat 0)); [lia|done]. }
  intros k d Hk [Hlen Hpt]. rewrite Z.add_0_l.
  destruct (load_Some src (idx (Z.of_nat k)) (Hidx k Hk)) as [v Hv].
  rewrite Hv. cbn [mbind option_bind].
  rewrite store_Some by lia.
  eexists. split; [done|]. split; [by rewrite length_insert|].
  intros i Hi. rewrite load_insert by lia.
  destruct (Z.eqb_spec i (Z.of_nat k)) as [->|Ne].
  - destruct (Z.ltb_spec (Z.of_nat k) (Z.of_nat (S k))); [|lia]. by rewrite Hv.
  - rewrite (Hpt i Hi).
    destruct (Z.ltb_spec i (Z.of_nat k)); destruct (Z.ltb_spec i (Z.of_nat (S k)));
      (done || lia).
Qed.

(** Such a loop returns only if it stayed inside both arrays. *)
Lemma copy_loop_defined (src : list A) (idx : Z -> Z) (g : A -> B) n :
  forall first (dst : list B),
  0 <= first ->
  is_Some (for_loop n first
             (fun i dst => v ← load src (idx i); store dst i (g v)) dst) ->
  (n = 0%nat \/ first + Z.of_nat n <= Z.of_nat (length dst)) /\
  forall k : nat, (k < n)%nat ->
    0 <= idx (first + Z.of_nat k) < Z.of_nat (length src).
Proof.
  induction n as [|n IH]; intros first dst Hf Hs.
  { split; [by left|]. intros k Hk. lia. }
  cbn [for_loop] in Hs.
  destruct (load src (idx first)) as [v|] eqn:Hv.
  2: { by destruct Hs. }
  cbn [mbind option_bind] in Hs.
  unfold store in Hs.
  destruct (Z.leb_spec 0 first); [|lia].
  destruct (Z.ltb_spec first (Z.of_nat (length dst))) as [Hlt|Hge].
  2: { by destruct Hs. }
  cbn [andb mbind option_bind] in Hs.
  destruct (IH (first + 1) _ ltac:(lia) Hs) as [Hn Hi].
  rewrite length_insert in Hn. split; [right; lia|].
  intros k Hk. destruct k as [|k].
  - rewrite Z.add_0_r. apply load_Some_inv. by rewrite Hv.
  - replace (first + Z.of_nat (S k)) with (first + 1 + Z.of_nat k) by lia.
    apply Hi. lia.
Qed.

Lemma copy_loop_defined_iff (src : list A) (dst : list B) (idx : Z -> Z)
    (g : A -> B) n :
  is_Some (for_loop n 0 (fun i dst => v ← load src (idx i); store dst i (g v)) dst)
  <-> Z.of_nat n <= Z.of_nat (length dst) /\
      forall k : nat, (k < n)%nat -> 0 <= idx (Z.of_nat k) < Z.of_nat (length src).
Proof.
  split.
  - intros Hs. destruct (copy_loop_defined src idx g n 0 dst ltac:(lia) Hs) as [Hn Hi].
    split; [lia|]. intros k Hk. specialize (Hi k Hk). by rewrite Z.add_0_l in Hi.
  - intros [Hroom Hidx].
    destruct (copy_loop_spec src dst idx g n Hroom Hidx) as (dst' & -> & _). done.
Qed.

End CopyLoops.

Section CopyKernels.
Import FastImage.

Lemma wrap_u32_range z : 0 <= wrap_u32 z <= UINT32_MAX.
Proof.
  unfold wrap_u32, UINT32_MAX.
  pose proof (Z.mod_pos_bound z (2 ^ 32) ltac:(lia)). lia.
Qed.

(** A property of [uint8_t] values that holds for each of the 256. *)
Lemma byte_cases (P : Z -> bool) :
  forallb (fun n => P (Z.of_nat n)) (seq 0 256) = true ->
  forall v, 0 <= v <= 255 -> P v = true.
Proof.
  intros H v Hv. rewrite forallb_forall in H.
  specialize (H (Z.to_nat v)). rewrite Z2Nat.id in H by lia.
  apply H, in_seq. lia.
Qed.

Lemma lumaToColorPixel_grey v :
  0 <= v <= 255 -> lumaToColorPixel v = 65793 * v.
Proof.
  intros Hv. apply Z.eqb_eq.
  by apply (byte_cases (fun v => lumaToColorPixel v =? 65793 * v)).
Qed.

Lemma land_255 z : Z.land z 255 = z mod 256.
Proof. change 255 with (Z.ones 8). by rewrite Z.land_ones by lia. Qed.

Lemma colorToLumaPixel_max pix :
  colorToLumaPixel pix
  = Z.max ((pix / 65536) mod 256) (Z.max ((pix / 256) mod 256) (pix mod 256)) /\
  0 <= colorToLumaPixel pix <= 255.
Proof.
  unfold colorToLumaPixel, wrap_u8.
  rewrite !land_255, !Z.shiftr_div_pow2 by lia.
  change (2 ^ 16) with 65536. change (2 ^ 8) with 256.
  pose proof (Z.mod_pos_bound (pix / 65536) 256 ltac:(lia)).
  pose proof (Z.mod_pos_bound (pix / 256) 256 ltac:(lia)).
  pose proof (Z.mod_pos_bound pix 256 ltac:(lia)).
  rewrite Z.mod_small by lia. lia.
Qed.

Lemma colorToLumaPixel_grey v :
  0 <= v <= 255 -> colorToLumaPixel (lumaToColorPixel v) = v.
Proof.
  intros Hv. apply Z.eqb_eq.
  by apply (byte_cases (fun v => colorToLumaPixel (lumaToColorPixel v) =? v)).
Qed.

Lemma is_luma_load buf i v : is_luma buf -> load buf i = Some v -> 0 <= v <= 255.
Proof.
  intros Hb Hl. unfold load in Hl. destruct (0 <=? i); [|done].
  unfold is_luma in Hb. rewrite Forall_lookup in Hb. by apply (Hb _ _ Hl).
Qed.

(** X9.  For a sample count [width * height] (modulo 2^32) of at most 2^31,
    so that [i * 2 + 1] does not wrap: [copy2vuyToLuma] stays inside its
    arrays exactly when [src] has at least twice that many samples and
    [dst] at least that many; it then writes to [dst[i]] the odd-indexed
    sample [src[2 * i + 1]] for each [i] below the count and leaves the rest
    of [dst] alone. *)
Theorem copy2vuyToLuma_spec (src dst : list LumaSample) width height :
  let count := wrap_u32 (width * height) in
  count <= 2 ^ 31 ->
  (is_Some (copy2vuyToLuma src dst width height)
   <-> 2 * count <= Z.of_nat (length src) /\ count <= Z.of_nat (length dst)) /\
  (forall dst', copy2vuyToLuma src dst width height = Some dst' ->
     length dst' = length dst /\
     forall i, 0 <= i ->
       load dst' i = if i <? count then load src (2 * i + 1) else load dst i).
Proof.
  intros count Hc.
  pose proof (wrap_u32_range (width * height)) as Hr. fold count in Hr.
  assert (Hidx : forall i, 0 <= i < count -> wrap_u32 (wrap_u32 (i * 2) + 1) = 2 * i + 1).
  { intros i Hi. rewrite (wrap_u32_small (i * 2)) by (unfold UINT32_MAX; lia).
    rewrite wrap_u32_small by (unfold UINT32_MAX; lia). lia. }
  unfold copy2vuyToLuma. fold count. unfold LumaSample in *.
  assert (Hiff : is_Some (for_loop (Z.to_nat count) 0
                   (fun i d => v ← load src (wrap_u32 (wrap_u32 (i * 2) + 1));
                               store d i v) dst)
     <-> 2 * count <= Z.of_nat (length src) /\ count <= Z.of_nat (length dst)).
  { rewrite (copy_loop_defined_iff src dst
               (fun i => wrap_u32 (wrap_u32 (i * 2) + 1)) (fun v => v)).
    rewrite Z2Nat.id by lia. split.
    - intros [Hd Hs]. split; [|done].
      destruct (Z.eq_dec count 0) as [->|N]; [lia|].
      specialize (Hs (Z.to_nat (count - 1)) ltac:(lia)).
      rewrite Hidx in Hs by lia. lia.
    - intros [Hs Hd]. split; [done|]. intros k Hk. rewrite Hidx by lia. lia. }
  split; [exact Hiff|].
  intros dst' Hrun.
  destruct (proj1 Hiff (mk_is_Some _ _ Hrun)) as [Hs Hd].
  destruct (copy_loop_spec src dst (fun i => wrap_u32 (wrap_u32 (i * 2) + 1))
              (fun v => v) (Z.to_nat count)) as (d & Hrun' & Hlen & Hpt).
  { lia. }
  { intros k Hk. rewrite Hidx by lia. lia. }
  pose proof (eq_trans (eq_sym Hrun') Hrun) as E. injection E as ->.
  split; [done|]. intros i Hi. rewrite (Hpt i Hi), Z2Nat.id by lia.
  destruct (Z.ltb_spec i count); [|done].
  rewrite Hidx by lia. by destruct (load src (2 * i + 1)).
Qed.

(** X10.  [copyLumaToColor] stays inside its arrays exactly when both hold
    at least [width * height] (modulo 2^32) samples.  It then writes, for
    each [i] below that count, the grey pixel whose three colour bytes are
    the sample [src[i]] and whose top byte is 0, and leaves the rest of
    [dst] alone. *)
Theorem copyLumaToColor_spec (src : list LumaSample) (dst : list ColorSample)
    width height :
  let count := wrap_u32 (width * height) in
  (is_Some (copyLumaToColor src dst width height)
   <-> count <= Z.of_nat (length src) /\ count <= Z.of_nat (length dst)) /\
  (is_luma src ->
   forall dst', copyLumaToColor src dst width height = Some dst' ->
     length dst' = length dst /\
     forall i, 0 <= i ->
       load dst' i = if i <? count
                     then (fun v => 65536 * v + 256 * v + v) <$> load src i
                     else load dst i).
Proof.
  intros count.
  pose proof (wrap_u32_range (width * height)) as Hr. fold count in Hr.
  unfold copyLumaToColor. fold count. unfold LumaSample, ColorSample in *.
  assert (Hiff : is_Some (for_loop (Z.to_nat count) 0
                   (fun i d => v ← load src i; store d i (lumaToColorPixel v)) dst)
     <-> count <= Z.of_nat (length src) /\ count <= Z.of_nat (length dst)).
  { rewrite (copy_loop_defined_iff src dst (fun i => i) lumaToColorPixel).
    rewrite Z2Nat.id by lia. split.
    - intros [Hd Hs]. split; [|done].
      destruct (Z.eq_dec count 0) as [->|N]; [lia|].
      specialize (Hs (Z.to_nat (count - 1)) ltac:(lia)). lia.
    - intros [Hs Hd]. split; [done|]. intros k Hk. lia. }
  split; [exact Hiff|].
  intros Hluma dst' Hrun.
  destruct (proj1 Hiff (mk_is_Some _ _ Hrun)) as [Hs Hd].
  destruct (copy_loop_spec src dst (fun i => i) lumaToColorPixel (Z.to_nat count))
    as (d & Hrun' & Hlen & Hpt); [lia | intros; lia |].
  pose proof (eq_trans (eq_sym Hrun') Hrun) as E. injection E as ->.
  split; [done|]. intros i Hi. rewrite (Hpt i Hi), Z2Nat.id by lia.
  destruct (Z.ltb_spec i count); [|done].
  destruct (load src i) as [v|] eqn:Hv; [|done]. cbn.
  rewrite lumaToColorPixel_grey by (by eapply is_luma_load). f_equal. lia.
Qed.

(** X11.  [copyColorToLuma] stays inside its arrays exactly when both hold
    at least [width * height] (modulo 2^32) samples.  It then writes, for
    each [i] below that count, the largest of the three colour bytes of
    [src[i]] (the top byte plays no part, and the cast to [uint8_t] loses
    nothing), and leaves the rest of [dst] alone. *)
Theorem copyColorToLuma_spec (src : list ColorSample) (dst : list LumaSample)
    width height :
  let count := wrap_u32 (width * height) in
  (is_Some (copyColorToLuma src dst width height)
   <-> count <= Z.of_nat (length src) /\ count <= Z.of_nat (length dst)) /\
  (forall dst', copyColorToLuma src dst width height = Some dst' ->
     length dst' = length dst /\
     (is_luma dst -> is_luma dst') /\
     forall i, 0 <= i ->
       load dst' i =
       if i <? count
       then (fun pix => Z.max ((pix / 65536) mod 256)
                          (Z.max ((pix / 256) mod 256) (pix mod 256)))
            <$> load src i
       else load dst i).
Proof.
  intros count.
  pose proof (wrap_u32_range (width * height)) as Hr. fold count in Hr.
  unfold copyColorToLuma. fold count. unfold LumaSample, ColorSample in *.
  assert (Hiff : is_Some (for_loop (Z.to_nat count) 0
                   (fun i d => v ← load src i; store d i (colorToLumaPixel v)) dst)
     <-> count <= Z.of_nat (length src) /\ count <= Z.of_nat (length dst)).
  { rewrite (copy_loop_defined_iff src dst (fun i => i) colorToLumaPixel).
    rewrite Z2Nat.id by lia. split.
    - intros [Hd Hs]. split; [|done].
      destruct (Z.eq_dec count 0) as [->|N]; [lia|].
      specialize (Hs (Z.to_nat (count - 1)) ltac:(lia)). lia.
    - intros [Hs Hd]. split; [done|]. intros k Hk. lia. }
  split; [exact Hiff|].
  intros dst' Hrun.
  destruct (proj1 Hiff (mk_is_Some _ _ Hrun)) as [Hs Hd].
  destruct (copy_loop_spec src dst (fun i => i) colorToLumaPixel (Z.to_nat count))
    as (d & Hrun' & Hlen & Hpt); [lia | intros; lia |].
  pose proof (eq_trans (eq_sym Hrun') Hrun) as E. injection E as ->.
  assert (Hpt' : forall i, 0 <= i ->
    load dst' i =
    if i <? count
    then (fun pix => Z.max ((pix / 65536) mod 256)
                       (Z.max ((pix / 256) mod 256) (pix mod 256))) <$> load src i
    else load dst i).
  { intros i Hi. rewrite (Hpt i Hi), Z2Nat.id by lia.
    destruct (Z.ltb_spec i count); [|done].
    destruct (load src i) as [v|] eqn:Hv; [|done]. cbn.
    f_equal. apply colorToLumaPixel_max. }
  split; [done|]. split; [|done].
  intros Hl. unfold is_luma. rewrite Forall_lookup. intros n v Hn.
  assert (Hload : load dst' (Z.of_nat n) = Some v).
  { unfold load. destruct (Z.leb_spec 0 (Z.of_nat n)); [|lia]. by rewrite Nat2Z.id. }
  rewrite (Hpt (Z.of_nat n)), Z2Nat.id in Hload by lia.
  destruct (Z.of_nat n <? count).
  - destruct (load src (Z.of_nat n)) as [p|]; [|done]. cbn in Hload.
    injection Hload as <-. apply colorToLumaPixel_max.
  - by eapply is_luma_load.
Qed.

(** X12.  [copyLumaToColor] followed by [copyColorToLuma] gives back the
    luma samples: the first [width * height] samples of the result are those
    of the source. *)
Theorem luma_color_round_trip (src dst : list LumaSample) (col : list ColorSample)
    width height :
  let count := wrap_u32 (width * height) in
  is_luma src ->
  count <= Z.of_nat (length src) ->
  count <= Z.of_nat (length col) ->
  count <= Z.of_nat (length dst) ->
  exists col' dst',
    copyLumaToColor src col width height = Some col' /\
    copyColorToLuma col' dst width height = Some dst' /\
    length dst' = length dst /\
    forall i, 0 <= i ->
      load dst' i = if i <? count then load src i else load dst i.
Proof.
  intros count Hluma Hs Hc Hd.
  pose proof (wrap_u32_range (width * height)) as Hr. fold count in Hr.
  unfold copyLumaToColor, copyColorToLuma. fold count.
  unfold LumaSample, ColorSample in *.
  destruct (copy_loop_spec src col (fun i => i) lumaToColorPixel (Z.to_nat count))
    as (col' & Hrun1 & Hlen1 & Hpt1); [lia | intros; lia |].
  destruct (copy_loop_spec col' dst (fun i => i) colorToLumaPixel (Z.to_nat count))
    as (dst' & Hrun2 & Hlen2 & Hpt2); [lia | intros; lia |].
  exists col', dst'. split; [done|]. split; [done|]. split; [done|].
  intros i Hi. rewrite (Hpt2 i Hi), (Hpt1 i Hi), Z2Nat.id by lia.
  destruct (Z.ltb_spec i count); [|done].
  destruct (load src i) as [v|] eqn:Hv; [|done]. cbn.
  rewrite colorToLumaPixel_grey by (by eapply is_luma_load). done.
Qed.

End CopyKernels.

Section Scaling.
Import FastImage.

(** *** Whole-number scale factors

    Scaling down by a whole factor [n]: the step is exactly [n.0], the
    source coordinate of [k] is [n * k] and its span ends at [n * (k + 1)]. *)
Lemma coord_decimate srcDim dstDim n k :
  1 <= n -> 1 <= dstDim -> srcDim = n * dstDim -> srcDim <= 32767 ->
  Z.of_nat k < dstDim ->
  let d := fxDelta srcDim dstDim in
  d = n * 65536 /\
  accum d k = Z.of_nat k * (n * 65536) /\
  Z.shiftr (accum d k) kFixedShift = n * Z.of_nat k /\
  Z.shiftr (wrap_i32 (accum d k + d)) kFixedShift = n * (Z.of_nat k + 1).
Proof.
  intros Hn Hd Hs Hmax Hk d.
  destruct (fxDelta_small srcDim dstDim ltac:(nia) Hd) as (E & _ & _).
  destruct (coord_bounds srcDim dstDim k ltac:(nia) Hd Hk) as (Ha & _ & _).
  fold d in E, Ha.
  assert (Ed : d = n * 65536).
  { rewrite E, Hs. replace (n * dstDim * 65536) with (n * 65536 * dstDim) by lia.
    apply Z.div_mul. lia. }
  rewrite Ha, Ed. split; [done|]. split; [done|].
  rewrite wrap_i32_small by (unfold INT_MIN, INT_MAX; nia).
  rewrite !shiftr16. split.
  - replace (Z.of_nat k * (n * 65536)) with (n * Z.of_nat k * 65536) by lia.
    apply Z.div_mul. lia.
  - replace (Z.of_nat k * (n * 65536) + n * 65536)
      with (n * (Z.of_nat k + 1) * 65536) by lia.
    apply Z.div_mul. lia.
Qed.

(** Scaling up by a factor [n] that divides 65536: the step [1/n] is exact
    and the source coordinate of [k] is [k / n]. *)
Lemma coord_replicate srcDim dstDim n k :
  1 <= srcDim <= 32767 -> (n | 65536) -> 1 <= n -> dstDim = n * srcDim ->
  Z.of_nat k < dstDim ->
  Z.shiftr (accum (fxDelta srcDim dstDim) k) kFixedShift = Z.of_nat k / n.
Proof.
  intros Hs [q Hq] Hn Hd Hk.
  destruct (fxDelta_small srcDim dstDim ltac:(lia) ltac:(nia)) as (E & _ & _).
  destruct (coord_bounds srcDim dstDim k Hs ltac:(nia) Hk) as (Ha & _ & _).
  assert (Ed : fxDelta srcDim dstDim = q).
  { rewrite E, Hd, Hq.
    replace (srcDim * (q * n)) with (q * (n * srcDim)) by lia.
    apply Z.div_mul. nia. }
  rewrite Ha, Ed, shiftr16.
  replace 65536 with (n * q) by lia.
  apply Z.div_mul_cancel_r; nia.
Qed.

End Scaling.

Section NearestNeighbourScaling.
Import FastImage.
Context {A : Type}.

(** X13.  For a source of at most 32767 by 32767 samples and a destination
    of any size that fits an [int] (upscaling included), the
    nearest-neighbour kernels return: every destination pixel receives a
    sample read inside the source image, and nothing outside the destination
    image is written. *)
Theorem resampleNearestNeighbor_safe (src dst : list A)
    srcWidth srcHeight dstWidth dstHeight :
  1 <= srcWidth <= 32767 -> 1 <= srcHeight <= 32767 ->
  1 <= dstWidth -> 1 <= dstHeight ->
  dstWidth * dstHeight <= INT_MAX ->
  srcWidth * srcHeight <= Z.of_nat (length src) ->
  dstWidth * dstHeight <= Z.of_nat (length dst) ->
  exists dst',
    resampleNearestNeighbor src srcWidth srcHeight dst dstWidth dstHeight
      = Some dst' /\
    length dst' = length dst /\
    (forall j, ~ (0 <= j < dstWidth * dstHeight) -> load dst' j = load dst j) /\
    (forall x y, 0 <= x < dstWidth -> 0 <= y < dstHeight ->
       exists i v, 0 <= i < srcWidth * srcHeight /\
         load src i = Some v /\ load dst' (y * dstWidth + x) = Some v).
Proof.
  intros Hsw Hsh Hdw Hdh Hmax Hsrc Hroom.
  destruct (resampleNearestNeighbor_spec src dst srcWidth srcHeight dstWidth dstHeight)
    as (dst' & Hrun & Hlen & Hpix & Hout); try done.
  { intros x y Hx Hy.
    destruct (nnSrcIndex_small srcWidth srcHeight dstWidth dstHeight x y)
      as (_ & _ & E & Hr); try done.
    apply load_Some. rewrite E. lia. }
  exists dst'. split; [done|]. split; [done|]. split; [done|].
  intros x y Hx Hy.
  destruct (nnSrcIndex_small srcWidth srcHeight dstWidth dstHeight
              (Z.to_nat x) (Z.to_nat y)) as (_ & _ & E & Hr); try lia.
  rewrite <- E in Hr.
  destruct (load_Some src (nnSrcIndex srcWidth srcHeight dstWidth dstHeight
                             (Z.to_nat x) (Z.to_nat y)) ltac:(lia)) as [v Hv].
  exists (nnSrcIndex srcWidth srcHeight dstWidth dstHeight (Z.to_nat x) (Z.to_nat y)), v.
  split; [lia|]. split; [done|].
  specialize (Hpix (Z.to_nat x) (Z.to_nat y)).
  rewrite !Z2Nat.id in Hpix by lia. rewrite Hpix by lia. done.
Qed.

(** X14.  Scaling down by whole factors [n] and [m], the nearest-neighbour
    kernels keep every [n]-th sample of every [m]-th row: the destination
    pixel [(x, y)] is the source pixel [(n * x, m * y)]. *)
Theorem resampleNearestNeighbor_decimates (src dst : list A)
    dstWidth dstHeight n m :
  1 <= n -> 1 <= m -> 1 <= dstWidth -> 1 <= dstHeight ->
  n * dstWidth <= 32767 -> m * dstHeight <= 32767 ->
  (n * dstWidth) * (m * dstHeight) <= Z.of_nat (length src) ->
  dstWidth * dstHeight <= Z.of_nat (length dst) ->
  exists dst',
    resampleNearestNeighbor src (n * dstWidth) (m * dstHeight) dst dstWidth dstHeight
      = Some dst' /\
    forall x y, 0 <= x < dstWidth -> 0 <= y < dstHeight ->
      load dst' (y * dstWidth + x) = load src ((m * y) * (n * dstWidth) + n * x).
Proof.
  intros Hn Hm Hdw Hdh Hsw Hsh Hsrc Hroom.
  assert (Hidx : forall x y : nat, Z.of_nat x < dstWidth -> Z.of_nat y < dstHeight ->
    nnSrcIndex (n * dstWidth) (m * dstHeight) dstWidth dstHeight x y
    = (m * Z.of_nat y) * (n * dstWidth) + n * Z.of_nat x).
  { intros x y Hx Hy.
    destruct (nnSrcIndex_small (n * dstWidth) (m * dstHeight) dstWidth dstHeight x y)
      as (_ & _ & -> & _); try nia.
    destruct (coord_decimate (n * dstWidth) dstWidth n x) as (_ & _ & -> & _); try done.
    destruct (coord_decimate (m * dstHeight) dstHeight m y) as (_ & _ & -> & _); done. }
  destruct (resampleNearestNeighbor_spec src dst (n * dstWidth) (m * dstHeight)
              dstWidth dstHeight) as (dst' & Hrun & _ & Hpix & _); try done.
  { unfold INT_MAX. nia. }
  { intros x y Hx Hy. rewrite Hidx by done. apply load_Some.
    assert (m * Z.of_nat y + 1 <= m * dstHeight) by nia.
    assert (n * Z.of_nat x + 1 <= n * dstWidth) by nia.
    assert ((m * Z.of_nat y + 1) * (n * dstWidth) <= (m * dstHeight) * (n * dstWidth))
      by (apply Z.mul_le_mono_nonneg_r; lia).
    nia. }
  exists dst'. split; [done|]. intros x y Hx Hy.
  specialize (Hpix (Z.to_nat x) (Z.to_nat y)).
  rewrite Hidx, !Z2Nat.id in Hpix by lia. apply Hpix; lia.
Qed.

(** X15.  Scaling up a source of at most 32767 by 32767 samples by factors
    [n] and [m] that divide 65536 (the powers of two up to 65536), to a
    destination whose sample count fits an [int], both arrays holding their
    image: the nearest-neighbour kernels return and replicate pixels, the
    destination pixel [(x, y)] being the source pixel [(x / n, y / m)]. *)
Theorem resampleNearestNeighbor_replicates (src dst : list A)
    srcWidth srcHeight n m :
  1 <= srcWidth <= 32767 -> 1 <= srcHeight <= 32767 ->
  1 <= n -> 1 <= m -> (n | 65536) -> (m | 65536) ->
  (n * srcWidth) * (m * srcHeight) <= INT_MAX ->
  srcWidth * srcHeight <= Z.of_nat (length src) ->
  (n * srcWidth) * (m * srcHeight) <= Z.of_nat (length dst) ->
  exists dst',
    resampleNearestNeighbor src srcWidth srcHeight dst (n * srcWidth) (m * srcHeight)
      = Some dst' /\
    forall x y, 0 <= x < n * srcWidth -> 0 <= y < m * srcHeight ->
      load dst' (y * (n * srcWidth) + x) = load src ((y / m) * srcWidth + x / n).
Proof.
  intros Hsw Hsh Hn Hm Hnd Hmd Hmax Hsrc Hroom.
  assert (Hidx : forall x y : nat,
    Z.of_nat x < n * srcWidth -> Z.of_nat y < m * srcHeight ->
    nnSrcIndex srcWidth srcHeight (n * srcWidth) (m * srcHeight) x y
    = (Z.of_nat y / m) * srcWidth + Z.of_nat x / n).
  { intros x y Hx Hy.
    destruct (nnSrcIndex_small srcWidth srcHeight (n * srcWidth) (m * srcHeight) x y)
      as (_ & _ & -> & _); try nia.
    rewrite (coord_replicate srcWidth (n * srcWidth) n x) by done.
    rewrite (coord_replicate srcHeight (m * srcHeight) m y) by done. done. }
  destruct (resampleNearestNeighbor_spec src dst srcWidth srcHeight
              (n * srcWidth) (m * srcHeight)) as (dst' & Hrun & _ & Hpix & _);
    try done; try nia.
  { intros x y Hx Hy.
    destruct (nnSrcIndex_small srcWidth srcHeight (n * srcWidth) (m * srcHeight) x y)
      as (_ & _ & E & Hr); try nia.
    apply load_Some. rewrite E. lia. }
  exists dst'. split; [done|]. intros x y Hx Hy.
  specialize (Hpix (Z.to_nat x) (Z.to_nat y)).
  rewrite Hidx, !Z2Nat.id in Hpix by lia. apply Hpix; lia.
Qed.

End NearestNeighbourScaling.

Section LerpValues.
Import FastImage.

(** *** The values that resampleLerpFastLuma writes

    When scaling up, the source span of the first destination coordinate is
    empty. *)
Lemma span_empty srcDim dstDim :
  0 <= srcDim < dstDim -> srcDim <= 65535 ->
  Z.shiftr (wrap_i32 (0 + fxDelta srcDim dstDim)) kFixedShift = 0.
Proof.
  intros Hs Hmax. unfold fxDelta, kFixedShift.
  rewrite Z.shiftl_mul_pow2 by lia. change (2 ^ 16) with 65536.
  rewrite wrap_u32_small by (unfold UINT32_MAX; lia).
  assert (0 <= srcDim * 65536 / dstDim < 65536).
  { split; [apply Z.div_pos; lia|]. apply Z.div_lt_upper_bound; lia. }
  rewrite Z.add_0_l.
  rewrite !(wrap_i32_small (srcDim * 65536 / dstDim)) by (unfold INT_MIN, INT_MAX; lia).
  rewrite Z.shiftr_div_pow2 by lia. apply Z.div_small. lia.
Qed.

(** X16.  Asked to scale up, in width or in height, a source of at most
    65535 samples along that axis, [resampleLerpFastLuma] divides by zero at
    its first destination pixel, whatever the images hold. *)
Theorem resampleLerpFastLuma_upscale_undefined (src dst : list LumaSample)
    srcWidth srcHeight dstWidth dstHeight :
  1 <= dstWidth <= INT_MAX -> 1 <= dstHeight <= INT_MAX ->
  (0 <= srcWidth < dstWidth /\ srcWidth <= 65535) \/
  (0 <= srcHeight < dstHeight /\ srcHeight <= 65535) ->
  resampleLerpFastLuma src srcWidth srcHeight dst dstWidth dstHeight = None.
Proof.
  intros Hw Hh Hup. unfold resampleLerpFastLuma.
  destruct (Z.eqb_spec dstWidth 0); [lia|].
  destruct (Z.eqb_spec dstHeight 0); [lia|]. cbn [orb].
  assert (Hty : (0 < trip_count dstHeight)%nat).
  { unfold trip_count. rewrite wrap_i32_small by (unfold INT_MIN, INT_MAX in *; lia). lia. }
  assert (Htx : (0 < trip_count dstWidth)%nat).
  { unfold trip_count. rewrite wrap_i32_small by (unfold INT_MIN, INT_MAX in *; lia). lia. }
  apply (for_accum_None _ _ _ _ 0%nat Hty). intros s. cbv zeta.
  apply (for_accum_None _ _ _ _ 0%nat Htx). intros s'.
  change (accum (fxDelta srcHeight dstHeight) 0) with 0.
  change (accum (fxDelta srcWidth dstWidth) 0) with 0.
  assert (Htot : lerpTot (fxDelta srcWidth dstWidth) (fxDelta srcHeight dstHeight) 0 0 = 0).
  { unfold lerpTot. change (Z.shiftr 0 kFixedShift) with 0.
    destruct Hup as [[Hs Hm]|[Hs Hm]].
    - rewrite (span_empty srcWidth dstWidth) by done.
      change (wrap_i32 (0 - 0)) with 0. by rewrite Z.mul_0_r.
    - rewrite (span_empty srcHeight dstHeight) by done.
      change (wrap_i32 (0 - 0)) with 0. by rewrite Z.mul_0_l. }
  rewrite Htot.
  match goal with |- ?m ≫= _ = None => destruct m end; done.
Qed.

(** If at every destination pixel the sum over the source rectangle is
    defined and its area is not zero, the kernel returns, having written the
    quotients and nothing outside the destination image. *)
Lemma resampleLerpFastLuma_pixels (P : nat -> nat -> Z -> Prop)
    (src dst : list LumaSample) srcWidth srcHeight dstWidth dstHeight :
  1 <= dstWidth -> 1 <= dstHeight ->
  dstWidth * dstHeight <= INT_MAX ->
  dstWidth * dstHeight <= Z.of_nat (length dst) ->
  (forall x y : nat, Z.of_nat x < dstWidth -> Z.of_nat y < dstHeight ->
     let dx := fxDelta srcWidth dstWidth in
     let dy := fxDelta srcHeight dstHeight in
     exists pix,
       boxSum src srcWidth
         (Z.shiftr (accum dx x) kFixedShift)
         (Z.shiftr (wrap_i32 (accum dx x + dx)) kFixedShift)
         (Z.shiftr (accum dy y) kFixedShift)
         (Z.shiftr (wrap_i32 (accum dy y + dy)) kFixedShift) = Some pix /\
       lerpArea srcWidth srcHeight dstWidth dstHeight x y <> 0 /\
       P x y (wrap_u8 (Z.quot pix (lerpArea srcWidth srcHeight dstWidth dstHeight x y)))) ->
  exists dst',
    resampleLerpFastLuma src srcWidth srcHeight dst dstWidth dstHeight = Some dst' /\
    length dst' = length dst /\
    (forall x y : nat, Z.of_nat x < dstWidth -> Z.of_nat y < dstHeight ->
       exists v, load dst' (Z.of_nat y * dstWidth + Z.of_nat x) = Some v /\ P x y v) /\
    (forall j, ~ (0 <= j < dstWidth * dstHeight) -> load dst' j = load dst j).
Proof.
  intros Hw Hh Hmax Hroom Hpixel.
  assert (HwM : dstWidth <= INT_MAX) by (unfold INT_MAX in *; nia).
  assert (HhM : dstHeight <= INT_MAX) by (unfold INT_MAX in *; nia).
  unfold resampleLerpFastLuma.
  destruct (Z.eqb_spec dstWidth 0); [lia|].
  destruct (Z.eqb_spec dstHeight 0); [lia|]. cbn [orb].
  unfold trip_count.
  rewrite !wrap_i32_small by (unfold INT_MIN, INT_MAX in *; lia).
  cbv zeta in Hpixel. unfold lerpArea, boxSum in Hpixel.
  set (dx := fxDelta srcWidth dstWidth) in *.
  set (dy := fxDelta srcHeight dstHeight) in *.
  pose (InvO := fun (k : nat) (d : list LumaSample) =>
    length d = length dst /\
    (forall x y : nat, Z.of_nat x < dstWidth -> (y < k)%nat ->
       exists v, load d (Z.of_nat y * dstWidth + Z.of_nat x) = Some v /\ P x y v) /\
    (forall j, ~ (0 <= j < Z.of_nat k * dstWidth) -> load d j = load dst j)).
  match goal with |- exists d, for_accum ?n 0 0 ?st ?body ?s = Some d /\ _ =>
    destruct (for_accum_inv InvO n st body s) as (dst' & Hrun & Hlen & Hpix & Hout)
  end.
  - split; [done|]. split; [intros; lia|done].
  - intros k d Hk (Hlen & Hpix & Hout). cbv zeta.
    pose (InvI := fun (kx : nat) (d' : list LumaSample) =>
      length d' = length dst /\
      (forall x : nat, (x < kx)%nat ->
         exists v, load d' (Z.of_nat k * dstWidth + Z.of_nat x) = Some v /\ P x k v) /\
      (forall j, ~ (Z.of_nat k * dstWidth <= j < Z.of_nat k * dstWidth + Z.of_nat kx) ->
         load d' j = load d j)).
    match goal with |- exists d1, for_accum ?n 0 0 ?st ?body ?s = Some d1 /\ _ =>
      destruct (for_accum_inv InvI n st body s) as (d' & Hrun' & Hlen' & Hpix' & Hout')
    end.
    + split; [done|]. split; [intros; lia|done].
    + intros kx d1 Hkx (Hl1 & Hp1 & Ho1).
      destruct (Hpixel kx k ltac:(lia) ltac:(lia)) as (pix & Hsum & Hne & HP).
      rewrite Hsum. cbn [mbind option_bind].
      destruct (Z.eqb_spec (lerpTot dx dy (accum dy k) (accum dx kx)) 0) as [E|_];
        [done|].
      destruct (dstOffset_small dstWidth dstHeight (Z.of_nat kx) (Z.of_nat k))
        as [-> Hrange]; try lia.
      unfold LumaSample in *.
      rewrite store_Some by lia.
      eexists. split; [done|]. split; [by rewrite length_insert|]. split.
      * intros x Hx. rewrite load_insert by lia.
        destruct (Z.eqb_spec (Z.of_nat k * dstWidth + Z.of_nat x)
                    (Z.of_nat k * dstWidth + Z.of_nat kx)) as [E|N].
        -- assert (x = kx) as -> by lia. by eexists.
        -- apply Hp1. lia.
      * intros j Hj. rewrite load_insert by lia.
        destruct (Z.eqb_spec j (Z.of_nat k * dstWidth + Z.of_nat kx)); [lia|].
        apply Ho1. lia.
    + exists d'. split; [exact Hrun'|]. split; [done|]. split.
      * intros x y Hx Hy. destruct (decide (y = k)) as [->|Hne].
        -- apply Hpix'. lia.
        -- rewrite Hout' by nia. apply Hpix; lia.
      * intros j Hj. rewrite Hout' by nia. apply Hout. nia.
  - exists dst'. split; [exact Hrun|]. split; [done|]. split.
    + intros x y Hx Hy. apply Hpix; lia.
    + intros j Hj. apply Hout. rewrite Z2Nat.id by lia. nia.
Qed.

(** The sum over a rectangle of samples between [lo] and [hi], when the
    whole image cannot overflow an [int]. *)
Lemma boxSum_bounds (src : list LumaSample) srcWidth srcHeight x0 x1 y0 y1 lo hi :
  1 <= srcWidth <= 32767 -> 1 <= srcHeight <= 32767 ->
  srcWidth * srcHeight <= Z.of_nat (length src) ->
  0 <= x0 <= x1 -> x1 <= srcWidth -> 0 <= y0 <= y1 -> y1 <= srcHeight ->
  Forall (fun v => lo <= v <= hi) src -> 0 <= lo -> 
  srcWidth * srcHeight * hi <= INT_MAX ->
  exists pix,
    boxSum src srcWidth x0 x1 y0 y1 = Some pix /\
    (y1 - y0) * (x1 - x0) * lo <= pix <= (y1 - y0) * (x1 - x0) * hi.
Proof.
  intros HW HH Hlen Hx0 Hx1 Hy0 Hy1 Hrange Hlo Hmax.
  assert (Hm : srcWidth * srcHeight <= 32767 * 32767) by nia.
  set (w := x1 - x0). set (h := y1 - y0).
  assert (Hwh : 0 <= w <= srcWidth /\ 0 <= h <= srcHeight) by lia.
  unfold boxSum. fold w h.
  destruct (Z.eq_dec w 0) as [Ew|Nw].
  { (* an empty rectangle *)
    rewrite Ew. 
    destruct (for_loop_inv (fun _ (p : Z) => p = 0) (Z.to_nat h) y0
      (fun y pix =>
        let ySrcOffset := mul_int_u32 y srcWidth in
        for_loop (Z.to_nat 0) x0 (fun x pix =>
          v ← load src (wrap_i32 (ySrcOffset + x));
          Some (wrap_i32 (pix + v))) pix) 0) as (pix & Hrun & ->); [done| |].
    - intros k p _ ->. by eexists.
    - exists 0. split; [done|]. lia. }
  assert (Hhi : lo <= hi).
  { destruct src as [|v src]; [cbn in Hlen; nia|].
    apply Forall_cons in Hrange as [? _]. lia. }
  destruct (for_loop_inv (fun k (p : Z) =>
      Z.of_nat k * w * lo <= p <= Z.of_nat k * w * hi) (Z.to_nat h) y0
    (fun y pix =>
      let ySrcOffset := mul_int_u32 y srcWidth in
      for_loop (Z.to_nat w) x0 (fun x pix =>
        v ← load src (wrap_i32 (ySrcOffset + x));
        Some (wrap_i32 (pix + v))) pix) 0) as (pix & Hrun & Hpix).
  - lia.
  - intros ky p Hky Hp. cbv zeta.
    set (y := y0 + Z.of_nat ky).
    assert (Hy : 0 <= y < srcHeight) by lia.
    rewrite mul_int_u32_small by (unfold INT_MAX, UINT32_MAX; nia).
    destruct (for_loop_inv (fun k (q : Z) =>
        (Z.of_nat ky * w + Z.of_nat k) * lo <= q <= (Z.of_nat ky * w + Z.of_nat k) * hi)
      (Z.to_nat w) x0
      (fun x pix =>
          v ← load src (wrap_i32 (y * srcWidth + x));
          Some (wrap_i32 (pix + v))) p) as (p' & Hrun' & Hp').
    + lia.
    + intros kx q Hkx Hq.
      set (x := x0 + Z.of_nat kx).
      assert (Hx : 0 <= x < srcWidth) by lia.
      rewrite wrap_i32_small by (unfold INT_MIN, INT_MAX; nia).
      destruct (load_Some src (y * srcWidth + x) ltac:(nia)) as [v Hv].
      rewrite Hv. cbn [mbind option_bind].
      assert (Hvr : lo <= v <= hi).
      { unfold load in Hv. destruct (0 <=? y * srcWidth + x); [|done].
        rewrite Forall_lookup in Hrange. by apply (Hrange _ _ Hv). }
      assert (Hcnt : Z.of_nat ky * w + Z.of_nat kx + 1 <= srcWidth * srcHeight).
      { assert (Z.of_nat ky * w + Z.of_nat kx + 1 <= (Z.of_nat ky + 1) * w) by nia.
        assert ((Z.of_nat ky + 1) * w <= h * w) by (apply Z.mul_le_mono_nonneg_r; lia).
        assert (h * w <= srcHeight * srcWidth) by (apply Z.mul_le_mono_nonneg; lia).
        lia. }
      assert (Hub : (Z.of_nat ky * w + Z.of_nat kx + 1) * hi <= srcWidth * srcHeight * hi).
      { apply Z.mul_le_mono_nonneg_r; lia. }
      eexists. split; [done|].
      rewrite wrap_i32_small by (unfold INT_MIN, INT_MAX in *; nia).
      nia.
    + exists p'. split; [done|]. rewrite Z2Nat.id in Hp' by lia. nia.
  - exists pix. split; [done|]. rewrite Z2Nat.id in Hpix by lia. done.
Qed.

Lemma lerpArea_exact srcWidth srcHeight dstWidth dstHeight (x y : nat) :
  1 <= dstWidth <= srcWidth -> srcWidth <= 32767 ->
  1 <= dstHeight <= srcHeight -> srcHeight <= 32767 ->
  Z.of_nat x < dstWidth -> Z.of_nat y < dstHeight ->
  let dx := fxDelta srcWidth dstWidth in
  let dy := fxDelta srcHeight dstHeight in
  lerpArea srcWidth srcHeight dstWidth dstHeight x y
  = (Z.shiftr (wrap_i32 (accum dy y + dy)) kFixedShift
     - Z.shiftr (accum dy y) kFixedShift)
    * (Z.shiftr (wrap_i32 (accum dx x + dx)) kFixedShift
       - Z.shiftr (accum dx x) kFixedShift).
Proof.
  intros Hw Hsw Hh Hsh Hx Hy dx dy. unfold lerpArea, lerpTot. fold dx dy.
  pose proof (span_bounds srcWidth dstWidth x Hw Hsw Hx) as Hxs.
  pose proof (span_bounds srcHeight dstHeight y Hh Hsh Hy) as Hys.
  cbv zeta in *. fold dx in Hxs. fold dy in Hys.
  set (x0 := Z.shiftr (accum dx x) _) in *.
  set (x1 := Z.shiftr (wrap_i32 (accum dx x + dx)) _) in *.
  set (y0 := Z.shiftr (accum dy y) _) in *.
  set (y1 := Z.shiftr (wrap_i32 (accum dy y + dy)) _) in *.
  rewrite (wrap_i32_small (x1 - x0)), (wrap_i32_small (y1 - y0))
    by (unfold INT_MIN, INT_MAX; lia).
  assert (1 <= (y1 - y0) * (x1 - x0) <= 32767 * 32767) by nia.
  apply wrap_i32_small. unfold INT_MIN, INT_MAX. lia.
Qed.

(** X17.  Scaling down an image whose samples lie between [lo] and [hi],
    where [srcWidth * srcHeight * hi] fits an [int] so that no sum
    overflows: every pixel that [resampleLerpFastLuma] writes lies between
    [lo] and [hi] (an image of one value gives an image of that value), and
    nothing outside the destination image is written. *)
Theorem resampleLerpFastLuma_within_range (src dst : list LumaSample)
    srcWidth srcHeight dstWidth dstHeight lo hi :
  1 <= dstWidth <= srcWidth -> srcWidth <= 32767 ->
  1 <= dstHeight <= srcHeight -> srcHeight <= 32767 ->
  srcWidth * srcHeight <= Z.of_nat (length src) ->
  dstWidth * dstHeight <= Z.of_nat (length dst) ->
  Forall (fun v => lo <= v <= hi) src -> 0 <= lo -> hi <= 255 ->
  srcWidth * srcHeight * hi <= INT_MAX ->
  exists dst',
    resampleLerpFastLuma src srcWidth srcHeight dst dstWidth dstHeight = Some dst' /\
    length dst' = length dst /\
    (forall j, ~ (0 <= j < dstWidth * dstHeight) -> load dst' j = load dst j) /\
    (forall x y, 0 <= x < dstWidth -> 0 <= y < dstHeight ->
       exists v, load dst' (y * dstWidth + x) = Some v /\ lo <= v <= hi).
Proof.
  intros Hw Hsw Hh Hsh Hsrc Hroom Hrange Hlo Hhi Hmax.
  assert (Hm : dstWidth * dstHeight <= 32767 * 32767) by nia.
  destruct (resampleLerpFastLuma_pixels (fun _ _ v => lo <= v <= hi)
              src dst srcWidth srcHeight dstWidth dstHeight)
    as (dst' & Hrun & Hlen & Hpix & Hout); try done; try lia.
  { unfold INT_MAX. lia. }
  { intros x y Hx Hy dx dy.
    destruct (span_bounds srcWidth dstWidth x Hw Hsw Hx) as (Hx0 & Hx01 & Hx1).
    destruct (span_bounds srcHeight dstHeight y Hh Hsh Hy) as (Hy0 & Hy01 & Hy1).
    rewrite (lerpArea_exact srcWidth srcHeight dstWidth dstHeight x y) by done.
    fold dx in Hx0, Hx01, Hx1. fold dy in Hy0, Hy01, Hy1. fold dx dy.
    set (x0 := Z.shiftr (accum dx x) _) in *.
    set (x1 := Z.shiftr (wrap_i32 (accum dx x + dx)) _) in *.
    set (y0 := Z.shiftr (accum dy y) _) in *.
    set (y1 := Z.shiftr (wrap_i32 (accum dy y + dy)) _) in *.
    destruct (boxSum_bounds src srcWidth srcHeight x0 x1 y0 y1 lo hi)
      as (pix & Hsum & Hb); try done; try lia.
    exists pix. split; [done|].
    set (area := (y1 - y0) * (x1 - x0)) in *.
    assert (Ha : 1 <= area) by (unfold area; nia).
    split; [lia|].
    assert (Hp : 0 <= pix) by nia.
    rewrite Z.quot_div_nonneg by lia.
    assert (lo <= pix / area).
    { apply Z.div_le_lower_bound; lia. }
    assert (pix / area <= hi).
    { apply Z.div_le_upper_bound; lia. }
    unfold wrap_u8. rewrite Z.mod_small by lia. lia. }
  exists dst'. split; [done|]. split; [done|]. split; [done|].
  intros x y Hx Hy. specialize (Hpix (Z.to_nat x) (Z.to_nat y)).
  rewrite !Z2Nat.id in Hpix by lia. apply Hpix; lia.
Qed.

(** X18.  At identity scale every source rectangle is a single pixel and
    [resampleLerpFastLuma] copies the image. *)
Theorem resampleLerpFastLuma_identity (src dst : list LumaSample) W H :
  1 <= W <= 32767 -> 1 <= H <= 32767 ->
  is_luma src ->
  W * H <= Z.of_nat (length src) -> W * H <= Z.of_nat (length dst) ->
  exists dst',
    resampleLerpFastLuma src W H dst W H = Some dst' /\
    length dst' = length dst /\
    forall i, 0 <= i -> load dst' i = if i <? W * H then load src i else load dst i.
Proof.
  intros HW HH Hluma Hsrc Hroom.
  assert (Hm : W * H <= 32767 * 32767) by nia.
  destruct (resampleLerpFastLuma_pixels
              (fun x y v => load src (Z.of_nat y * W + Z.of_nat x) = Some v)
              src dst W H W H)
    as (dst' & Hrun & Hlen & Hpix & Hout); try done; try lia.
  { unfold INT_MAX. lia. }
  { intros x y Hx Hy dx dy.
    rewrite (lerpArea_exact W H W H x y) by lia. fold dx dy.
    destruct (coord_decimate W W 1 x) as (_ & _ & Ex0 & Ex1); try lia.
    destruct (coord_decimate H H 1 y) as (_ & _ & Ey0 & Ey1); try lia.
    fold dx in Ex0, Ex1. fold dy in Ey0, Ey1.
    rewrite Ex0, Ex1, Ey0, Ey1, !Z.mul_1_l.
    replace ((Z.of_nat y + 1 - Z.of_nat y) * (Z.of_nat x + 1 - Z.of_nat x)) with 1 by lia.
    unfold boxSum.
    replace (Z.of_nat y + 1 - Z.of_nat y) with 1 by lia.
    replace (Z.of_nat x + 1 - Z.of_nat x) with 1 by lia.
    change (Z.to_nat 1) with 1%nat. cbn [for_loop]. cbv zeta.
    rewrite mul_int_u32_small by (unfold INT_MAX, UINT32_MAX; nia).
    rewrite wrap_i32_small by (unfold INT_MIN, INT_MAX; nia).
    destruct (load_Some src (Z.of_nat y * W + Z.of_nat x) ltac:(nia)) as [v Hv].
    pose proof (is_luma_load src _ v Hluma Hv) as Hb.
    rewrite Hv. cbn [mbind option_bind].
    rewrite Z.add_0_l, wrap_i32_small by (unfold INT_MIN, INT_MAX; lia).
    exists v. split; [done|]. split; [lia|].
    rewrite Z.quot_1_r. unfold wrap_u8. by rewrite Z.mod_small by lia. }
  exists dst'. split; [done|]. split; [done|].
  intros i Hi. destruct (Z.ltb_spec i (W * H)) as [Hlt|Hge].
  - pose proof (Z.div_mod i W ltac:(lia)) as Hdm.
    pose proof (Z.mod_pos_bound i W ltac:(lia)) as Hmod.
    assert (Hdiv : 0 <= i / W < H).
    { split; [apply Z.div_pos; lia|]. apply Z.div_lt_upper_bound; lia. }
    destruct (Hpix (Z.to_nat (i mod W)) (Z.to_nat (i / W))) as (v & Hv & Hs); try lia.
    rewrite !Z2Nat.id in Hv, Hs by lia.
    replace (i / W * W + i mod W) with i in Hv, Hs by lia.
    by rewrite Hv, Hs.
  - apply Hout. lia.
Qed.

End LerpValues.

Section RotateMore.
Import FastImage.

(** X20.  What [rotate180] does to every pixel of an image of
    [width * height] samples, a count that an [uint32_t] holds: a pixel of
    the middle row of an odd height, or of the middle column of an odd
    width, keeps its sample; every other pixel [(x, y)] receives the sample
    of the opposite pixel [(width - 1 - x, height - 1 - y)]. *)
Theorem rotate180_pixels (buf : list LumaSample) W H :
  1 <= W -> 1 <= H -> W * H <= UINT32_MAX ->
  Z.of_nat (length buf) = W * H ->
  exists buf',
    rotate180 buf W H = Some buf' /\
    length buf' = length buf /\
    forall x y, 0 <= x < W -> 0 <= y < H ->
      load buf' (W * y + x) =
      if ((H mod 2 =? 1) && (y =? H / 2)) || ((W mod 2 =? 1) && (x =? W / 2))
      then load buf (W * y + x)
      else load buf (W * (H - 1 - y) + (W - 1 - x)).
Proof.
  intros HW HH Hfit Hlen.
  destruct (rotate180_spec buf W H HW HH Hfit Hlen) as (b1 & Hr1 & Hl1 & Hp1).
  exists b1. split; [done|]. split; [done|]. intros x y Hx Hy.
  pose proof (Z.div_mod W 2 ltac:(lia)) as HdW.
  pose proof (Z.mod_pos_bound W 2 ltac:(lia)) as HmW.
  pose proof (Z.div_mod H 2 ltac:(lia)) as HdH.
  pose proof (Z.mod_pos_bound H 2 ltac:(lia)) as HmH.
  destruct (Hp1 x y Hx Hy) as [Hm Hn].
  destruct (Z.eqb_spec (H mod 2) 1) as [EH|NH];
    destruct (Z.eqb_spec y (H / 2)) as [Ey|Ny];
    destruct (Z.eqb_spec (W mod 2) 1) as [EW|NW];
    destruct (Z.eqb_spec x (W / 2)) as [Ex|Nx]; cbn [andb orb].
  all: first [ apply Hn; unfold rot180_moved, rot180_rows, rot180_cols; lia
             | apply Hm; unfold rot180_moved, rot180_rows, rot180_cols; lia ].
Qed.

(** X21.  An image of a single row or a single column is returned as it
    was: it is not reversed. *)
Theorem rotate180_single_line (buf : list LumaSample) W H :
  1 <= W -> 1 <= H -> W = 1 \/ H = 1 -> W * H <= UINT32_MAX ->
  Z.of_nat (length buf) = W * H ->
  rotate180 buf W H = Some buf.
Proof.
  intros HW HH Hone Hfit Hlen.
  destruct (rotate180_spec buf W H HW HH Hfit Hlen) as (b1 & -> & Hl1 & Hp1).
  f_equal. apply load_ext. intros i.
  destruct (Z_lt_dec i 0) as [Hneg|Hpos].
  { rewrite !load_outside by lia. done. }
  destruct (Z_lt_dec i (W * H)) as [Hin|Hout].
  2: { rewrite !load_outside by lia. done. }
  destruct (sample_index W H i HW ltac:(lia)) as (Ei & Hx & Hy).
  set (x := i mod W) in *. set (y := i / W) in *. rewrite Ei.
  destruct (Hp1 x y Hx Hy) as [_ Hn]. apply Hn.
  unfold rot180_moved, rot180_rows, rot180_cols.
  destruct Hone as [-> | ->].
  - change (1 / 2) with 0. lia.
  - change (1 / 2) with 0. lia.
Qed.

End RotateMore.

(** X22.  [setRotation] sends one and the same value to the three output
    ports and returns the status of the first call only.  The value is a
    multiple of 90 between -270 and 270: for [rotation >= 0] it is the
    largest multiple of 90 not above [rotation % 360], one of 0, 90, 180 and
    270; for a negative [rotation] it is zero or negative (the remainder
    truncates towards zero), not one of 90, 180 and 270. *)
Theorem setRotation_quantises status rotation log :
  exists q,
    -3 <= q <= 3 /\
    VideoParameters.setRotation status rotation log
    = (status log 0 (90 * q), log ++ [(0, 90 * q); (1, 90 * q); (2, 90 * q)]) /\
    (0 <= rotation -> 0 <= q /\ 90 * q <= rotation mod 360 < 90 * q + 90) /\
    (rotation <= 0 -> q <= 0 /\ 90 * q - 90 < Z.rem rotation 360 <= 90 * q).
Proof.
  set (m := Z.rem rotation 360).
  assert (Hm : -360 < m < 360 /\ (0 <= rotation -> 0 <= m) /\ (rotation <= 0 -> m <= 0)).
  { assert (Hp : 0 <= rotation -> 0 <= m < 360)
      by (intros; apply Z.rem_bound_pos; lia).
    assert (Hn : rotation <= 0 -> -360 < m <= 0).
    { intros Hle. pose proof (Z.rem_bound_pos_neg rotation 360 ltac:(lia) Hle) as Hb.
      fold m in Hb. lia. }
    lia. }
  set (q := Z.quot m 90).
  pose proof (Z.quot_rem' m 90) as Hqr. fold q in Hqr.
  assert (Hr : (0 <= m -> 0 <= Z.rem m 90 < 90) /\ (m <= 0 -> -90 < Z.rem m 90 <= 0)).
  { split; intros Hs.
    - apply Z.rem_bound_pos; lia.
    - pose proof (Z.rem_bound_pos_neg m 90 ltac:(lia) Hs). lia. }
  assert (Hq : -3 <= q <= 3) by lia.
  exists q. split; [done|]. split; [|split].
  - unfold VideoParameters.setRotation, VideoParameters.mmal_port_parameter_set_int32.
    fold m q. rewrite wrap_i32_small by (unfold INT_MIN, INT_MAX; lia).
    rewrite <- !app_assoc. cbn [app]. by rewrite (Z.mul_comm q 90).
  - intros Hp. rewrite <- Z.rem_mod_nonneg by lia. fold m. lia.
  - intros Hn. lia.
Qed.



(** *** The theorems above on small images *)

Lemma copy2vuyToLuma_spec_witness :
  is_Some (FastImage.copy2vuyToLuma [0; 11; 0; 22] [9; 9; 9] 2 1).
Proof.
  assert (Hc : wrap_u32 (2 * 1) <= 2 ^ 31) by (vm_compute; congruence).
  destruct (copy2vuyToLuma_spec [0; 11; 0; 22] [9; 9; 9] 2 1 Hc) as [Hiff _].
  apply Hiff. split; vm_compute; congruence.
Defined.

Lemma copyLumaToColor_spec_witness :
  is_Some (FastImage.copyLumaToColor [1; 255] [0; 0; 0] 2 1).
Proof.
  destruct (copyLumaToColor_spec [1; 255] [0; 0; 0] 2 1) as [Hiff _].
  apply Hiff. split; vm_compute; congruence.
Defined.

Lemma copyColorToLuma_spec_witness :
  is_Some (FastImage.copyColorToLuma [66051; 4278190080] [0; 0; 0] 2 1).
Proof.
  destruct (copyColorToLuma_spec [66051; 4278190080] [0; 0; 0] 2 1) as [Hiff _].
  apply Hiff. split; vm_compute; congruence.
Defined.

Lemma luma_color_round_trip_witness :
  exists col' dst',
    FastImage.copyLumaToColor [1; 255] [0; 0] 2 1 = Some col' /\
    FastImage.copyColorToLuma col' [7; 7; 7] 2 1 = Some dst' /\
    FastImage.load dst' 1 = Some 255.
Proof.
  destruct (luma_color_round_trip [1; 255] [7; 7; 7] [0; 0] 2 1)
    as (col' & dst' & H1 & H2 & _ & H3).
  - repeat (apply Forall_cons_2; [lia|]). apply Forall_nil_2.
  - vm_compute. congruence.
  - vm_compute. congruence.
  - vm_compute. congruence.
  - exists col', dst'. split; [exact H1|]. split; [exact H2|].
    exact (H3 1 ltac:(lia)).
Defined.

Lemma resampleNearestNeighbor_safe_witness :
  exists dst',
    FastImage.resampleNearestNeighbor [1; 2; 3; 4; 5; 6] 3 2 [0; 0; 0; 0; 0] 2 2
      = Some dst' /\
    length dst' = 5%nat /\ FastImage.load dst' 4 = Some 0.
Proof.
  destruct (resampleNearestNeighbor_safe [1; 2; 3; 4; 5; 6] [0; 0; 0; 0; 0] 3 2 2 2)
    as (dst' & Hrun & Hlen & Hout & _).
  - lia.
  - lia.
  - lia.
  - lia.
  - unfold INT_MAX. lia.
  - cbn. lia.
  - cbn. lia.
  - exists dst'. split; [exact Hrun|]. split; [exact Hlen|].
    exact (Hout 4 ltac:(lia)).
Defined.

Lemma resampleNearestNeighbor_decimates_witness :
  exists dst',
    FastImage.resampleNearestNeighbor [1; 2; 3; 4; 5; 6; 7; 8] (2 * 2) (2 * 1)
      [0; 0] 2 1 = Some dst' /\
    FastImage.load dst' (0 * 2 + 1) = Some 3.
Proof.
  destruct (resampleNearestNeighbor_decimates [1; 2; 3; 4; 5; 6; 7; 8] [0; 0] 2 1 2 2)
    as (dst' & Hrun & Hpix).
  - lia.
  - lia.
  - lia.
  - lia.
  - lia.
  - lia.
  - cbn. lia.
  - cbn. lia.
  - exists dst'. split; [exact Hrun|].
    exact (Hpix 1 0 ltac:(lia) ltac:(lia)).
Defined.

Lemma resampleNearestNeighbor_replicates_witness :
  exists dst',
    FastImage.resampleNearestNeighbor [1; 2] 2 1 [0; 0; 0; 0; 0; 0; 0; 0]
      (2 * 2) (2 * 1) = Some dst' /\
    FastImage.load dst' (1 * (2 * 2) + 3) = Some 2.
Proof.
  destruct (resampleNearestNeighbor_replicates [1; 2] [0; 0; 0; 0; 0; 0; 0; 0] 2 1 2 2)
    as (dst' & Hrun & Hpix).
  - lia.
  - lia.
  - lia.
  - lia.
  - exists 32768. reflexivity.
  - exists 32768. reflexivity.
  - unfold INT_MAX. lia.
  - cbn. lia.
  - cbn. lia.
  - exists dst'. split; [exact Hrun|].
    exact (Hpix 3 1 ltac:(lia) ltac:(lia)).
Defined.

Lemma resampleLerpFastLuma_upscale_undefined_witness :
  FastImage.resampleLerpFastLuma [1; 2; 3; 4] 2 2 [0; 0; 0; 0; 0; 0] 3 2 = None.
Proof.
  apply (resampleLerpFastLuma_upscale_undefined [1; 2; 3; 4] [0; 0; 0; 0; 0; 0] 2 2 3 2).
  - unfold INT_MAX. lia.
  - unfold INT_MAX. lia.
  - left. lia.
Defined.

Lemma resampleLerpFastLuma_within_range_witness :
  exists dst',
    FastImage.resampleLerpFastLuma [3; 5; 4; 5] 2 2 [0; 9] 1 1 = Some dst' /\
    FastImage.load dst' 1 = Some 9 /\
    exists v, FastImage.load dst' (0 * 1 + 0) = Some v /\ 3 <= v <= 5.
Proof.
  destruct (resampleLerpFastLuma_within_range [3; 5; 4; 5] [0; 9] 2 2 1 1 3 5)
    as (dst' & Hrun & _ & Hout & Hpix).
  - lia.
  - lia.
  - lia.
  - lia.
  - cbn. lia.
  - cbn. lia.
  - repeat (apply Forall_cons_2; [lia|]). apply Forall_nil_2.
  - lia.
  - lia.
  - unfold INT_MAX. lia.
  - exists dst'. split; [exact Hrun|]. split.
    + exact (Hout 1 ltac:(lia)).
    + exact (Hpix 0 0 ltac:(lia) ltac:(lia)).
Defined.

Lemma resampleLerpFastLuma_identity_witness :
  exists dst',
    FastImage.resampleLerpFastLuma [1; 2; 3; 4] 2 2 [0; 0; 0; 0; 9] 2 2 = Some dst' /\
    FastImage.load dst' 3 = Some 4 /\ FastImage.load dst' 4 = Some 9.
Proof.
  destruct (resampleLerpFastLuma_identity [1; 2; 3; 4] [0; 0; 0; 0; 9] 2 2)
    as (dst' & Hrun & _ & Hpix).
  - lia.
  - lia.
  - repeat (apply Forall_cons_2; [lia|]). apply Forall_nil_2.
  - cbn. lia.
  - cbn. lia.
  - exists dst'. split; [exact Hrun|]. split.
    + exact (Hpix 3 ltac:(lia)).
    + exact (Hpix 4 ltac:(lia)).
Defined.

Lemma rotate180_even_witness :
  FastImage.rotate180 [1; 2; 3; 4] 2 2 = Some [4; 3; 2; 1].
Proof.
  apply (rotate180_even [1; 2; 3; 4] 2 2);
    [lia | lia | reflexivity | reflexivity | unfold UINT32_MAX; lia | reflexivity].
Defined.

Lemma rotate180_pixels_witness :
  exists buf',
    FastImage.rotate180 [1; 2; 3; 4; 5; 6; 7; 8; 9] 3 3 = Some buf' /\
    FastImage.load buf' (3 * 0 + 0) = Some 9 /\
    FastImage.load buf' (3 * 0 + 1) = Some 2 /\
    FastImage.load buf' (3 * 1 + 0) = Some 4.
Proof.
  destruct (rotate180_pixels [1; 2; 3; 4; 5; 6; 7; 8; 9] 3 3)
    as (buf' & Hrun & _ & Hpix);
    [lia | lia | unfold UINT32_MAX; lia | reflexivity |].
  exists buf'. split; [exact Hrun|]. split; [|split].
  - exact (Hpix 0 0 ltac:(lia) ltac:(lia)).
  - exact (Hpix 1 0 ltac:(lia) ltac:(lia)).
  - exact (Hpix 0 1 ltac:(lia) ltac:(lia)).
Defined.

Lemma rotate180_single_line_witness :
  FastImage.rotate180 [1; 2; 3] 3 1 = Some [1; 2; 3].
Proof.
  apply (rotate180_single_line [1; 2; 3] 3 1);
    [lia | lia | right; reflexivity | unfold UINT32_MAX; lia | reflexivity].
Defined.

(** A quarter turn backwards is sent to the driver as [-90]. *)
Example setRotation_negative status :
  VideoParameters.setRotation status (-90) []
  = (status [] 0 (-90), [(0, -90); (1, -90); (2, -90)]).
Proof. reflexivity. Qed.
